(** * Automaton: the task-tree compiler and executor, and its Logger

    A shallow embedding of [index.js] (the [Automaton] prototype) and of
    [lib/Logger.js].

    - Option values are the trees of [value]: numbers are integers,
      strings are sequences of one-byte characters, an object is the list
      of its own properties in enumeration order.  An options object
      lives in a cell of the store ([heap]), addressed by the place of its
      node in the task tree, so that the sharing between a node's
      [options], its subtasks' [parentOptions] and the root's own
      [parentOptions] is kept.  Nothing else is shared in the model.
      The code shares nothing else on three accounts.  The options of
      an entry are deep-cloned when its node is created.  The default of
      an option is handed over by the defaults loop as it is, not a copy
      of it: the model keeps to defaults that are primitive values
      ([prim]), for which this is the same; a default that is an array
      or an object would be one object for the task definition and for
      every node and run of the task, rewritten in place by the
      substitution, and is outside the model.  The interpolator and the
      user's functions are taken to hand back values of their own, not
      an array or an object that an options object holds.
    - The continuation-passing code is written in direct style: a batch
      takes the state and returns the state and the error it hands to its
      [next], [None] standing for every falsy error.
      [process.nextTick] only defers a call and is not modelled.
    - User code (hooks, inline functions, modifier functions) is a pure
      function of the options object it is given: what it leaves in the
      object, what it writes on the logger, the error it reports.  It is
      taken to call its continuation once and not to throw.
    - A run keeps a record of the calls into user code and of the
      post-task phases ([trace]); the record is not in the source and is
      there to state what ran, and how often.
    - The registry [_tasks] is a finite map from ids; an id is taken not
      to name a property the array has of itself or inherits.  The file
      system is not modelled: [loadTasks] starts from the files found.
    - The collaborators that live outside the two files (the placeholder
      interpolator, the [colors] package, the grunt runner, the definition
      validator) are the fields of [Collaborators] and are parameters of
      the whole development; [sample] is one concrete choice, used to run
      the definitions on examples. *)

From Stdlib Require Import ZArith Ascii String List Bool Lia.
From stdpp Require Import base decidable option list gmap strings pretty.

Set Warnings "-register-all".

Local Open Scope string_scope.
Local Open Scope list_scope.
Local Open Scope Z_scope.

(* ===================================================================== *)
(** ** JavaScript values *)
(* ===================================================================== *)

(** Option values.  Numbers are integers; an object is the list of its own
    enumerable properties in enumeration order. *)
Inductive value : Type :=
| VUndef
| VNull
| VBool (b : bool)
| VNum (z : Z)
| VStr (s : string)
| VArr (xs : list value)
| VObj (kvs : list (string * value)).

(** An error object; only its [message] is ever read. *)
Record jserror : Type := Error { message : string }.

(** What [if (v)] and [!!v] see. *)
Definition truthy (v : value) : bool :=
  match v with
  | VUndef | VNull => false
  | VBool b => b
  | VNum z => negb (Z.eqb z 0)
  | VStr s => negb (String.eqb s "")
  | VArr _ | VObj _ => true
  end.

(** [a || b] on errors: [None] stands for every falsy value. *)
Definition or_else (a b : option jserror) : option jserror :=
  match a with
  | Some e => Some e
  | None => b
  end.

Definition join_with (sep : string) (xs : list string) : string :=
  String.concat sep xs.

(** [v + ''] *)
Fixpoint to_string (v : value) : string :=
  match v with
  | VUndef => "undefined"
  | VNull => "null"
  | VBool true => "true"
  | VBool false => "false"
  | VNum z => pretty z
  | VStr s => s
  | VArr xs =>
      join_with ","
        (List.map (fun x => match x with
                            | VUndef | VNull => ""
                            | _ => to_string x
                            end) xs)
  | VObj _ => "[object Object]"
  end.


Definition isObject (v : value) : bool :=
  match v with VObj _ => true | _ => false end.


(** *** Own properties *)

Fixpoint assoc_get (kvs : list (string * value)) (k : string) : value :=
  match kvs with
  | [] => VUndef
  | (k', v) :: rest => if String.eqb k' k then v else assoc_get rest k
  end.

Fixpoint assoc_has (kvs : list (string * value)) (k : string) : bool :=
  match kvs with
  | [] => false
  | (k', _) :: rest => String.eqb k' k || assoc_has rest k
  end.

(** [o[k] = v]: an existing property keeps its place, a new one goes last. *)
Fixpoint assoc_set (kvs : list (string * value)) (k : string) (v : value)
  : list (string * value) :=
  match kvs with
  | [] => [(k, v)]
  | (k', v') :: rest =>
      if String.eqb k' k then (k', v) :: rest else (k', v') :: assoc_set rest k v
  end.

Fixpoint assoc_delete (kvs : list (string * value)) (k : string)
  : list (string * value) :=
  match kvs with
  | [] => []
  | (k', v') :: rest =>
      if String.eqb k' k then rest else (k', v') :: assoc_delete rest k
  end.

(** [o[k]] *)
Definition get_prop (o : value) (k : string) : value :=
  match o with
  | VObj kvs => assoc_get kvs k
  | _ => VUndef
  end.

Definition has_prop (o : value) (k : string) : bool :=
  match o with
  | VObj kvs => assoc_has kvs k
  | _ => false
  end.

Definition set_prop (o : value) (k : string) (v : value) : value :=
  match o with
  | VObj kvs => VObj (assoc_set kvs k v)
  | _ => o
  end.

Definition delete_prop (o : value) (k : string) : value :=
  match o with
  | VObj kvs => VObj (assoc_delete kvs k)
  | _ => o
  end.

Definition keys (o : value) : list string :=
  match o with
  | VObj kvs => List.map fst kvs
  | _ => []
  end.

(** *** Places inside a value *)

Inductive key : Type :=
| KProp (k : string)
| KIdx (i : nat).

Definition get_key (v : value) (k : key) : value :=
  match k with
  | KProp s => get_prop v s
  | KIdx i => match v with
              | VArr xs => nth i xs VUndef
              | _ => VUndef
              end
  end.

Definition set_key (v : value) (k : key) (x : value) : value :=
  match k with
  | KProp s => set_prop v s x
  | KIdx i => match v with
              | VArr xs => VArr (<[i := x]> xs)
              | _ => v
              end
  end.

Fixpoint read_at (v : value) (p : list key) : value :=
  match p with
  | [] => v
  | k :: p' => read_at (get_key v k) p'
  end.

Fixpoint write_at (v : value) (p : list key) (x : value) : value :=
  match p with
  | [] => x
  | k :: p' => set_key v k (write_at (get_key v k) p' x)
  end.

(** [delete o[k]] for the object at place [p]. *)
Definition delete_at (v : value) (p : list key) (k : string) : value :=
  write_at v p (delete_prop (read_at v p) k).

(** [mout.lang.deepClone]: values carry no identity, a copy is the value;
    the fresh object is the new store cell it is written to. *)
Definition deepClone (v : value) : value := v.

(* ===================================================================== *)
(** ** Strings *)
(* ===================================================================== *)

Definition nl : ascii := ascii_of_nat 10.
Definition cr : ascii := ascii_of_nat 13.
Definition esc : ascii := ascii_of_nat 27.

Definition newline : string := String nl "".

(** [mout.string.repeat] *)
Fixpoint repeat_string (s : string) (n : nat) : string :=
  match n with
  | O => ""
  | S n' => s +:+ repeat_string s n'
  end.

Fixpoint last_char (s : string) : option ascii :=
  match s with
  | "" => None
  | String c "" => Some c
  | String _ rest => last_char rest
  end.

(** [mout.string.endsWith(data, '\n')] *)
Definition ends_with_newline (data : string) : bool :=
  match last_char data with
  | Some c => Ascii.eqb c nl
  | None => false
  end.

(** The characters the regular expression's [.] does not match (of those a
    one-byte character can be). *)
Definition is_line_terminator (c : ascii) : bool :=
  Ascii.eqb c nl || Ascii.eqb c cr.

Definition is_digit (c : ascii) : bool :=
  let n := nat_of_ascii c in (48 <=? n)%nat && (n <=? 57)%nat.

(** [str.replace(/(\r?)\n(.+?)/gm, '$1\n' + padding + '$2')]: the padding
    goes after every newline that is followed by a character of the same
    line. *)
Fixpoint indent_with (padding : string) (str : string) : string :=
  match str with
  | "" => ""
  | String c rest =>
      if Ascii.eqb c nl then
        match rest with
        | "" => String c ""
        | String c2 _ =>
            if is_line_terminator c2
            then String c (indent_with padding rest)
            else String c (padding +:+ indent_with padding rest)
        end
      else String c (indent_with padding rest)
  end.

(** Where the scan of [/\x1B\[\d+m/] stands: the characters held back are
    given out again when the match fails. *)
Inductive color_scan : Type :=
| ScanText
| ScanEsc
| ScanBracket
| ScanDigits (held : string).

Definition flush_scan (sc : color_scan) : string :=
  match sc with
  | ScanText => ""
  | ScanEsc => String esc ""
  | ScanBracket => String esc "["
  | ScanDigits held => String esc "[" +:+ held
  end.

Fixpoint remove_colors_from (sc : color_scan) (str : string) : string :=
  match str with
  | "" => flush_scan sc
  | String c rest =>
      let restart :=
        if Ascii.eqb c esc then remove_colors_from ScanEsc rest
        else String c (remove_colors_from ScanText rest) in
      match sc with
      | ScanText => restart
      | ScanEsc =>
          if Ascii.eqb c "["%char then remove_colors_from ScanBracket rest
          else flush_scan sc +:+ restart
      | ScanBracket =>
          if is_digit c then remove_colors_from (ScanDigits (String c "")) rest
          else flush_scan sc +:+ restart
      | ScanDigits held =>
          if is_digit c then remove_colors_from (ScanDigits (held +:+ String c "")) rest
          else if Ascii.eqb c "m"%char then remove_colors_from ScanText rest
          else flush_scan sc +:+ restart
      end
  end.

(** [Logger.removeColors]: [str.replace(/\x1B\[\d+m/g, '')] *)
Definition removeColors (str : string) : string :=
  remove_colors_from ScanText str.

(* ===================================================================== *)
(** ** Collaborators outside the two files *)
(* ===================================================================== *)

(** The options object handed to the interpolator. *)
Record InterpOptions : Type := {
  purge : bool;
  skipUnescape : bool
}.

Definition no_options : InterpOptions := {| purge := false; skipUnescape := false |}.
Definition skip_unescape : InterpOptions := {| purge := false; skipUnescape := true |}.
Definition with_purge : InterpOptions := {| purge := true; skipUnescape := false |}.

(** What the grunt runner's emitter sends for one task: its [data] chunks,
    then either [error] or [end]. *)
Record GruntOutcome : Type := {
  g_data : list string;
  g_error : option jserror
}.

(* ===================================================================== *)
(** ** lib/Logger.js *)
(* ===================================================================== *)

Module Logger.

(** The options the caller may give; an absent one is [None]. *)
Record Options : Type := {
  o_verbosity : option Z;
  o_debug : option bool;
  o_color : option bool
}.

Definition default_options : Options :=
  {| o_verbosity := None; o_debug := None; o_color := None |}.

(** The logger object.  [_stream] holds the chunks of the ['data'] events
    emitted so far, oldest first. *)
Record t : Type := mk {
  verbosity : Z;
  debug_on : bool;
  color : bool;
  _stream : list string;
  _ln : bool;
  _depth : Z;
  _padding : string;
  _muted : bool
}.

(** [function Logger(options)]: the defaults are [verbosity: -1],
    [debug: false], [color: true]. *)
Definition new (options : Options) : t :=
  {| verbosity := default (-1) (o_verbosity options);
     debug_on := default false (o_debug options);
     color := default true (o_color options);
     _stream := [];
     _ln := true;
     _depth := 1;
     _padding := "";
     _muted := false |}.

Definition getStream (lg : t) : list string := _stream lg.

Definition setDepth (depth : Z) (lg : t) : t :=
  let d := if depth <? 1 then 1 else depth in
  {| verbosity := verbosity lg; debug_on := debug_on lg; color := color lg;
     _stream := _stream lg; _ln := _ln lg;
     _depth := d;
     _padding := if 1 <? d then repeat_string "  " (Z.to_nat (d - 1)) else "";
     _muted := _muted lg |}.

Definition set_muted (b : bool) (lg : t) : t :=
  {| verbosity := verbosity lg; debug_on := debug_on lg; color := color lg;
     _stream := _stream lg; _ln := _ln lg; _depth := _depth lg;
     _padding := _padding lg; _muted := b |}.

Definition mute (lg : t) : t := set_muted true lg.
Definition unmute (lg : t) : t := set_muted false lg.
Definition isMuted (lg : t) : bool := _muted lg.

(** [this._stream.emit('data', chunk)], with the new value of [_ln]. *)
Definition emit (chunk : string) (ln : bool) (lg : t) : t :=
  {| verbosity := verbosity lg; debug_on := debug_on lg; color := color lg;
     _stream := _stream lg ++ [chunk]; _ln := ln; _depth := _depth lg;
     _padding := _padding lg; _muted := _muted lg |}.

Definition _indent (str : string) (lg : t) : string :=
  indent_with (_padding lg) str.

Definition _checkLevel (debug : bool) (lg : t) : bool :=
  if debug && negb (debug_on lg) then false
  else (verbosity lg =? -1)%Z || (_depth lg <=? verbosity lg)%Z.

(** [mout.lang.toArray(arguments)], each followed by a blank, the last
    blank cut off. *)
Definition _arr2str (args : list string) : string :=
  join_with " " args.

Definition uncolor (str : string) : string := removeColors str.

(** [colors.setTheme]: the style behind each [automaton_*] property. *)
Definition theme (type : string) : string :=
  if String.eqb type "debug" then "white"
  else if String.eqb type "info" then "cyan"
  else if String.eqb type "warn" then "yellow"
  else if String.eqb type "error" then "red"
  else "green".

Section Writes.

(** The [colors] package: a style's name and a text give the styled text. *)
Variable colors : string -> string -> string.

(** The chunk as it leaves: without colors, or in the type's style. *)
Definition paint (data : string) (type : option string) (lg : t) : string :=
  if negb (color lg) then uncolor data
  else match type with
       | Some ty => colors (theme ty) data
       | None => data
       end.

Definition _log (data : string) (type : option string) (debug : bool) (lg : t) : t :=
  if negb (_muted lg) && _checkLevel debug lg then
    let data1 := if _ln lg then _padding lg +:+ data else data in
    let ln1 := if _ln lg then false else _ln lg in
    let ln2 := if ends_with_newline data1 then true else ln1 in
    let data2 := _indent data1 lg in
    emit (paint data2 type lg) ln2 lg
  else lg.

Definition _logln (data : string) (type : option string) (debug : bool) (lg : t) : t :=
  if negb (_muted lg) && _checkLevel debug lg then
    let data1 := _padding lg +:+ _indent data lg in
    emit (paint data1 type lg +:+ newline) true lg
  else lg.

Definition write (args : list string) := _log (_arr2str args) None false.
Definition writeln (args : list string) := _logln (_arr2str args) None false.
Definition info (args : list string) := _log (_arr2str args) (Some "info") false.
Definition infoln (args : list string) := _logln (_arr2str args) (Some "info") false.
Definition warn (args : list string) := _log (_arr2str args) (Some "warn") false.
Definition warnln (args : list string) := _logln (_arr2str args) (Some "warn") false.
Definition error (args : list string) := _log (_arr2str args) (Some "error") false.
Definition errorln (args : list string) := _logln (_arr2str args) (Some "error") false.
Definition success (args : list string) := _log (_arr2str args) (Some "success") false.
Definition successln (args : list string) := _logln (_arr2str args) (Some "success") false.
Definition debug (args : list string) := _log (_arr2str args) (Some "debug") true.
Definition debugln (args : list string) := _logln (_arr2str args) (Some "debug") true.

End Writes.

(** The leveled writes by name, as user code calls them on [context.log]. *)
Inductive method : Type :=
| Mwrite | Mwriteln | Minfo | Minfoln | Mwarn | Mwarnln
| Merror | Merrorln | Msuccess | Msuccessln | Mdebug | Mdebugln.

Definition is_debug (m : method) : bool :=
  match m with
  | Mdebug | Mdebugln => true
  | _ => false
  end.

Definition call (colors : string -> string -> string)
    (m : method) (args : list string) (lg : t) : t :=
  match m with
  | Mwrite => write colors args lg
  | Mwriteln => writeln colors args lg
  | Minfo => info colors args lg
  | Minfoln => infoln colors args lg
  | Mwarn => warn colors args lg
  | Mwarnln => warnln colors args lg
  | Merror => error colors args lg
  | Merrorln => errorln colors args lg
  | Msuccess => success colors args lg
  | Msuccessln => successln colors args lg
  | Mdebug => debug colors args lg
  | Mdebugln => debugln colors args lg
  end.

End Logger.

(* ===================================================================== *)
(** ** Task definitions *)
(* ===================================================================== *)

(** What user code (a setup or teardown hook, an inline function) does when
    it is called with an options object: the object as it leaves it, the
    writes it makes on [context.log], and the error it gives its [next].
    User code is taken to call [next] once and not to throw. *)
Record Effect : Type := {
  eff_options : value;
  eff_log : list (Logger.method * list string);
  eff_err : option jserror
}.

Definition hook : Type := value -> Effect.

(** A description: absent, [null], a string, or a function of the parent's
    options. *)
Inductive descr : Type :=
| DescUndef
| DescNull
| DescStr (s : string)
| DescFn (f : value -> value).

(** An [on] or [mute] modifier: a function of the parent's options, or any
    other value. *)
Inductive modifier : Type :=
| ModVal (v : value)
| ModFn (f : value -> value).

(** A [fatal] modifier: the function also gets the error. *)
Inductive fatal_modifier : Type :=
| FatalVal (v : value)
| FatalFn (f : jserror -> value -> value).

(** What a schema declares as the default of an option: a primitive
    value.  The defaults loop of [_batchTask] assigns the declared default
    itself; a default that is an array or an object would so be shared by
    the task definition, by every node and by every run of the task, and
    the substitution, which rewrites arrays and objects in place, would
    rewrite it for all of them.  The model leaves such defaults out: a
    primitive value cannot be rewritten in place. *)
Inductive prim : Type :=
| PUndef
| PNull
| PBool (b : bool)
| PNum (z : Z)
| PStr (s : string).

Definition of_prim (p : prim) : value :=
  match p with
  | PUndef => VUndef
  | PNull => VNull
  | PBool b => VBool b
  | PNum z => VNum z
  | PStr s => VStr s
  end.

(** What a [task] property holds, a task object, and an entry of a [tasks]
    list.  A function carries its [name], its [length], what it does when
    run as an inline task, and what it yields when run as a builder (the
    message of the exception, or the built object).  A task object lists
    its option schema by option name, with the declared default
    ([PUndef] when there is none). *)
Inductive taskref : Type :=
| TaskId (id : string)
| TaskFn (name : string) (length : nat) (body : value -> Effect)
         (built : string + taskdef)
| TaskObj (t : taskdef)
with taskdef : Type :=
| TaskDef (id : option string) (name : option string) (description : descr)
          (options : list (string * prim))
          (setup teardown : option hook) (tasks : list entry)
with entry : Type :=
| Entry (task : taskref) (options : value) (description : descr)
        (on mute : option modifier) (fatal : option fatal_modifier)
        (grunt : value).

Definition t_id (t : taskdef) := let 'TaskDef x _ _ _ _ _ _ := t in x.
Definition t_name (t : taskdef) := let 'TaskDef _ x _ _ _ _ _ := t in x.
Definition t_description (t : taskdef) := let 'TaskDef _ _ x _ _ _ _ := t in x.
Definition t_options (t : taskdef) := let 'TaskDef _ _ _ x _ _ _ := t in x.
Definition t_setup (t : taskdef) := let 'TaskDef _ _ _ _ x _ _ := t in x.
Definition t_teardown (t : taskdef) := let 'TaskDef _ _ _ _ _ x _ := t in x.
Definition t_tasks (t : taskdef) := let 'TaskDef _ _ _ _ _ _ x := t in x.

Definition e_task (e : entry) := let 'Entry x _ _ _ _ _ _ := e in x.
Definition e_options (e : entry) := let 'Entry _ x _ _ _ _ _ := e in x.
Definition e_description (e : entry) := let 'Entry _ _ x _ _ _ _ := e in x.
Definition e_on (e : entry) := let 'Entry _ _ _ x _ _ _ := e in x.
Definition e_mute (e : entry) := let 'Entry _ _ _ _ x _ _ := e in x.
Definition e_fatal (e : entry) := let 'Entry _ _ _ _ _ x _ := e in x.
Definition e_grunt (e : entry) := let 'Entry _ _ _ _ _ _ x := e in x.

(** The address of an options object.  A node's object is addressed by the
    node's place in the tree: the root's is [[]], its [i]-th subtask's is
    [[i]], and so on; every [_createTaskDefinition] call makes one. *)
Definition ref : Type := list nat.

(** The definition object [_createTaskDefinition] makes for a node ([def] in
    the source); [context] is the one shared state. *)
Record Def : Type := {
  task : taskref;
  options : ref;
  parentOptions : ref;
  depth : Z;
  description : descr;
  on : option modifier;
  mute : option modifier;
  fatal : option fatal_modifier;
  grunt : value
}.

Definition set_task (d : Def) (t : taskref) : Def :=
  {| task := t; options := options d; parentOptions := parentOptions d;
     depth := depth d; description := description d; on := on d;
     mute := mute d; fatal := fatal d; grunt := grunt d |}.

(** The collaborators:
    - [castInter]: [lib/string/castInterpolate];
    - [colors]: the [colors] package;
    - [gruntRun]: [lib/grunt/Runner]'s [run], by what its emitter sends;
    - [validate]: [TaskBuilder.validate], by the message of the assertion
      that fails, if one does. *)
Record Collaborators : Type := {
  castInter : string -> value -> option InterpOptions -> value;
  colors : string -> string -> string;
  gruntRun : taskref -> value -> value -> GruntOutcome;
  validate : taskdef -> option string
}.

(** Protocol events of a run, for stating what was called and when: the
    node is named by its options object. *)
Inductive event : Type :=
| EvSetup (r : ref)
| EvTeardown (r : ref)
| EvPosTask (r : ref)
| EvCall (r : ref)
| EvGrunt (r : ref).

(** The state a run threads: the options objects, the context's logger, the
    nodes whose [mutedLogger] flag is set, and the events so far. *)
Record state : Type := {
  heap : gmap ref value;
  log : Logger.t;
  mutedLogger : gset ref;
  trace : list event
}.

(** A compiled batch: what [_batchGruntTask], [_batchFunctionTask] and
    [_batchTask] return, the last with the batches of its subtasks. *)
Inductive step : Type :=
| GruntStep (def : Def)
| FunctionStep (def : Def)
| TaskStep (def : Def) (batch : list step).

(** The definition a batch closes over. *)
Definition def_of (s : step) : Def :=
  match s with
  | GruntStep def | FunctionStep def | TaskStep def _ => def
  end.

(** How a call that may throw, or recurse without end, comes out. *)
Inductive outcome (A : Type) : Type :=
| Returns (a : A)
| Throws (msg : string)
| OutOfFuel.

Arguments Returns {A} a.
Arguments Throws {A} msg.
Arguments OutOfFuel {A}.

(* ===================================================================== *)
(** ** index.js: Automaton *)
(* ===================================================================== *)

Module Automaton.

(** *** What [def.task.x] reads, whatever [def.task] is *)

Definition isFunction (t : taskref) : bool :=
  match t with TaskFn _ _ _ _ => true | _ => false end.

Definition fn_length (t : taskref) : nat :=
  match t with TaskFn _ n _ _ => n | _ => 0%nat end.

Definition task_id (t : taskref) : option string :=
  match t with TaskObj d => t_id d | _ => None end.

Definition task_name (t : taskref) : option string :=
  match t with
  | TaskObj d => t_name d
  | TaskFn n _ _ _ => Some n
  | TaskId _ => None
  end.

Definition task_description (t : taskref) : descr :=
  match t with TaskObj d => t_description d | _ => DescUndef end.

(** [def.task.options]: the option names with their declared defaults. *)
Definition task_options (t : taskref) : list (string * value) :=
  match t with
  | TaskObj d => List.map (fun p => (p.1, of_prim p.2)) (t_options d)
  | _ => []
  end.

Definition task_setup (t : taskref) : option hook :=
  match t with TaskObj d => t_setup d | _ => None end.

Definition task_teardown (t : taskref) : option hook :=
  match t with TaskObj d => t_teardown d | _ => None end.

Definition is_undefined (v : value) : bool :=
  match v with VUndef => true | _ => false end.

(** *** The store of options objects *)

Definition deref (h : gmap ref value) (r : ref) : value :=
  default VUndef (h !! r).

(** A place: an options object and the keys that lead into it. *)
Definition place : Type := ref * list key.

Definition read (h : gmap ref value) (l : place) : value :=
  read_at (deref h l.1) l.2.

Definition store (h : gmap ref value) (l : place) (x : value) : gmap ref value :=
  <[l.1 := write_at (deref h l.1) l.2 x]> h.

Definition child (l : place) (k : key) : place := (l.1, l.2 ++ [k]).

Definition set_heap (st : state) (h : gmap ref value) : state :=
  {| heap := h; log := log st; mutedLogger := mutedLogger st; trace := trace st |}.

Definition set_log (st : state) (lg : Logger.t) : state :=
  {| heap := heap st; log := lg; mutedLogger := mutedLogger st; trace := trace st |}.

Definition set_mutedLogger (st : state) (m : gset ref) : state :=
  {| heap := heap st; log := log st; mutedLogger := m; trace := trace st |}.

Definition record (ev : event) (st : state) : state :=
  {| heap := heap st; log := log st; mutedLogger := mutedLogger st;
     trace := trace st ++ [ev] |}.

(** *** The registry *)

(** [getTask]: the definition, or [null]. *)
Definition getTask (tasks : gmap string taskdef) (taskId : string) : option taskdef :=
  tasks !! taskId.

Definition removeTask (id : string) (tasks : gmap string taskdef) : gmap string taskdef :=
  delete id tasks.

Definition getTasks (tasks : gmap string taskdef) : gmap string taskdef := tasks.

Definition quote : string := String "'"%char "".
Definition dquote : string := String (ascii_of_nat 34) "".

(** [_assertTaskLoaded] *)
Definition _assertTaskLoaded (tasks : gmap string taskdef) (taskId : string) : outcome unit :=
  match getTask tasks taskId with
  | Some _ => Returns tt
  | None =>
      Throws ("Could not find any task handler suitable for " +:+ quote +:+ taskId +:+ quote)
  end.

(** [Automaton.getTaskDefinition]: a function is run as a builder. *)
Definition getTaskDefinition (t : taskref) : outcome taskref :=
  match t with
  | TaskFn _ _ _ (inl msg) => Throws ("Unable to get task from builder: " +:+ msg)
  | TaskFn _ _ _ (inr d) => Returns (TaskObj d)
  | _ => Returns t
  end.

(** [_createTaskDefinition(task, parentTaskDef)]; [r] is the address of
    the options object it makes (the clone, or [{}]). *)
Definition _createTaskDefinition (r : ref) (e : entry) (parentTaskDef : option Def)
    (h : gmap ref value) : Def * gmap ref value :=
  let opts := if truthy (e_options e) then deepClone (e_options e) else VObj [] in
  let def := {| task := e_task e; options := r; parentOptions := r; depth := 1;
                description := e_description e; on := e_on e; mute := e_mute e;
                fatal := e_fatal e; grunt := e_grunt e |} in
  let def' :=
    match parentTaskDef with
    | Some p =>
        {| task := task def; options := options def;
           parentOptions := options p;
           depth := depth def + depth p;
           description := description def; on := on def; mute := mute def;
           fatal := fatal def; grunt := grunt def |}
    | None => def
    end in
  (def', <[r := opts]> h).

(** The three ways an entry of [tasks] is batched. *)
Inductive kind : Type := KGrunt | KFunction | KTask.

(** The test [_batchTask] makes on a subtask's definition. *)
Definition classify (subtaskDef : Def) : kind :=
  if truthy (grunt subtaskDef) then KGrunt
  else if isFunction (task subtaskDef) && negb (fn_length (task subtaskDef) =? 1)%nat
       then KFunction
       else KTask.

(** The defaults loop of [_batchTask]: an option the node's object leaves
    undefined gets its declared default, if there is one.  The loop
    assigns the default itself; the defaults it is run on are primitive
    values ([task_options]), so the value written here is that default. *)
Fixpoint fill_defaults (schema : list (string * value)) (opts : value) : value :=
  match schema with
  | [] => opts
  | (name, dflt) :: rest =>
      if is_undefined (get_prop opts name) && negb (is_undefined dflt)
      then fill_defaults rest (set_prop opts name dflt)
      else fill_defaults rest opts
  end.

Section Engine.

Variable ext : Collaborators.

(** Resolving [def.task] at the head of [_batchTask]. *)
Definition resolve (tasks : gmap string taskdef) (def : Def) : outcome taskref :=
  match task def with
  | TaskId id =>
      match _assertTaskLoaded tasks id with
      | Returns _ =>
          match getTask tasks id with
          | Some d => Returns (TaskObj d)
          | None => Returns (TaskId id)
          end
      | Throws msg => Throws msg
      | OutOfFuel => OutOfFuel
      end
  | t =>
      match (if isFunction t then getTaskDefinition t else Returns t) with
      | Returns t' =>
          if (depth def =? 1)%Z then
            match t' with
            | TaskObj d =>
                match validate ext d with
                | Some msg => Throws msg
                | None => Returns t'
                end
            | _ => Returns t'
            end
          else Returns t'
      | other => other
      end
  end.

(** The [def.task.tasks.forEach] of [_batchTask]: each subtask gets its
    definition and is batched in one of the three ways; [batchTask] is
    [_batchTask] itself. *)
Definition forEach_subtask
    (batchTask : Def -> gmap ref value -> outcome (step * gmap ref value))
    (def : Def)
  : list entry -> nat -> gmap ref value -> outcome (list step * gmap ref value) :=
  fix forEach (subtasks : list entry) (i : nat) (h : gmap ref value) :=
    match subtasks with
    | [] => Returns ([], h)
    | subtask :: rest =>
        let '(subtaskDef, h1) :=
          _createTaskDefinition (options def ++ [i]) subtask (Some def) h in
        let pushed :=
          match classify subtaskDef with
          | KGrunt => Returns (GruntStep subtaskDef, h1)
          | KFunction => Returns (FunctionStep subtaskDef, h1)
          | KTask => batchTask subtaskDef h1
          end in
        match pushed with
        | Returns (s, h2) =>
            match forEach rest (S i) h2 with
            | Returns (batch, h3) => Returns (s :: batch, h3)
            | Throws msg => Throws msg
            | OutOfFuel => OutOfFuel
            end
        | Throws msg => Throws msg
        | OutOfFuel => OutOfFuel
        end
    end.

(** [_batchTask(def)], up to the closure it returns: the resolved
    definition, the defaults, and the batches of the subtasks in order.
    [fuel] bounds the nesting of tasks (a registry may name a task inside
    itself). *)
Fixpoint _batchTask (fuel : nat) (tasks : gmap string taskdef) (def : Def)
    (h : gmap ref value) : outcome (step * gmap ref value) :=
  match fuel with
  | O => OutOfFuel
  | S fuel' =>
      match resolve tasks def with
      | Returns t =>
          let def := set_task def t in
          let h :=
            <[options def := fill_defaults (task_options t) (deref h (options def))]> h in
          match t with
          | TaskObj d =>
              match forEach_subtask (_batchTask fuel' tasks) def (t_tasks d) 0%nat h with
              | Returns (batch, h') => Returns (TaskStep def batch, h')
              | Throws msg => Throws msg
              | OutOfFuel => OutOfFuel
              end
          | _ => Throws "def.task.tasks is undefined"
          end
      | Throws msg => Throws msg
      | OutOfFuel => OutOfFuel
      end
  end.

(** *** Placeholders *)

Definition _replacePlaceholders (str : string) (values : value)
    (options : option InterpOptions) : value :=
  castInter ext str values options.

(** [_replaceOptions(target, values, options)].  The target is a place in
    the store and is rewritten there; [values] is read from the store at
    each use, so that a target that is also the values object (the root's)
    sees its own rewriting.  An object's keys are those it had when the
    loop began.  The result is the heap, the value returned, and whether
    the recursion ran to its end: [fuel] bounds its nesting, and a target
    met with no fuel left stays as it is. *)
Fixpoint _replaceOptions (fuel : nat) (target : place) (values : ref)
    (options : option InterpOptions) (h : gmap ref value)
  : gmap ref value * value * bool :=
  match fuel with
  | O => (h, read h target, false)
  | S fuel' =>
      match read h target with
      | VObj kvs =>
          let '(h', whole) :=
            fold_left
              (fun (acc : gmap ref value * bool) k =>
                 let '(h, whole) := acc in
                 if has_prop (read h target) k then
                   let newK := to_string (_replacePlaceholders k (deref h values) options) in
                   let '(h1, v, whole1) :=
                     _replaceOptions fuel' (child target (KProp k)) values options h in
                   let h2 := store h1 (child target (KProp newK)) v in
                   (if String.eqb newK k then h2
                    else store h2 target (delete_prop (read h2 target) k),
                    whole && whole1)
                 else (h, whole))
              (List.map fst kvs) (h, true) in
          (h', read h' target, whole)
      | VArr xs =>
          let '(h', whole) :=
            fold_left
              (fun (acc : gmap ref value * bool) k =>
                 let '(h, whole) := acc in
                 let '(h1, v, whole1) :=
                   _replaceOptions fuel' (child target (KIdx k)) values options h in
                 (store h1 (child target (KIdx k)) v, whole && whole1))
              (rev (seq 0 (List.length xs))) (h, true) in
          (h', read h' target, whole)
      | VStr s => (h, _replacePlaceholders s (deref h values) options, true)
      | v => (h, v, true)
      end
  end.

(** The bound given to [_replaceOptions] by the calls below. *)
Variable nesting : nat.

Definition replace_node_options (def : Def) (opts : option InterpOptions)
    (st : state) : state :=
  set_heap st
    (_replaceOptions nesting (options def, []) (parentOptions def) opts (heap st)).1.1.

(** *** The modifiers *)

Definition _isTaskFatal (def : Def) (err : jserror) (h : gmap ref value) : bool :=
  match fatal def with
  | Some (FatalVal (VStr s)) =>
      truthy (_replacePlaceholders s (deref h (parentOptions def)) (Some with_purge))
  | Some (FatalFn f) => truthy (f err (deref h (parentOptions def)))
  | Some (FatalVal v) => truthy v
  | None => true
  end.

Definition _isTaskEnabled (def : Def) (h : gmap ref value) : bool :=
  match on def with
  | Some (ModVal (VStr s)) =>
      truthy (_replacePlaceholders s (deref h (parentOptions def)) (Some with_purge))
  | Some (ModFn f) => truthy (f (deref h (parentOptions def)))
  | Some (ModVal v) => truthy v
  | None => true
  end.

Definition _isTaskMuted (def : Def) (h : gmap ref value) : bool :=
  match mute def with
  | Some (ModVal (VStr s)) =>
      truthy (_replacePlaceholders s (deref h (parentOptions def)) (Some with_purge))
  | Some (ModFn f) => truthy (f (deref h (parentOptions def)))
  | Some (ModVal v) => truthy v
  | None => false
  end.

(** *** Validation *)

Definition missing_option_message (name : string) (id : option string) : string :=
  "Missing option " +:+ quote +:+ name +:+ quote +:+ " in " +:+ quote
    +:+ default "undefined" id +:+ quote +:+ " task".

(** The loop of [_validateTaskOptions] over the schema. *)
Fixpoint first_missing (schema : list (string * value)) (opts : value) : option string :=
  match schema with
  | [] => None
  | (name, _) :: rest =>
      if is_undefined (get_prop opts name) then Some name
      else first_missing rest opts
  end.

Definition _validateTaskOptions (t : taskref) (opts : value) : option jserror :=
  match first_missing (task_options t) opts with
  | Some name => Some (Error (missing_option_message name (task_id t)))
  | None => None
  end.

(** *** Before and after a task *)

(** [a || b] on an id or a name. *)
Definition or_name (a b : option string) : option string :=
  match a with
  | Some s => if String.eqb s "" then b else Some s
  | None => b
  end.

(** [def.task.description || def.task.name] *)
Definition description_or_name (t : taskref) : descr :=
  match task_description t with
  | DescFn f => DescFn f
  | DescStr s =>
      if String.eqb s "" then
        match task_name t with Some n => DescStr n | None => DescUndef end
      else DescStr s
  | _ => match task_name t with Some n => DescStr n | None => DescUndef end
  end.

(** The description [_onBeforeTask] reports, or [None] when it reports
    nothing. *)
Definition report_of (def : Def) (h : gmap ref value) : option string :=
  let inline := isFunction (task def) || truthy (grunt def) in
  let desc :=
    match description def with
    | DescUndef => description_or_name (task def)
    | d => d
    end in
  let desc :=
    match desc with
    | DescFn f => DescStr (to_string (f (deref h (parentOptions def))))
    | d => d
    end in
  match desc with
  | DescNull => None
  | DescStr s =>
      if String.eqb s "" then (if inline then None else Some "??") else Some s
  | _ => if inline then None else Some "??"
  end.

Definition _onBeforeTask (def : Def) (st : state) : state :=
  let logger := Logger.setDepth (depth def) (log st) in
  let logger :=
    match report_of def (heap st) with
    | Some desc =>
        let desc' :=
          _replacePlaceholders desc (deref (heap st) (parentOptions def)) (Some with_purge) in
        Logger.infoln (colors ext) ["> " +:+ to_string desc'] logger
    | None => logger
    end in
  if negb (Logger.isMuted logger) && _isTaskMuted def (heap st)
  then set_mutedLogger (set_log st (Logger.mute logger)) ({[options def]} ∪ mutedLogger st)
  else set_log st logger.

Definition silently_failed (def : Def) (err : jserror) : string :=
  let name := default "unknown" (or_name (or_name (task_id (task def)) (task_name (task def)))
                                         (Some "unknown")) in
  "Task " +:+ dquote +:+ name +:+ dquote +:+ " silently failed: " +:+ message err.

Definition _onAfterTask (def : Def) (err : option jserror) (st : state)
    : state * option jserror :=
  let '(st1, err1) :=
    match err with
    | Some e =>
        if negb (_isTaskFatal def e (heap st))
        then (set_log st (Logger.debugln (colors ext) [silently_failed def e] (log st)), None)
        else (st, Some e)
    | None => (st, None)
    end in
  if decide (options def ∈ mutedLogger st1)
  then (set_mutedLogger (set_log st1 (Logger.unmute (log st1)))
          (mutedLogger st1 ∖ {[options def]}), err1)
  else (st1, err1).

(** *** Running a batch *)

(** Calling user code with the options object at [r]. *)
Definition call_user (f : value -> Effect) (r : ref) (st : state)
    : state * option jserror :=
  let eff := f (deref (heap st) r) in
  let st1 := set_heap st (<[r := eff_options eff]> (heap st)) in
  let lg := fold_left (fun lg c => Logger.call (colors ext) c.1 c.2 lg) (eff_log eff) (log st1) in
  (set_log st1 lg, eff_err eff).

(** The [// run setup] block of the pre-task closure: the error [next]
    is called with. *)
Definition run_setup (def : Def) (st : state) : state * option jserror :=
  match task_setup (task def) with
  | Some setup => call_user setup (options def) (record (EvSetup (options def)) st)
  | None => (st, None)
  end.

(** The pre-task closure of [_batchTask]: the error and the [disabled]
    flag it gives its continuation. *)
Definition preTaskFunc (def : Def) (st : state) : state * (option jserror * bool) :=
  let st1 := replace_node_options def (Some skip_unescape) st in
  if negb (_isTaskEnabled def (heap st1)) then (st1, (None, true))
  else
    let st2 := _onBeforeTask def st1 in
    let '(st3, err) := run_setup def st2 in
    match err with
    | Some e => (st3, (Some e, false))
    | None =>
        let st4 := replace_node_options def None st3 in
        (st4, (_validateTaskOptions (task def) (deref (heap st4) (options def)), false))
    end.

(** The post-task closure of [_batchTask]. *)
Definition posTaskFunc (def : Def) (err : option jserror) (st : state)
    : state * option jserror :=
  let '(st1, err1) := _onAfterTask def err (record (EvPosTask (options def)) st) in
  match task_teardown (task def) with
  | Some teardown =>
      let '(st2, teardownErr) :=
        call_user teardown (options def) (record (EvTeardown (options def)) st1) in
      let '(st3, teardownErr') := _onAfterTask def teardownErr st2 in
      (st3, or_else err1 teardownErr')
  | None => (st1, err1)
  end.

(** [async.series]: one after the other, stopping at the first error. *)
Definition series (run1 : step -> state -> state * option jserror)
  : list step -> state -> state * option jserror :=
  fix go (batch : list step) (st : state) :=
    match batch with
    | [] => (st, None)
    | s :: rest =>
        let '(st1, err) := run1 s st in
        match err with
        | Some e => (st1, Some e)
        | None => go rest st1
        end
    end.

(** [_batchFunctionTask(def)], the closure it returns being run. *)
Definition _batchFunctionTask (def : Def) (st : state) : state * option jserror :=
  let st1 := replace_node_options def None st in
  if negb (_isTaskEnabled def (heap st1)) then (st1, None)
  else
    let st2 := _onBeforeTask def st1 in
    match task def with
    | TaskFn _ _ body _ =>
        let '(st3, err) :=
          call_user body (parentOptions def) (record (EvCall (options def)) st2) in
        _onAfterTask def err st3
    | _ => (st2, Some (Error "def.task.call is not a function"))
    end.

(** [_batchGruntTask(def)], the closure it returns being run. *)
Definition _batchGruntTask (def : Def) (st : state) : state * option jserror :=
  let st1 := replace_node_options def None st in
  if negb (_isTaskEnabled def (heap st1)) then (st1, None)
  else
    let st2 := record (EvGrunt (options def)) (_onBeforeTask def st1) in
    let config := if isObject (grunt def) then grunt def else VObj [] in
    let out := gruntRun ext (task def) (deref (heap st2) (options def)) config in
    let st3 :=
      set_log st2
        (fold_left (fun lg chunk => Logger.write (colors ext) [chunk] lg) (g_data out) (log st2)) in
    match g_error out with
    | Some err => _onAfterTask def (Some err) st3
    | None => (st3, None)
    end.

(** Running a batch, that is the closure [_batchTask] returns or one of
    the two above: the state when its [next] is called, and the error
    [next] is called with. *)
Fixpoint exec (s : step) (st : state) : state * option jserror :=
  match s with
  | GruntStep def => _batchGruntTask def st
  | FunctionStep def => _batchFunctionTask def st
  | TaskStep def batch =>
      let '(st1, (err, disabled)) := preTaskFunc def st in
      if disabled then (st1, None)
      else
        match err with
        | Some e => posTaskFunc def (Some e) st1
        | None =>
            let '(st2, err2) := series exec batch st1 in
            posTaskFunc def err2 st2
        end
  end.

(** *** run *)

(** What a run leaves: the final state (its logger's stream is the stream
    [run] returned) and the error the callback got. *)
Record Run : Type := {
  final : state;
  callback : option jserror
}.

(** The [handle] closure of [run]. *)
Definition handle (err : option jserror) (st : state) : Run :=
  match err with
  | Some e =>
      {| final := set_log st (Logger.errorln (colors ext) [message e] (log st));
         callback := Some (Error (removeColors (message e))) |}
  | None => {| final := st; callback := None |}
  end.

(** [run(task, options, callback)] on the automaton with the given
    constructor options and loaded tasks. *)
Definition run (fuel : nat) (logger_options : Logger.Options)
    (tasks : gmap string taskdef) (t : taskref) (opts : value) : outcome Run :=
  let '(def, h) :=
    _createTaskDefinition [] (Entry t opts DescUndef None None None VUndef) None ∅ in
  match _batchTask fuel tasks def h with
  | Returns (batch, h') =>
      let st := {| heap := h'; log := Logger.new logger_options;
                   mutedLogger := ∅; trace := [] |} in
      let '(st', err) := exec batch st in
      Returns (handle err st')
  | Throws msg => Throws msg
  | OutOfFuel => OutOfFuel
  end.

End Engine.

End Automaton.

(* ===================================================================== *)
(** ** index.js: adding and loading tasks *)
(* ===================================================================== *)

(** The registry [_tasks] is the map of [Automaton.getTask]: an id is
    taken not to name a property the array has of itself or inherits
    ([length], [push], ...). *)

Section Registry.

Variable ext : Collaborators.

(** [TaskBuilder.validate] on a task given as a string: the message of the
    assertion that fails, if one does. *)
Variable validate_id : string -> option string.

Definition no_id : string := "Can only add tasks with an id".

(** The head of [addTask]: the definition is got (what comes back is
    never a function), validated, and must have an id. *)
Definition checked_task (t : taskref) : outcome (string * taskdef) :=
  match Automaton.getTaskDefinition t with
  | Returns (TaskObj d) =>
      match validate ext d with
      | Some msg => Throws msg
      | None =>
          match t_id d with
          | Some id => if String.eqb id "" then Throws no_id else Returns (id, d)
          | None => Throws no_id
          end
      end
  | Returns (TaskId s) => Throws (default no_id (validate_id s))
  | Returns (TaskFn _ _ _ _) => Throws no_id
  | Throws msg => Throws msg
  | OutOfFuel => OutOfFuel
  end.

(** [addTask(task)] *)
Definition addTask (t : taskref) (tasks : gmap string taskdef)
  : outcome (gmap string taskdef) :=
  match checked_task t with
  | Returns (id, d) => Returns (<[id := d]> tasks)
  | Throws msg => Throws msg
  | OutOfFuel => OutOfFuel
  end.

Definition unable_to_add (file msg : string) : jserror :=
  Error ("Unable to add task " +:+ Automaton.dquote +:+ file +:+ Automaton.dquote
           +:+ ": " +:+ msg).

(** The body of the [forEach] of [loadTasks]: a file comes with what
    [require] gives for it, the module or the message of what it throws. *)
Definition load_file (acc : gmap string taskdef * list jserror)
    (file : string * (string + taskref)) : gmap string taskdef * list jserror :=
  let added :=
    match file.2 with
    | inl msg => Throws msg
    | inr t => addTask t acc.1
    end in
  match added with
  | Returns tasks' => (tasks', acc.2)
  | Throws msg => (acc.1, acc.2 ++ [unable_to_add file.1 msg])
  | OutOfFuel => acc
  end.

(** [loadTasks(folder, pattern)] from the files [glob.sync] found on; the
    result is the registry and the errors returned. *)
Definition loadTasks (filenames : list (string * (string + taskref)))
    (tasks : gmap string taskdef) : gmap string taskdef * list jserror :=
  fold_left load_file filenames (tasks, []).

End Registry.

(* ===================================================================== *)
(** ** A concrete set of collaborators *)
(* ===================================================================== *)

(** The interpolator is not among the sources, and the specification
    leaves the template syntax to it.  The concrete one below writes a
    placeholder [{{name}}] and an escaped one [\{{name}}]. *)
Definition is_name_char (c : ascii) : bool :=
  let n := nat_of_ascii c in
  is_digit c
  || ((65 <=? n)%nat && (n <=? 90)%nat)
  || ((97 <=? n)%nat && (n <=? 122)%nat)
  || Ascii.eqb c "_"%char || Ascii.eqb c "."%char || Ascii.eqb c "-"%char.

(** What follows when the string begins with [{{]. *)
Definition after_open (s : string) : option string :=
  match s with
  | String c1 (String c2 rest) =>
      if Ascii.eqb c1 "{"%char && Ascii.eqb c2 "{"%char then Some rest else None
  | _ => None
  end.

(** The name at the head of [s] when [}}] follows it, and what follows. *)
Fixpoint read_name (s : string) : option (string * string) :=
  match s with
  | "" => None
  | String c rest =>
      if Ascii.eqb c "}"%char then
        match rest with
        | String c2 rest' => if Ascii.eqb c2 "}"%char then Some ("", rest') else None
        | "" => None
        end
      else if is_name_char c then
        match read_name rest with
        | Some (n, rest') => Some (String c n, rest')
        | None => None
        end
      else None
  end.



Definition opt_purge (o : option InterpOptions) : bool :=
  match o with Some x => purge x | None => false end.

Definition opt_skipUnescape (o : option InterpOptions) : bool :=
  match o with Some x => skipUnescape x | None => false end.

(** The text a placeholder [{{n}}] stands for. *)
Definition resolve_name (n : string) (values : value) (o : option InterpOptions) : string :=
  match get_prop values n with
  | VUndef => if opt_purge o then "" else "{{" +:+ n +:+ "}}"
  | v => to_string v
  end.

Fixpoint interpolate_from (fuel : nat) (s : string) (values : value)
    (o : option InterpOptions) : string :=
  match fuel with
  | O => s
  | S fuel' =>
      match s with
      | "" => ""
      | String c rest =>
          match (if Ascii.eqb c "\"%char then after_open rest else None) with
          | Some rest' =>
              (if opt_skipUnescape o then "\{{" else "{{")
                +:+ interpolate_from fuel' rest' values o
          | None =>
              match after_open s with
              | Some body =>
                  match read_name body with
                  | Some (n, rest') =>
                      if String.eqb n "" then "{{}}" +:+ interpolate_from fuel' rest' values o
                      else resolve_name n values o +:+ interpolate_from fuel' rest' values o
                  | None => "{{" +:+ interpolate_from fuel' body values o
                  end
              | None => String c (interpolate_from fuel' rest values o)
              end
          end
      end
  end.

(** Modelled from the spec: the interpolator ([lib/string/castInterpolate]
    is not among the sources).  Placeholders in a string are resolved
    against the scope; a string that is one placeholder resolves to the
    value itself, not its text; with [purge] an unresolved placeholder
    becomes empty instead of staying literal; with [skipUnescape] an
    escaped placeholder is left for a later pass. *)
Definition simpleInterpolate (s : string) (values : value)
    (o : option InterpOptions) : value :=
  match after_open s with
  | Some body =>
      match read_name body with
      | Some (n, "") =>
          if String.eqb n "" then VStr s
          else match get_prop values n with
               | VUndef => VStr (if opt_purge o then "" else s)
               | v => v
               end
      | _ => VStr (interpolate_from (String.length s) s values o)
      end
  | None => VStr (interpolate_from (String.length s) s values o)
  end.

(** Styles as ANSI escape codes. *)
Definition ansi (style text : string) : string :=
  let code :=
    if String.eqb style "white" then "37"
    else if String.eqb style "cyan" then "36"
    else if String.eqb style "yellow" then "33"
    else if String.eqb style "red" then "31"
    else "32" in
  String esc ("[" +:+ code +:+ "m") +:+ text +:+ String esc "[39m".

(** A grunt runner whose every task ends well, after one chunk of output. *)
Definition gruntOk (t : taskref) (opts config : value) : GruntOutcome :=
  {| g_data := ["Done."]; g_error := None |}.

Definition sample : Collaborators :=
  {| castInter := simpleInterpolate;
     colors := ansi;
     gruntRun := gruntOk;
     validate := fun _ => None |}.

(* ===================================================================== *)
(** ** The vocabulary of the statements *)
(* ===================================================================== *)

Import Automaton.

(** When a write by method [m] passes: the logger is not muted, the depth
    is within the verbosity (or the verbosity is [-1]), and a debug write
    needs the debug option. *)
Definition passes (m : Logger.method) (lg : Logger.t) : Prop :=
  Logger._muted lg = false
  /\ (Logger.verbosity lg = -1 \/ Logger._depth lg <= Logger.verbosity lg)
  /\ (Logger.is_debug m = true -> Logger.debug_on lg = true).

(** The stream of [lg'] is the stream of [lg] and one more chunk. *)
Definition emits_one (lg lg' : Logger.t) : Prop :=
  exists chunk, Logger._stream lg' = Logger._stream lg ++ [chunk].

Definition kind_of (s : step) : kind :=
  match s with
  | GruntStep _ => KGrunt
  | FunctionStep _ => KFunction
  | TaskStep _ _ => KTask
  end.

(** The test of [_batchTask] read on the entry itself. *)
Definition entry_kind (e : entry) : kind :=
  if truthy (e_grunt e) then KGrunt
  else if isFunction (e_task e) && negb (fn_length (e_task e) =? 1)%nat then KFunction
  else KTask.

(** The classification as the specification words it: a delegation marker
    gives an external-runner step, a function of exactly two parameters an
    inline-function step, anything else a nested task. *)
Definition claimed_kind (e : entry) : kind :=
  if truthy (e_grunt e) then KGrunt
  else if isFunction (e_task e) && (fn_length (e_task e) =? 2)%nat then KFunction
  else KTask.

(** The definition [run] makes for the root. *)
Definition root_entry (t : taskref) (opts : value) : entry :=
  Entry t opts DescUndef None None None VUndef.

(** The definition [_batchTask] makes for the [i]-th subtask [e] of [def]. *)
Definition subtask_def (def : Def) (i : nat) (e : entry) : Def :=
  (_createTaskDefinition (options def ++ [i]) e (Some def) ∅).1.

(** [c] is the [i]-th subtask of the node of [d]: its options object is
    its own, its [parentOptions] is the node's options object, and it is
    one level deeper. *)
Definition linked (d : Def) (i : nat) (c : step) : Prop :=
  options (def_of c) = options d ++ [i]
  /\ parentOptions (def_of c) = options d
  /\ depth (def_of c) = depth d + 1.

(** A tree in which every subtask is linked to its node, and every
    inline-function step holds a function. *)
Inductive wf_step : step -> Prop :=
| wf_grunt d : wf_step (GruntStep d)
| wf_function d : isFunction (task d) = true -> wf_step (FunctionStep d)
| wf_task d batch :
    (forall i c, batch !! i = Some c -> linked d i c /\ wf_step c) ->
    wf_step (TaskStep d batch).

Inductive child_of : step -> step -> Prop :=
| child_intro d batch c : In c batch -> child_of (TaskStep d batch) c.

(** [descendant a c]: [c] lies below [a]. *)
Inductive descendant : step -> step -> Prop :=
| descendant_child p c : child_of p c -> descendant p c
| descendant_below p m c : child_of p m -> descendant m c -> descendant p c.

(** What [_batchTask] returns for [def]: a nested-task batch on [def] with
    its task resolved, every subtask linked and of the kind of its entry. *)
Inductive batched : Def -> step -> Prop :=
| batched_intro def t d batch :
    t = TaskObj d ->
    List.length batch = List.length (t_tasks d) ->
    (forall j e c, t_tasks d !! j = Some e -> batch !! j = Some c ->
       kind_of c = entry_kind e
       /\ linked (set_task def t) j c
       /\ wf_step c) ->
    batched def (TaskStep (set_task def t) batch).

(** The options the first substitution of a batch is made with. *)
Definition first_pass (s : step) : option InterpOptions :=
  match s with
  | TaskStep _ _ => Some skip_unescape
  | _ => None
  end.

Definition ev_ref (ev : event) : ref :=
  match ev with
  | EvSetup r | EvTeardown r | EvPosTask r | EvCall r | EvGrunt r => r
  end.


(** An event of the node at [r] or of a node below it. *)
Definition below (r : ref) (ev : event) : Prop := r `prefix_of` ev_ref ev.

(** No node at [r] or below it holds the mute. *)
Definition unowned (r : ref) (st : state) : Prop :=
  forall r', r `prefix_of` r' -> r' ∉ mutedLogger st.

(** The error the fatality decision of a node leaves of [err], taken on
    the store [h]: the error itself when the decision finds it fatal,
    none otherwise. *)
Definition judged (ext : Collaborators) (def : Def) (err : option jserror)
    (h : gmap ref value) : option jserror :=
  match err with
  | Some e => if _isTaskFatal ext def e h then Some e else None
  | None => None
  end.





(** *** Texts, loggers and events *)

(** No line feed and no carriage return in the string. *)
Fixpoint no_line_break (s : string) : bool :=
  match s with
  | "" => true
  | String c rest => negb (is_line_terminator c) && no_line_break rest
  end.




(** A text with color codes: plain stretches and codes [ESC [ digits m]. *)
Inductive piece : Type :=
| Plain (text : string)
| Code (digits : string).

(** No escape character in the string. *)
Fixpoint no_escape (s : string) : bool :=
  match s with
  | "" => true
  | String c rest => negb (Ascii.eqb c esc) && no_escape rest
  end.

(** Only decimal digits in the string. *)
Fixpoint all_digits (s : string) : bool :=
  match s with
  | "" => true
  | String c rest => is_digit c && all_digits rest
  end.

(** A plain stretch has no escape character; a code has one digit or
    more. *)
Definition piece_ok (p : piece) : bool :=
  match p with
  | Plain text => no_escape text
  | Code digits => negb (String.eqb digits "") && all_digits digits
  end.

(** The text as it is written, and the text without its codes. *)
Fixpoint render (ps : list piece) : string :=
  match ps with
  | [] => ""
  | Plain text :: rest => text +:+ render rest
  | Code digits :: rest => String esc ("[" +:+ digits +:+ "m") +:+ render rest
  end.

Fixpoint plain_text (ps : list piece) : string :=
  match ps with
  | [] => ""
  | Plain text :: rest => text +:+ plain_text rest
  | Code _ :: rest => plain_text rest
  end.


(** The line methods. *)
Definition is_line (m : Logger.method) : bool :=
  match m with
  | Logger.Mwriteln | Logger.Minfoln | Logger.Mwarnln | Logger.Merrorln
  | Logger.Msuccessln | Logger.Mdebugln => true
  | _ => false
  end.

(** The options of the logger, which no write and no mute touches. *)
Definition same_options (lg lg' : Logger.t) : Prop :=
  Logger.verbosity lg' = Logger.verbosity lg
  /\ Logger.debug_on lg' = Logger.debug_on lg
  /\ Logger.color lg' = Logger.color lg.

(** [lg'] is [lg] some writes later. *)
Definition grown (lg lg' : Logger.t) : Prop :=
  same_options lg lg'
  /\ (exists chunks, Logger._stream lg' = Logger._stream lg ++ chunks)
  /\ (1 <= Logger._depth lg -> 1 <= Logger._depth lg').

(** With verbosity [0], and the depth at least [1] as [setDepth] leaves
    it, nothing gets on the stream. *)
Definition stays_silent (lg lg' : Logger.t) : Prop :=
  Logger.verbosity lg = 0 -> 1 <= Logger._depth lg ->
  Logger.verbosity lg' = 0 /\ 1 <= Logger._depth lg'
  /\ Logger._stream lg' = Logger._stream lg.

(** The depth and the padding are as they were. *)
Definition same_depth (lg lg' : Logger.t) : Prop :=
  Logger._depth lg' = Logger._depth lg /\ Logger._padding lg' = Logger._padding lg.

(** The events of a node's own hooks. *)
Definition setup_events (def : Def) : list event :=
  match task_setup (task def) with
  | Some _ => [EvSetup (options def)]
  | None => []
  end.

Definition teardown_events (def : Def) : list event :=
  match task_teardown (task def) with
  | Some _ => [EvTeardown (options def)]
  | None => []
  end.

(** The message of [_assertTaskLoaded]. *)
Definition not_loaded (id : string) : string :=
  "Could not find any task handler suitable for " +:+ quote +:+ id +:+ quote.

(* ===================================================================== *)
(** ** A sample project *)
(* ===================================================================== *)

Definition noop : value -> Effect :=
  fun o => {| eff_options := o; eff_log := []; eff_err := None |}.

Definition fails_with (msg : string) : value -> Effect :=
  fun o => {| eff_options := o; eff_log := []; eff_err := Some (Error msg) |}.

(** An inline function in the usual shape [function (opts, ctx, next)]. *)
Definition announce : taskref :=
  TaskFn "announce" 3
    (fun o => {| eff_options := o;
                 eff_log := [(Logger.Minfoln,
                              ["target"; match get_prop o "target" with
                                         | VStr s => s
                                         | _ => "?"
                                         end])];
                 eff_err := None |})
    (inl "announce is not a builder").

(** An inline function that fails. *)
Definition failing : taskref :=
  TaskFn "failing" 3 (fails_with "boom") (inl "failing is not a builder").

(** [fatal: function () { return false; }] *)
Definition never_fatal : fatal_modifier := FatalFn (fun _ _ => VBool false).

Definition entry_of (t : taskref) : entry :=
  Entry t VUndef DescUndef None None None VUndef.

(** [build]: one required option, one inline subtask. *)
Definition build : taskdef :=
  TaskDef (Some "build") (Some "build") DescUndef [("target", PUndef)] None None
    [Entry announce VUndef (DescStr "log-start") None None None VUndef].

(** [deploy]: builds, lints through grunt, then announces. *)
Definition deploy : taskdef :=
  TaskDef (Some "deploy") (Some "deploy") (DescStr "Deploy {{target}}")
    [("target", PStr "app")] (Some noop) (Some noop)
    [Entry (TaskId "build") (VObj [("target", VStr "{{target}}")]) DescUndef
       None None None VUndef;
     Entry (TaskId "jshint") VUndef DescUndef None None None (VBool true);
     entry_of announce].

Definition registry : gmap string taskdef :=
  {[ "build" := build; "deploy" := deploy ]}.

(** A three-parameter callback as the only subtask of an unnamed task. *)
Definition callback_entry : entry :=
  Entry announce VUndef (DescStr "announce") None None None VUndef.

Definition callback_holder : taskdef :=
  TaskDef None None (DescStr "holder") [] None None [callback_entry].

(** [release]: hooks, a failing subtask, then a good one. *)
Definition release : taskdef :=
  TaskDef (Some "release") (Some "release") DescUndef [] (Some noop) (Some noop)
    [entry_of failing; entry_of announce].

(** [tolerant]: as [release], the failing subtask declared not fatal. *)
Definition tolerant : taskdef :=
  TaskDef (Some "tolerant") (Some "tolerant") DescUndef [] (Some noop) (Some noop)
    [Entry failing VUndef DescUndef None None (Some never_fatal) VUndef;
     entry_of announce].

(** [flaky]: both hooks fail. *)
Definition flaky : taskdef :=
  TaskDef (Some "flaky") (Some "flaky") DescUndef []
    (Some (fails_with "setup failed")) (Some (fails_with "teardown failed")) [].





(** [check]: a muted grunt subtask, then an inline function. *)
Definition quiet_lint : taskdef :=
  TaskDef (Some "check") (Some "check") DescUndef [("target", PStr "app")] None None
   [Entry (TaskId "jshint") VUndef DescUndef None (Some (ModVal (VBool true))) None (VBool true);
    entry_of announce].

(** As [quiet_lint], the muted subtask being an inline function. *)
Definition quiet_fn : taskdef :=
  TaskDef (Some "check") (Some "check") DescUndef [("target", PStr "app")] None None
   [Entry announce VUndef DescUndef None (Some (ModVal (VBool true))) None VUndef;
    entry_of announce].



(** [fatal: '{{strict}}'] on the failing inline function. *)
Definition lenient : Def :=
  {| task := failing; options := [0%nat]; parentOptions := []; depth := 2;
     description := DescUndef; on := None; mute := None;
     fatal := Some (FatalVal (VStr "{{strict}}")); grunt := VUndef |}.

Definition debugging : Logger.Options :=
  {| Logger.o_verbosity := None; Logger.o_debug := Some true; Logger.o_color := Some false |}.

Definition plain : Logger.Options :=
  {| Logger.o_verbosity := None; Logger.o_debug := None; Logger.o_color := Some false |}.

Definition compiled (fuel : nat) (t : taskref) (opts : value)
  : outcome (step * gmap ref value) :=
  _batchTask sample fuel registry
    (_createTaskDefinition [] (root_entry t opts) None ∅).1
    (_createTaskDefinition [] (root_entry t opts) None ∅).2.

(** A root node on a task object, as [run] makes it, and a subtask node. *)
Definition root_node (t : taskdef) : Def :=
  {| task := TaskObj t; options := []; parentOptions := []; depth := 1;
     description := DescUndef; on := None; mute := None; fatal := None;
     grunt := VUndef |}.

Definition subtask_node (i : nat) (t : taskref) (on_ : option modifier)
    (fatal_ : option fatal_modifier) : Def :=
  {| task := t; options := [i]; parentOptions := []; depth := 2;
     description := DescUndef; on := on_; mute := None; fatal := fatal_;
     grunt := VUndef |}.

(** A subtask node with [mute: true]. *)
Definition muted_node (i : nat) (t : taskref) (marker : value) : Def :=
  {| task := t; options := [i]; parentOptions := []; depth := 2;
     description := DescUndef; on := None; mute := Some (ModVal (VBool true));
     fatal := None; grunt := marker |}.

Definition check_heap : gmap ref value :=
  {[ [] := VObj [("target", VStr "app")]; [0%nat] := VObj [] ]}.

(** The state at the start of a run over the given options objects. *)
Definition start (h : gmap ref value) (o : Logger.Options) : state :=
  {| heap := h; log := Logger.new o; mutedLogger := ∅; trace := [] |}.

Definition line (s : string) : string := s +:+ newline.

(** *** More of the sample project *)


(** As [indented], colors off. *)
Definition colorless : Logger.t := Logger.setDepth 2 (Logger.new plain).

Definition silent : Logger.Options :=
  {| Logger.o_verbosity := Some 0; Logger.o_debug := Some true; Logger.o_color := None |}.

(** Collaborators whose validator refuses every task. *)
Definition strict : Collaborators :=
  {| castInter := simpleInterpolate;
     colors := ansi;
     gruntRun := gruntOk;
     validate := fun _ => Some "invalid task" |}.

(** A builder that throws, and one that builds [build]. *)
Definition broken_builder : taskref :=
  TaskFn "" 1 noop (inl "boom").

Definition build_builder : taskref :=
  TaskFn "" 1 noop (inr build).

(** A task object without an id. *)
Definition anonymous : taskdef :=
  TaskDef None (Some "anonymous") DescUndef [] None None [].

(** [deploy] given inline, with a subtask that names a task not loaded. *)
Definition dangling : taskdef :=
  TaskDef (Some "dangling") (Some "dangling") DescUndef [] (Some noop) None
    [entry_of announce; entry_of (TaskId "minify")].

Definition rejects_strings (s : string) : option string :=
  Some "Expected task to be an object".

(** Only the tasks of the first level are logged. *)
Definition shallow : Logger.Options :=
  {| Logger.o_verbosity := Some 1; Logger.o_debug := None; Logger.o_color := None |}.

(** An inline function that leaves a mark in the options it is given. *)
Definition stamp : taskref :=
  TaskFn "stamp" 3
    (fun o => {| eff_options := set_prop o "stamp" (VStr "now");
                 eff_log := [];
                 eff_err := None |})
    (inl "stamp is not a builder").

(** An option schema with two defaults, and the options given. *)
Definition with_defaults : list (string * value) :=
  [("target", VStr "app"); ("mode", VUndef); ("level", VNum 1)].

Definition given : list (string * value) := [("level", VNum 3)].

(** The files of a folder, with what [require] gives for each. *)
Definition folder : list (string * (string + taskref)) :=
  [("build.js", inr (TaskObj build));
   ("notes.js", inl "Unexpected token");
   ("anonymous.js", inr (TaskObj anonymous));
   ("builder.js", inr broken_builder)].

Definition release_heap : gmap ref value :=
  {[ [] := VObj []; [0%nat] := VObj []; [1%nat] := VObj [] ]}.

Definition failing_step : step := FunctionStep (subtask_node 0 failing None None).
Definition tolerated_step : step :=
  FunctionStep (subtask_node 0 failing None (Some never_fatal)).
Definition announce_step : step := FunctionStep (subtask_node 1 announce None None).

(** A state whose logger is muted by the root. *)
Definition muted_start : state :=
  {| heap := check_heap; log := Logger.mute (Logger.new plain);
     mutedLogger := {[ [] ]}; trace := [] |}.

(* ===================================================================== *)
(** ** The Logger's leveled writes *)
(* ===================================================================== *)

Lemma write_guard_spec (dbg : bool) (lg : Logger.t) :
  negb (Logger._muted lg) && Logger._checkLevel dbg lg = true <->
  Logger._muted lg = false
  /\ (Logger.verbosity lg = -1 \/ Logger._depth lg <= Logger.verbosity lg)
  /\ (dbg = true -> Logger.debug_on lg = true).
Proof.
  unfold Logger._checkLevel.
  destruct (Logger._muted lg), dbg, (Logger.debug_on lg); simpl;
    rewrite ?orb_true_iff, ?Z.eqb_eq, ?Z.leb_le; intuition congruence.
Qed.

Lemma log_emits colors data type dbg lg :
  negb (Logger._muted lg) && Logger._checkLevel dbg lg = true ->
  emits_one lg (Logger._log colors data type dbg lg).
Proof.
  intros H. unfold Logger._log. rewrite H. eexists. reflexivity.
Qed.

Lemma logln_emits colors data type dbg lg :
  negb (Logger._muted lg) && Logger._checkLevel dbg lg = true ->
  emits_one lg (Logger._logln colors data type dbg lg).
Proof.
  intros H. unfold Logger._logln. rewrite H. eexists. reflexivity.
Qed.

Lemma log_silent colors data type dbg lg :
  negb (Logger._muted lg) && Logger._checkLevel dbg lg = false ->
  Logger._log colors data type dbg lg = lg.
Proof. intros H. unfold Logger._log. now rewrite H. Qed.

Lemma logln_silent colors data type dbg lg :
  negb (Logger._muted lg) && Logger._checkLevel dbg lg = false ->
  Logger._logln colors data type dbg lg = lg.
Proof. intros H. unfold Logger._logln. now rewrite H. Qed.

Lemma emits_one_irrefl lg : ~ emits_one lg lg.
Proof.
  intros [chunk H]. apply (f_equal (@List.length string)) in H.
  rewrite length_app in H. simpl in H. lia.
Qed.

(** Every method is [_log] or [_logln] with the debug flag of the method. *)
Lemma call_cases colors m args lg :
  exists data type,
    Logger.call colors m args lg = Logger._log colors data type (Logger.is_debug m) lg
    \/ Logger.call colors m args lg = Logger._logln colors data type (Logger.is_debug m) lg.
Proof.
  destruct m; simpl;
    unfold Logger.write, Logger.writeln, Logger.info, Logger.infoln, Logger.warn,
      Logger.warnln, Logger.error, Logger.errorln, Logger.success, Logger.successln,
      Logger.debug, Logger.debugln; eauto.
Qed.

(** C10.  A leveled write (write, info, warn, error, success, debug, and
    the line variants) puts one chunk on the stream exactly when the logger
    is not muted, the verbosity is [-1] or the depth is at most the
    verbosity, and, for the debug writes, the debug option is on; when one
    of these fails, the write changes nothing: the stream, and the whole
    logger, stay as they were. *)
Theorem leveled_write_emits_iff_passes
    (colors : string -> string -> string) (m : Logger.method)
    (args : list string) (lg : Logger.t) :
  (emits_one lg (Logger.call colors m args lg) <-> passes m lg)
  /\ (~ passes m lg ->
      Logger.call colors m args lg = lg
      /\ Logger._stream (Logger.call colors m args lg) = Logger._stream lg).
Proof.
  destruct (call_cases colors m args lg) as (data & type & Hcall).
  pose proof (write_guard_spec (Logger.is_debug m) lg) as Hguard.
  fold (passes m lg) in Hguard.
  destruct (negb (Logger._muted lg) && Logger._checkLevel (Logger.is_debug m) lg) eqn:G.
  - assert (Hp : passes m lg) by (apply Hguard; reflexivity).
    split; [| tauto].
    split; [tauto | intros _].
    destruct Hcall as [-> | ->]; [apply log_emits | apply logln_emits]; assumption.
  - assert (Hn : ~ passes m lg) by (intros Hp; apply Hguard in Hp; discriminate).
    assert (Hid : Logger.call colors m args lg = lg).
    { destruct Hcall as [-> | ->]; [apply log_silent | apply logln_silent]; assumption. }
    split.
    + rewrite Hid. split; [intros H; elim (emits_one_irrefl lg H) | tauto].
    + intros _. rewrite Hid. split; reflexivity.
Qed.

(* ===================================================================== *)
(** ** The compiled tree *)
(* ===================================================================== *)

(** Induction on a batch and the batches below it. *)
Lemma step_rect' (P : step -> Prop) :
  (forall d, P (GruntStep d)) ->
  (forall d, P (FunctionStep d)) ->
  (forall d batch, Forall P batch -> P (TaskStep d batch)) ->
  forall s, P s.
Proof.
  intros Hg Hf Ht.
  fix IH 1. intros [d | d | d batch].
  - apply Hg.
  - apply Hf.
  - apply Ht. induction batch as [| c batch IHb]; constructor; [apply IH | exact IHb].
Qed.

Section Compiled.

Variable ext : Collaborators.

Lemma createTaskDefinition_def r e parent h :
  (_createTaskDefinition r e parent h).1 =
  {| task := e_task e; options := r;
     parentOptions := match parent with Some p => options p | None => r end;
     depth := match parent with Some p => 1 + depth p | None => 1 end;
     description := e_description e; on := e_on e; mute := e_mute e;
     fatal := e_fatal e; grunt := e_grunt e |}.
Proof. destruct parent; reflexivity. Qed.

Lemma classify_entry r e parent h :
  classify (_createTaskDefinition r e parent h).1 = entry_kind e.
Proof. rewrite createTaskDefinition_def. reflexivity. Qed.

Lemma forEach_subtask_spec
    (batchTask : Def -> gmap ref value -> outcome (step * gmap ref value))
    (Q : Def -> step -> Prop) (def : Def) :
  (forall d h s h', batchTask d h = Returns (s, h') -> Q d s) ->
  (forall d s, Q d s -> kind_of s = KTask) ->
  forall subtasks i h batch h',
    forEach_subtask batchTask def subtasks i h = Returns (batch, h') ->
    List.length batch = List.length subtasks
    /\ forall j e c,
        subtasks !! j = Some e -> batch !! j = Some c ->
        let sd := (_createTaskDefinition (options def ++ [(i + j)%nat]) e (Some def) ∅).1 in
        kind_of c = entry_kind e
        /\ (entry_kind e <> KTask -> def_of c = sd)
        /\ (entry_kind e = KTask -> Q sd c).
Proof.
  intros HQ HQk. induction subtasks as [| e rest IH]; intros i h batch h' H.
  - injection H as <- <-. split; [reflexivity |]. intros j e c He. discriminate.
  - cbn [forEach_subtask] in H.
    destruct (_createTaskDefinition (options def ++ [i]) e (Some def) h) as [sd h1] eqn:Hsd.
    assert (Esd : sd = (_createTaskDefinition (options def ++ [i]) e (Some def) ∅).1).
    { rewrite createTaskDefinition_def.
      change sd with ((sd, h1).1). rewrite <- Hsd. apply createTaskDefinition_def. }
    assert (Hk : classify sd = entry_kind e).
    { change sd with ((sd, h1).1). rewrite <- Hsd. apply classify_entry. }
    rewrite Hk in H.
    destruct (match entry_kind e with
              | KGrunt => Returns (GruntStep sd, h1)
              | KFunction => Returns (FunctionStep sd, h1)
              | KTask => batchTask sd h1
              end) as [[s h2] | msg |] eqn:Hp; try discriminate.
    destruct (forEach_subtask batchTask def rest (S i) h2) as [[batch' h3] | msg |] eqn:Hrest;
      try discriminate.
    injection H as <- <-.
    destruct (IH _ _ _ _ Hrest) as [Hlen Hall].
    split; [simpl; congruence |].
    intros [| j] e' c He' Hc; simpl in He', Hc.
    + injection He' as <-. injection Hc as <-.
      rewrite Nat.add_0_r. cbv zeta. rewrite <- Esd.
      destruct (entry_kind e) eqn:Hek.
      * injection Hp as <- <-. repeat split; congruence.
      * injection Hp as <- <-. repeat split; congruence.
      * pose proof (HQ _ _ _ _ Hp) as Hq.
        repeat split; [eapply HQk; eassumption | congruence | intros _; exact Hq].
    + specialize (Hall j e' c He' Hc).
      replace (i + S j)%nat with (S i + j)%nat by lia. exact Hall.
Qed.

Lemma batched_kind d s : batched d s -> kind_of s = KTask.
Proof. intros []. reflexivity. Qed.

Lemma batched_wf d s : batched d s -> wf_step s.
Proof.
  intros [def t d' batch -> Hlen Hall]. constructor. intros i c Hc.
  destruct (t_tasks d' !! i) as [e |] eqn:He.
  - destruct (Hall _ _ _ He Hc) as (_ & Hl & Hw). split; assumption.
  - apply lookup_ge_None in He. apply lookup_lt_Some in Hc. lia.
Qed.

Lemma batched_def d s : batched d s ->
  options (def_of s) = options d /\ parentOptions (def_of s) = parentOptions d
  /\ depth (def_of s) = depth d.
Proof. intros []. simpl. auto. Qed.

Lemma batchTask_batched fuel tasks :
  forall def h s h',
    _batchTask ext fuel tasks def h = Returns (s, h') -> batched def s.
Proof.
  induction fuel as [| fuel IH]; intros def h s h' H; [discriminate |].
  cbn [_batchTask] in H.
  destruct (resolve ext tasks def) as [t | msg |] eqn:Hres; try discriminate.
  destruct t as [id | n len body built | d]; try discriminate.
  match type of H with
  | match forEach_subtask _ ?D _ _ ?H0 with _ => _ end = _ =>
      destruct (forEach_subtask (_batchTask ext fuel tasks) D (t_tasks d) 0 H0)
        as [[batch h3] | msg |] eqn:Heach; try discriminate
  end.
  injection H as <- <-.
  destruct (forEach_subtask_spec _ batched _ (IH) batched_kind _ _ _ _ _ Heach)
    as [Hlen Hall].
  econstructor; [reflexivity | exact Hlen |].
  intros j e c He Hc. specialize (Hall j e c He Hc). cbv zeta in Hall.
  destruct Hall as (Hk & Hd & Hq). split; [exact Hk |].
  rewrite createTaskDefinition_def in Hd, Hq.
  destruct (entry_kind e) eqn:Hek.
  - assert (Hdef := Hd ltac:(discriminate)).
    split; [unfold linked; rewrite Hdef; simpl; repeat split; lia |].
    destruct c; try discriminate; constructor.
  - assert (Hdef := Hd ltac:(discriminate)).
    split; [unfold linked; rewrite Hdef; simpl; repeat split; lia |].
    destruct c; try discriminate; constructor.
    simpl in Hdef. rewrite Hdef. simpl.
    unfold entry_kind in Hek.
    destruct (truthy (e_grunt e)); [discriminate |].
    destruct (isFunction (e_task e)); [reflexivity | discriminate].
  - specialize (Hq eq_refl).
    split; [| eapply batched_wf; exact Hq].
    destruct (batched_def _ _ Hq) as (Ho & Hp & Hdp).
    simpl in Ho, Hp, Hdp.
    unfold linked. simpl. repeat split; [exact Ho | exact Hp | lia].
Qed.

Lemma wf_child s c : wf_step s -> child_of s c -> 
  depth (def_of c) = depth (def_of s) + 1 /\ wf_step c.
Proof.
  intros Hwf Hc. destruct Hc as [d batch c Hin].
  inversion Hwf as [| | d' batch' Hall]; subst.
  apply list_elem_of_In, list_elem_of_lookup in Hin as [i Hi].
  destruct (Hall i c Hi) as [(_ & _ & Hd) Hw]. split; [exact Hd | exact Hw].
Qed.

Lemma wf_descendant a c : descendant a c -> wf_step a ->
  depth (def_of a) < depth (def_of c) /\ wf_step c.
Proof.
  induction 1 as [p c Hc | p m c Hc Hd IH]; intros Hwf.
  - destruct (wf_child _ _ Hwf Hc) as [Hdep Hw]. split; [lia | exact Hw].
  - destruct (wf_child _ _ Hwf Hc) as [Hdep Hw].
    destruct (IH Hw) as [Hlt Hw']. split; [lia | exact Hw'].
Qed.

Lemma batchTask_subtasks fuel tasks def h def' batch h' :
  _batchTask ext fuel tasks def h = Returns (TaskStep def' batch, h') ->
  exists d fuel',
    fuel = S fuel' /\ task def' = TaskObj d
    /\ List.length batch = List.length (t_tasks d)
    /\ forall i e c,
        t_tasks d !! i = Some e -> batch !! i = Some c ->
        match entry_kind e with
        | KGrunt => c = GruntStep (subtask_def def' i e)
        | KFunction => c = FunctionStep (subtask_def def' i e)
        | KTask =>
            kind_of c = KTask
            /\ exists h1 h2,
                _batchTask ext fuel' tasks (subtask_def def' i e) h1 = Returns (c, h2)
        end.
Proof.
  destruct fuel as [| fuel]; intros H; [discriminate |].
  cbn [_batchTask] in H.
  destruct (resolve ext tasks def) as [t | msg |] eqn:Hres; try discriminate.
  destruct t as [id | n len body built | d]; try discriminate.
  match type of H with
  | match forEach_subtask _ ?D _ _ ?H0 with _ => _ end = _ =>
      destruct (forEach_subtask (_batchTask ext fuel tasks) D (t_tasks d) 0 H0)
        as [[batch0 h3] | msg |] eqn:Heach; try discriminate
  end.
  injection H as <- <- <-.
  exists d, fuel. split; [reflexivity |]. split; [reflexivity |].
  destruct (forEach_subtask_spec
              (_batchTask ext fuel tasks)
              (fun sd s => kind_of s = KTask
                           /\ exists h1 h2, _batchTask ext fuel tasks sd h1 = Returns (s, h2))
              _
              (fun sd h1 s h2 Hb =>
                 conj (batched_kind _ _ (batchTask_batched fuel tasks _ _ _ _ Hb))
                      (ex_intro _ h1 (ex_intro _ h2 Hb)))
              (fun _ _ Hq => proj1 Hq) _ _ _ _ _ Heach) as [Hlen Hall].
  split; [exact Hlen |].
  intros i e c He Hc. specialize (Hall i e c He Hc). cbv zeta in Hall.
  destruct Hall as (Hk & Hd & Hq). unfold subtask_def.
  destruct (entry_kind e) eqn:Hek.
  - specialize (Hd ltac:(discriminate)). destruct c; try discriminate.
    simpl in Hd. rewrite Hd. reflexivity.
  - specialize (Hd ltac:(discriminate)). destruct c; try discriminate.
    simpl in Hd. rewrite Hd. reflexivity.
  - exact (Hq eq_refl).
Qed.

(** C3 (amended).  Each entry of the [tasks] list of a compiled task
    becomes, in list order, one batch: an entry whose [grunt] marker is
    truthy an external-runner step; otherwise an entry whose task is a
    function declaring any number of parameters other than one (so the
    three-parameter callback too) an inline-function step; every other
    entry (an id, a task object, a one-parameter builder function) the
    nested-task step [_batchTask] returns for it. *)
Theorem entries_batched_by_marker_and_arity
    (fuel : nat) (tasks : gmap string taskdef) (def def' : Def)
    (h h' : gmap ref value) (batch : list step) :
  _batchTask ext fuel tasks def h = Returns (TaskStep def' batch, h') ->
  exists d,
    task def' = TaskObj d
    /\ List.length batch = List.length (t_tasks d)
    /\ forall i e c,
        t_tasks d !! i = Some e -> batch !! i = Some c ->
        (truthy (e_grunt e) = true -> c = GruntStep (subtask_def def' i e))
        /\ (truthy (e_grunt e) = false -> isFunction (e_task e) = true ->
            fn_length (e_task e) <> 1%nat ->
            c = FunctionStep (subtask_def def' i e))
        /\ (truthy (e_grunt e) = false ->
            isFunction (e_task e) = false \/ fn_length (e_task e) = 1%nat ->
            kind_of c = KTask
            /\ exists fuel' h1 h2,
                _batchTask ext fuel' tasks (subtask_def def' i e) h1 = Returns (c, h2)).
Proof.
  intros H.
  destruct (batchTask_subtasks _ _ _ _ _ _ _ H) as (d & fuel' & -> & Ht & Hlen & Hall).
  exists d. split; [exact Ht |]. split; [exact Hlen |].
  intros i e c He Hc. specialize (Hall i e c He Hc).
  unfold entry_kind in Hall.
  destruct (truthy (e_grunt e)) eqn:Hg.
  - split; [intros _; exact Hall |]. split; intros; discriminate.
  - split; [intros; discriminate |].
    destruct (isFunction (e_task e)) eqn:Hf; simpl in Hall.
    + destruct (Nat.eqb_spec (fn_length (e_task e)) 1) as [Hone | Hone]; simpl in Hall.
      * split; [intros _ _ Hne; contradiction |].
        intros _ _. destruct Hall as [Hk (h1 & h2 & Hb)]. eauto 6.
      * split; [intros _ _ _; exact Hall |].
        intros _ [Hno | Hno]; [discriminate | contradiction].
    + split; [intros _ Hyes; discriminate |].
      intros _ _. destruct Hall as [Hk (h1 & h2 & Hb)]. eauto 6.
Qed.

(** C8.  The root's definition has depth 1, a subtask's definition has its
    parent's depth plus one; so in the tree compiled for a run every
    subtask is one deeper than the node it is a subtask of, and the depth
    grows strictly from any node to any node below it. *)
Theorem depth_is_one_plus_parent_depth
    (fuel : nat) (tasks : gmap string taskdef) (t : taskref) (opts : value)
    (s : step) (h' : gmap ref value) :
  _batchTask ext fuel tasks
    (_createTaskDefinition [] (root_entry t opts) None ∅).1
    (_createTaskDefinition [] (root_entry t opts) None ∅).2 = Returns (s, h') ->
  (forall r e h, depth (_createTaskDefinition r e None h).1 = 1)
  /\ (forall r e p h, depth (_createTaskDefinition r e (Some p) h).1 = depth p + 1)
  /\ depth (def_of s) = 1
  /\ (forall p c, p = s \/ descendant s p -> child_of p c ->
        depth (def_of c) = depth (def_of p) + 1)
  /\ (forall a c, a = s \/ descendant s a -> descendant a c ->
        depth (def_of a) < depth (def_of c)).
Proof.
  intros H.
  pose proof (batchTask_batched _ _ _ _ _ _ H) as Hb.
  pose proof (batched_wf _ _ Hb) as Hwf.
  destruct (batched_def _ _ Hb) as (_ & _ & Hdepth).
  assert (Hbelow : forall p, p = s \/ descendant s p -> wf_step p).
  { intros p [-> | Hd]; [exact Hwf | exact (proj2 (wf_descendant _ _ Hd Hwf))]. }
  split; [intros; rewrite createTaskDefinition_def; reflexivity |].
  split; [intros; rewrite createTaskDefinition_def; simpl; lia |].
  split; [rewrite Hdepth; reflexivity |].
  split.
  - intros p c Hp Hc. exact (proj1 (wf_child _ _ (Hbelow p Hp) Hc)).
  - intros a c Ha Hd. exact (proj1 (wf_descendant _ _ Hd (Hbelow a Ha))).
Qed.


(** *** More fuel *)

Lemma forEach_subtask_more
    (bt bt' : Def -> gmap ref value -> outcome (step * gmap ref value)) (def : Def) :
  (forall d h r, bt d h = Returns r -> bt' d h = Returns r) ->
  forall subtasks i h r,
    forEach_subtask bt def subtasks i h = Returns r ->
    forEach_subtask bt' def subtasks i h = Returns r.
Proof.
  intros Hbt. induction subtasks as [| e rest IH]; intros i h r H; [exact H |].
  cbn [forEach_subtask] in H |- *.
  destruct (_createTaskDefinition (options def ++ [i]) e (Some def) h) as [sd h1].
  destruct (classify sd).
  - destruct (forEach_subtask bt def rest (S i) h1) as [[batch h3] | |] eqn:E;
      try discriminate.
    rewrite (IH _ _ _ E). exact H.
  - destruct (forEach_subtask bt def rest (S i) h1) as [[batch h3] | |] eqn:E;
      try discriminate.
    rewrite (IH _ _ _ E). exact H.
  - destruct (bt sd h1) as [[s h2] | |] eqn:Eb; try discriminate.
    rewrite (Hbt _ _ _ Eb).
    destruct (forEach_subtask bt def rest (S i) h2) as [[batch h3] | |] eqn:E;
      try discriminate.
    rewrite (IH _ _ _ E). exact H.
Qed.

Lemma batchTask_unfold fuel tasks def h :
  _batchTask ext (S fuel) tasks def h
  = match resolve ext tasks def with
    | Returns t =>
        let def := set_task def t in
        let h :=
          <[options def := fill_defaults (task_options t) (deref h (options def))]> h in
        match t with
        | TaskObj d =>
            match forEach_subtask (_batchTask ext fuel tasks) def (t_tasks d) 0%nat h with
            | Returns (batch, h') => Returns (TaskStep def batch, h')
            | Throws msg => Throws msg
            | OutOfFuel => OutOfFuel
            end
        | _ => Throws "def.task.tasks is undefined"
        end
    | Throws msg => Throws msg
    | OutOfFuel => OutOfFuel
    end.
Proof. reflexivity. Qed.

(** What [_batchTask] returns does not depend on the fuel it is given,
    once that is enough. *)
Lemma batchTask_more_fuel fuel :
  forall tasks def h r,
    _batchTask ext fuel tasks def h = Returns r ->
    _batchTask ext (S fuel) tasks def h = Returns r.
Proof.
  induction fuel as [| fuel IH]; intros tasks def h r H; [discriminate |].
  rewrite batchTask_unfold in H. rewrite batchTask_unfold.
  destruct (resolve ext tasks def) as [t | |]; try discriminate.
  destruct t as [id | n len body built | d]; try discriminate.
  cbv zeta in H |- *.
  match type of H with
  | match forEach_subtask _ ?D _ _ ?H0 with _ => _ end = _ =>
      destruct (forEach_subtask (_batchTask ext fuel tasks) D (t_tasks d) 0 H0)
        as [[batch h3] | |] eqn:E; try discriminate;
      rewrite (forEach_subtask_more _ (_batchTask ext (S fuel) tasks) D
                 (fun d0 h0 r0 => IH tasks d0 h0 r0) _ _ _ _ E)
  end.
  exact H.
Qed.

Lemma batchTask_wf fuel tasks def h s h' :
  _batchTask ext fuel tasks def h = Returns (s, h') -> wf_step s.
Proof. intros H. eapply batched_wf, batchTask_batched. exact H. Qed.

End Compiled.

(** C8, on the sample project: [deploy] compiles, its root has depth 1 and
    each of its three subtasks depth 2. *)
Lemma deploy_depths :
  exists s h',
    compiled 3 (TaskId "deploy") (VObj []) = Returns (s, h')
    /\ depth (def_of s) = 1
    /\ forall c, child_of s c -> depth (def_of c) = depth (def_of s) + 1.
Proof.
  assert (H : { r | compiled 3 (TaskId "deploy") (VObj []) = Returns r }).
  { eexists. vm_compute. reflexivity. }
  destruct H as [[s h'] H]. exists s, h'.
  destruct (depth_is_one_plus_parent_depth sample 3 registry (TaskId "deploy") (VObj []) s h' H)
    as (_ & _ & Hroot & Hchild & _).
  split; [exact H |]. split; [exact Hroot |].
  intros c Hc. apply Hchild; [left; reflexivity | exact Hc].
Defined.

(** C3, on the sample project: the three entries of [deploy] are batched
    as a nested task, an external-runner step and an inline function. *)
Lemma deploy_subtask_kinds :
  exists def' batch h',
    compiled 3 (TaskId "deploy") (VObj []) = Returns (TaskStep def' batch, h')
    /\ List.map kind_of batch = [KTask; KGrunt; KFunction]
    /\ exists d, task def' = TaskObj d /\ List.length batch = List.length (t_tasks d).
Proof.
  assert (H : { r | compiled 3 (TaskId "deploy") (VObj []) = Returns (TaskStep r.1.1 r.1.2, r.2) }).
  { eexists (_, _, _). vm_compute. reflexivity. }
  destruct H as [[[def' batch] h'] H]. simpl in H. exists def', batch, h'.
  destruct (entries_batched_by_marker_and_arity sample 3 registry _ _ _ _ _ H)
    as (d & Ht & Hlen & _).
  split; [exact H |]. split; [| exists d; split; assumption].
  vm_compute in H. injection H as _ <- _. reflexivity.
Defined.

(** C3 as stated fails: the specification's wording sends a callback of
    three parameters to the nested-task path, but [_batchTask] batches it
    as an inline function. *)
Lemma three_parameter_callback_is_inline :
  fn_length (e_task callback_entry) = 3%nat
  /\ claimed_kind callback_entry = KTask
  /\ exists def' c h',
      compiled 2 (TaskObj callback_holder) (VObj []) = Returns (TaskStep def' [c], h')
      /\ kind_of c = KFunction
      /\ kind_of c <> claimed_kind callback_entry.
Proof.
  split; [reflexivity |]. split; [reflexivity |].
  eexists _, _, _. split; [vm_compute; reflexivity |].
  split; [reflexivity | discriminate].
Qed.

(* ===================================================================== *)
(** ** Running a batch *)
(* ===================================================================== *)

Section Running.

Variable ext : Collaborators.
Variable nesting : nat.

Local Abbreviation exec := (Automaton.exec ext nesting).
Local Abbreviation replace_node_options :=
  (Automaton.replace_node_options ext nesting).

(** *** What each helper leaves alone *)

Lemma store_other h l x r : r <> l.1 -> store h l x !! r = h !! r.
Proof. intros H. unfold store. apply lookup_insert_ne. congruence. Qed.

Lemma fold_left_invariant {A B} (f : A -> B -> A) (I : A -> Prop) (l : list B) (a : A) :
  I a -> (forall a b, I a -> I (f a b)) -> I (fold_left f l a).
Proof.
  intros Ha Hf. revert a Ha. induction l as [| b l IH]; intros a Ha; [exact Ha |].
  cbn. apply IH, Hf, Ha.
Qed.

Lemma replaceOptions_frame fuel :
  forall target values o h r,
    r <> target.1 ->
    (_replaceOptions ext fuel target values o h).1.1 !! r = h !! r.
Proof.
  induction fuel as [| fuel IH]; intros target values o h r Hr; [reflexivity |].
  cbn [_replaceOptions].
  destruct (read h target) as [| | b | z | s | xs | kvs]; try reflexivity.
  - (* array *)
    match goal with
    | |- (let '(_, _) := fold_left ?f ?l ?a in _).1.1 !! _ = _ =>
        pose proof (fold_left_invariant f (fun acc => acc.1 !! r = h !! r) l a eq_refl) as Hfold;
        destruct (fold_left f l a) as [h' whole]
    end.
    cbn [fst] in *. apply Hfold. clear Hfold.
    intros [h0 whole0] k Hacc. cbn [fst] in *.
    destruct (_replaceOptions ext fuel (child target (KIdx k)) values o h0)
      as [[h1 v] whole1] eqn:E.
    cbn [fst]. rewrite store_other by exact Hr. rewrite <- Hacc.
    change h1 with ((h1, v, whole1).1.1). rewrite <- E. apply IH. exact Hr.
  - (* object *)
    match goal with
    | |- (let '(_, _) := fold_left ?f ?l ?a in _).1.1 !! _ = _ =>
        pose proof (fold_left_invariant f (fun acc => acc.1 !! r = h !! r) l a eq_refl) as Hfold;
        destruct (fold_left f l a) as [h' whole]
    end.
    cbn [fst] in *. apply Hfold. clear Hfold.
    intros [h0 whole0] k Hacc. cbn [fst] in *.
    destruct (has_prop (read h0 target) k); [| exact Hacc].
    destruct (_replaceOptions ext fuel (child target (KProp k)) values o h0)
      as [[h1 v] whole1] eqn:E.
    assert (Eh1 : h1 !! r = h !! r).
    { rewrite <- Hacc. change h1 with ((h1, v, whole1).1.1). rewrite <- E. apply IH. exact Hr. }
    cbn [fst]. destruct (String.eqb _ k).
    + rewrite store_other by exact Hr. exact Eh1.
    + rewrite !store_other by exact Hr. exact Eh1.
Qed.

Lemma replace_node_options_log def o st : log (replace_node_options def o st) = log st.
Proof. reflexivity. Qed.

Lemma replace_node_options_trace def o st : trace (replace_node_options def o st) = trace st.
Proof. reflexivity. Qed.

Lemma replace_node_options_muted def o st :
  mutedLogger (replace_node_options def o st) = mutedLogger st.
Proof. reflexivity. Qed.

Lemma replace_node_options_frame def o st r :
  r <> options def -> heap (replace_node_options def o st) !! r = heap st !! r.
Proof. intros H. apply replaceOptions_frame. exact H. Qed.

Lemma onBeforeTask_trace def st : trace (_onBeforeTask ext def st) = trace st.
Proof. unfold _onBeforeTask. destruct (_ && _); reflexivity. Qed.

Lemma onBeforeTask_heap def st : heap (_onBeforeTask ext def st) = heap st.
Proof. unfold _onBeforeTask. destruct (_ && _); reflexivity. Qed.

Lemma onAfterTask_trace def err st : trace (_onAfterTask ext def err st).1 = trace st.
Proof.
  unfold _onAfterTask.
  destruct err as [e |]; [destruct (negb _) |]; cbn; case_decide; reflexivity.
Qed.

Lemma onAfterTask_heap def err st : heap (_onAfterTask ext def err st).1 = heap st.
Proof.
  unfold _onAfterTask.
  destruct err as [e |]; [destruct (negb _) |]; cbn; case_decide; reflexivity.
Qed.

Lemma call_user_trace f r st : trace (call_user ext f r st).1 = trace st.
Proof. reflexivity. Qed.

Lemma call_user_muted f r st : mutedLogger (call_user ext f r st).1 = mutedLogger st.
Proof. reflexivity. Qed.

(** C4.  A node whose [on] modifier comes out falsy is skipped whole: its
    step calls [done] with no error, the logger (so the stream) and the
    record of calls are as they were, hence no setup, no teardown, no
    post-task phase, no subtask and no log line; the one thing done is
    the substitution in the node's own options object, made before the
    test. *)
Theorem disabled_node_is_skipped (s : step) (st : state) :
  _isTaskEnabled ext (def_of s)
    (heap (replace_node_options (def_of s) (first_pass s) st)) = false ->
  exec s st = (replace_node_options (def_of s) (first_pass s) st, None)
  /\ log (exec s st).1 = log st
  /\ Logger._stream (log (exec s st).1) = Logger._stream (log st)
  /\ trace (exec s st).1 = trace st
  /\ mutedLogger (exec s st).1 = mutedLogger st
  /\ forall r, r <> options (def_of s) -> heap (exec s st).1 !! r = heap st !! r.
Proof.
  intros Hoff.
  assert (E : exec s st = (replace_node_options (def_of s) (first_pass s) st, None)).
  { destruct s as [def | def | def batch]; cbn [Automaton.exec def_of first_pass] in *.
    - unfold _batchGruntTask. rewrite Hoff. reflexivity.
    - unfold _batchFunctionTask. rewrite Hoff. reflexivity.
    - unfold preTaskFunc. rewrite Hoff. reflexivity. }
  rewrite E. cbn [fst].
  repeat split; try reflexivity.
  intros r Hr. apply replace_node_options_frame. exact Hr.
Qed.

(** *** The record of calls *)

Lemma run_setup_trace def st :
  trace (run_setup ext def st).1
  = trace st ++ match task_setup (task def) with
                | Some _ => [EvSetup (options def)]
                | None => []
                end.
Proof.
  unfold run_setup. destruct (task_setup (task def)); cbn.
  - reflexivity.
  - symmetry. apply app_nil_r.
Qed.

Lemma preTaskFunc_trace def st :
  exists evs,
    trace (preTaskFunc ext nesting def st).1 = trace st ++ evs
    /\ (evs = [] \/ evs = [EvSetup (options def)]).
Proof.
  unfold preTaskFunc.
  destruct (negb _).
  - exists []. cbn. rewrite app_nil_r. auto.
  - pose proof (run_setup_trace def
                  (_onBeforeTask ext def (replace_node_options def (Some skip_unescape) st)))
      as Hs.
    rewrite onBeforeTask_trace, replace_node_options_trace in Hs.
    destruct (run_setup ext def _) as [st3 err].
    cbn [fst] in Hs.
    exists (match task_setup (task def) with
            | Some _ => [EvSetup (options def)]
            | None => []
            end).
    split.
    + destruct err; cbn; exact Hs.
    + destruct (task_setup (task def)); auto.
Qed.

Lemma posTaskFunc_trace def err st :
  trace (posTaskFunc ext def err st).1
  = trace st ++ EvPosTask (options def)
       :: match task_teardown (task def) with
          | Some _ => [EvTeardown (options def)]
          | None => []
          end.
Proof.
  unfold posTaskFunc.
  pose proof (onAfterTask_trace def err (record (EvPosTask (options def)) st)) as H1.
  destruct (_onAfterTask ext def err (record (EvPosTask (options def)) st)) as [st1 err1].
  cbn [fst] in H1.
  destruct (task_teardown (task def)) as [teardown |].
  - pose proof (call_user_trace teardown (options def)
                  (record (EvTeardown (options def)) st1)) as H2.
    destruct (call_user ext teardown (options def) _) as [st2 tErr].
    cbn [fst] in H2.
    pose proof (onAfterTask_trace def tErr st2) as H3.
    destruct (_onAfterTask ext def tErr st2) as [st3 tErr'].
    cbn [fst] in *. rewrite H3, H2. cbn. rewrite H1. cbn.
    rewrite <- app_assoc. reflexivity.
  - cbn. rewrite H1. reflexivity.
Qed.

Lemma batchFunctionTask_trace def st :
  exists evs,
    trace (_batchFunctionTask ext nesting def st).1 = trace st ++ evs
    /\ Forall (below (options def)) evs.
Proof.
  unfold _batchFunctionTask. destruct (negb _).
  - exists []. cbn. rewrite app_nil_r. auto.
  - destruct (task def).
    + exists []. cbn. rewrite onBeforeTask_trace, app_nil_r. auto.
    + exists [EvCall (options def)]. split.
      * destruct (call_user ext body (parentOptions def) _) as [st3 err] eqn:E.
        rewrite onAfterTask_trace.
        change st3 with ((st3, err).1). rewrite <- E, call_user_trace. cbn.
        rewrite onBeforeTask_trace. reflexivity.
      * repeat constructor. unfold below. reflexivity.
    + exists []. cbn. rewrite onBeforeTask_trace, app_nil_r. auto.
Qed.

Lemma batchGruntTask_trace def st :
  exists evs,
    trace (_batchGruntTask ext nesting def st).1 = trace st ++ evs
    /\ Forall (below (options def)) evs.
Proof.
  unfold _batchGruntTask. destruct (negb _).
  - exists []. cbn. rewrite app_nil_r. auto.
  - exists [EvGrunt (options def)]. split.
    + destruct (g_error _).
      * rewrite onAfterTask_trace. cbn. rewrite onBeforeTask_trace. reflexivity.
      * cbn. rewrite onBeforeTask_trace. reflexivity.
    + repeat constructor. unfold below. reflexivity.
Qed.

(** The events of a sequence of subtasks are events of the subtasks. *)
Lemma series_trace (r : ref) (batch : list step) :
  Forall (fun c => forall st, exists evs,
              trace (exec c st).1 = trace st ++ evs
              /\ Forall (below (options (def_of c))) evs) batch ->
  Forall (fun c => exists i, options (def_of c) = r ++ [i]) batch ->
  forall st, exists evs,
    trace (series exec batch st).1 = trace st ++ evs
    /\ Forall (fun ev => exists i, below (r ++ [i]) ev) evs.
Proof.
  induction batch as [| c batch IH]; intros Hev Hrefs st.
  - exists []. cbn. rewrite app_nil_r. auto.
  - inversion Hev as [| ? ? Hc Hrest]; subst.
    inversion Hrefs as [| ? ? [i Hi] Hrefs']; subst.
    cbn [series].
    destruct (Hc st) as (evs1 & E1 & F1).
    destruct (exec c st) as [st1 err] eqn:Ec. cbn [fst] in E1.
    assert (F1' : Forall (fun ev => exists i, below (r ++ [i]) ev) evs1).
    { eapply Forall_impl; [exact F1 |]. intros ev Hb. exists i. rewrite <- Hi. exact Hb. }
    destruct err as [e |].
    + exists evs1. split; [exact E1 | exact F1'].
    + destruct (IH Hrest Hrefs' st1) as (evs2 & E2 & F2).
      exists (evs1 ++ evs2). split.
      * rewrite E2, E1, app_assoc. reflexivity.
      * apply Forall_app. split; assumption.
Qed.

Lemma wf_batch_refs d batch :
  wf_step (TaskStep d batch) ->
  Forall (fun c => exists i, options (def_of c) = options d ++ [i]) batch
  /\ Forall wf_step batch.
Proof.
  intros Hwf. inversion Hwf as [| | d' batch' Hall]; subst.
  split; apply Forall_lookup; intros i c Hc; destruct (Hall i c Hc) as [(Ho & _) Hw].
  - exists i. exact Ho.
  - exact Hw.
Qed.

Lemma below_child r i ev : below (r ++ [i]) ev -> below r ev /\ ev_ref ev <> r.
Proof.
  unfold below. intros [k Hk]. split.
  - exists ([i] ++ k). rewrite Hk, <- app_assoc. reflexivity.
  - rewrite Hk, <- app_assoc. intros E.
    apply (f_equal (@List.length nat)) in E. rewrite length_app in E. cbn in E. lia.
Qed.

(** Every event of a batch is an event of its node or of a node below. *)
Lemma exec_trace s :
  wf_step s ->
  forall st, exists evs,
    trace (exec s st).1 = trace st ++ evs
    /\ Forall (below (options (def_of s))) evs.
Proof.
  induction s as [d | d | d batch IH] using step_rect'; intros Hwf st.
  - apply batchGruntTask_trace.
  - apply batchFunctionTask_trace.
  - destruct (wf_batch_refs _ _ Hwf) as [Hrefs Hwfs].
    assert (Hev : Forall (fun c => forall st, exists evs,
                              trace (exec c st).1 = trace st ++ evs
                              /\ Forall (below (options (def_of c))) evs) batch).
    { rewrite Forall_forall in IH, Hwfs. apply Forall_forall. intros c Hc.
      apply IH; [exact Hc | apply Hwfs; exact Hc]. }
    cbn [Automaton.exec def_of].
    destruct (preTaskFunc_trace d st) as (pre & Epre & Hpre).
    destruct (preTaskFunc ext nesting d st) as [st1 [err disabled]]. cbn [fst] in Epre.
    assert (Fpre : Forall (below (options d)) pre).
    { destruct Hpre as [-> | ->]; repeat constructor. unfold below. reflexivity. }
    assert (Fpost : Forall (below (options d))
                     (EvPosTask (options d)
                        :: match task_teardown (task d) with
                           | Some _ => [EvTeardown (options d)]
                           | None => []
                           end)).
    { destruct (task_teardown (task d)); repeat constructor;
        unfold below; reflexivity. }
    destruct disabled.
    + exists pre. split; assumption.
    + destruct err as [e |].
      * eexists. rewrite posTaskFunc_trace, Epre, <- app_assoc. split; [reflexivity |].
        apply Forall_app. split; [exact Fpre | exact Fpost].
      * destruct (series_trace (options d) batch Hev Hrefs st1) as (mid & Emid & Fmid).
        destruct (series exec batch st1) as [st2 err2]. cbn [fst] in Emid.
        eexists. rewrite posTaskFunc_trace, Emid, Epre, <- !app_assoc.
        split; [reflexivity |].
        apply Forall_app. split; [exact Fpre |].
        apply Forall_app. split.
        -- eapply Forall_impl; [exact Fmid |]. intros ev [i Hb].
           exact (proj1 (below_child _ _ _ Hb)).
        -- exact Fpost.
Qed.

Lemma preTaskFunc_disabled def st :
  (preTaskFunc ext nesting def st).2.2
  = negb (_isTaskEnabled ext def
            (heap (replace_node_options def (Some skip_unescape) st))).
Proof.
  unfold preTaskFunc. destruct (negb _); [reflexivity |].
  destruct (run_setup ext def _) as [st3 [e |]]; reflexivity.
Qed.



(** *** Fatality *)

Lemma isTaskFatal_default def err h :
  fatal def = None -> _isTaskFatal ext def err h = true.
Proof. intros H. unfold _isTaskFatal. rewrite H. reflexivity. Qed.

Lemma set_muted_stream b lg : Logger._stream (Logger.set_muted b lg) = Logger._stream lg.
Proof. reflexivity. Qed.

Lemma onAfterTask_fatal def e st :
  _isTaskFatal ext def e (heap st) = true ->
  (_onAfterTask ext def (Some e) st).2 = Some e.
Proof.
  intros H. unfold _onAfterTask. rewrite H. cbn. case_decide; reflexivity.
Qed.

Lemma onAfterTask_absorbs def e st :
  _isTaskFatal ext def e (heap st) = false ->
  (_onAfterTask ext def (Some e) st).2 = None
  /\ Logger._stream (log (_onAfterTask ext def (Some e) st).1)
     = Logger._stream (Logger.debugln (colors ext) [silently_failed def e] (log st)).
Proof.
  intros H. unfold _onAfterTask. rewrite H. cbn. case_decide; cbn; auto.
Qed.

Lemma onAfterTask_judged def err st :
  (_onAfterTask ext def err st).2 = judged ext def err (heap st).
Proof.
  unfold _onAfterTask, judged. destruct err as [e |].
  - destruct (_isTaskFatal ext def e (heap st)); cbn; case_decide; reflexivity.
  - case_decide; reflexivity.
Qed.

Lemma posTaskFunc_judged def err st :
  (posTaskFunc ext def err st).2
  = or_else (judged ext def err (heap st))
      match task_teardown (task def) with
      | Some teardown =>
          let td := call_user ext teardown (options def)
                      (record (EvTeardown (options def))
                         (_onAfterTask ext def err
                            (record (EvPosTask (options def)) st)).1) in
          judged ext def td.2 (heap td.1)
      | None => None
      end.
Proof.
  unfold posTaskFunc.
  pose proof (onAfterTask_judged def err (record (EvPosTask (options def)) st)) as H1.
  destruct (_onAfterTask ext def err _) as [st1 err1]. cbn [fst snd] in *.
  change (heap (record (EvPosTask (options def)) st)) with (heap st) in H1.
  destruct (task_teardown (task def)) as [teardown |].
  - cbv zeta.
    destruct (call_user ext teardown (options def) _) as [st2 tErr]. cbn [fst snd].
    pose proof (onAfterTask_judged def tErr st2) as H2.
    destruct (_onAfterTask ext def tErr st2) as [st3 tErr']. cbn [fst snd] in *.
    congruence.
  - cbn [snd]. rewrite H1. destruct (judged ext def err (heap st)); reflexivity.
Qed.

(** C1.  Without a [fatal] modifier every error is fatal.  An error the
    fatality decision finds not fatal is written with [debugln] and
    replaced by no error.  This is all a node's step does with an error
    before handing it on.  The step of an inline function, and that of a
    grunt task, hands on the error of the call as the decision leaves it:
    none when the decision, taken on the store as the call left it, finds
    it not fatal, the line written at debug level.  The step of a task
    hands on the pending error (of the pre-task phase, or of the
    subtasks) as the decision leaves it or, when none is left, the error
    of the teardown hook as the decision leaves it.  The sequence a step
    is a subtask of sees only what the step hands on: with no error it
    goes on with the next subtask.  The callback of a run gets the error
    the root's step hands on, and none when there is none. *)
Theorem nonfatal_error_is_absorbed :
  (forall def err h, fatal def = None -> _isTaskFatal ext def err h = true)
  /\ (forall def e st,
        _isTaskFatal ext def e (heap st) = false ->
        (_onAfterTask ext def (Some e) st).2 = None
        /\ Logger._stream (log (_onAfterTask ext def (Some e) st).1)
           = Logger._stream
               (Logger.debugln (colors ext) [silently_failed def e] (log st)))
  /\ (forall def name len body built st,
        task def = TaskFn name len body built ->
        let st1 := replace_node_options def None st in
        let called := call_user ext body (parentOptions def)
                        (record (EvCall (options def)) (_onBeforeTask ext def st1)) in
        _isTaskEnabled ext def (heap st1) = true ->
        (exec (FunctionStep def) st).2 = judged ext def called.2 (heap called.1)
        /\ forall e,
            called.2 = Some e ->
            _isTaskFatal ext def e (heap called.1) = false ->
            (exec (FunctionStep def) st).2 = None
            /\ Logger._stream (log (exec (FunctionStep def) st).1)
               = Logger._stream
                   (Logger.debugln (colors ext) [silently_failed def e] (log called.1)))
  /\ (forall def st,
        let st1 := replace_node_options def None st in
        let st2 := record (EvGrunt (options def)) (_onBeforeTask ext def st1) in
        let out := gruntRun ext (task def) (deref (heap st2) (options def))
                     (if isObject (grunt def) then grunt def else VObj []) in
        let st3 := set_log st2
                     (fold_left (fun lg chunk => Logger.write (colors ext) [chunk] lg)
                        (g_data out) (log st2)) in
        _isTaskEnabled ext def (heap st1) = true ->
        (exec (GruntStep def) st).2 = judged ext def (g_error out) (heap st3)
        /\ forall e,
            g_error out = Some e ->
            _isTaskFatal ext def e (heap st3) = false ->
            (exec (GruntStep def) st).2 = None
            /\ Logger._stream (log (exec (GruntStep def) st).1)
               = Logger._stream
                   (Logger.debugln (colors ext) [silently_failed def e] (log st3)))
  /\ (forall def batch st,
        let pre := preTaskFunc ext nesting def st in
        let ran := match pre.2.1 with
                   | Some e => (pre.1, Some e)
                   | None => series exec batch pre.1
                   end in
        let after := _onAfterTask ext def ran.2
                       (record (EvPosTask (options def)) ran.1) in
        pre.2.2 = false ->
        (exec (TaskStep def batch) st).2
        = or_else (judged ext def ran.2 (heap ran.1))
            match task_teardown (task def) with
            | Some teardown =>
                let td := call_user ext teardown (options def)
                            (record (EvTeardown (options def)) after.1) in
                judged ext def td.2 (heap td.1)
            | None => None
            end
        /\ forall e,
            ran.2 = Some e ->
            _isTaskFatal ext def e (heap ran.1) = false ->
            Logger._stream (log after.1)
            = Logger._stream
                (Logger.debugln (colors ext) [silently_failed def e] (log ran.1)))
  /\ (forall s rest st,
        ((exec s st).2 = None ->
         series exec (s :: rest) st = series exec rest (exec s st).1)
        /\ forall e,
            (exec s st).2 = Some e -> series exec (s :: rest) st = exec s st)
  /\ (forall fuel o tasks t opts r,
        run ext nesting fuel o tasks t opts = Returns r ->
        exists batch h,
          _batchTask ext fuel tasks
            (_createTaskDefinition [] (root_entry t opts) None ∅).1
            (_createTaskDefinition [] (root_entry t opts) None ∅).2
          = Returns (batch, h)
          /\ callback r
             = match (exec batch (start h o)).2 with
               | Some e => Some (Error (removeColors (message e)))
               | None => None
               end).
Proof.
  split; [exact isTaskFatal_default |].
  split; [exact onAfterTask_absorbs |].
  split.
  { intros def name len body built st Ht st1 called En.
    assert (E : exec (FunctionStep def) st = _onAfterTask ext def called.2 called.1).
    { cbn [Automaton.exec]. unfold _batchFunctionTask.
      fold st1. rewrite En. cbn [negb]. rewrite Ht. fold called.
      destruct called as [st3 err]. reflexivity. }
    rewrite E. split; [apply onAfterTask_judged |].
    intros e He F. rewrite He. apply onAfterTask_absorbs, F. }
  split.
  { intros def st st1 st2 out st3 En.
    assert (E : exec (GruntStep def) st
                = match g_error out with
                  | Some err => _onAfterTask ext def (Some err) st3
                  | None => (st3, None)
                  end).
    { cbn [Automaton.exec]. unfold _batchGruntTask.
      fold st1. rewrite En. reflexivity. }
    rewrite E. split.
    - destruct (g_error out) as [e |]; [| reflexivity].
      rewrite onAfterTask_judged. reflexivity.
    - intros e He F. rewrite He. apply onAfterTask_absorbs, F. }
  split.
  { intros def batch st pre ran after Hd.
    assert (E : exec (TaskStep def batch) st = posTaskFunc ext def ran.2 ran.1).
    { cbn [Automaton.exec]. subst ran. fold pre.
      destruct pre as [st1 [err disabled]]. cbn [fst snd] in *. subst disabled.
      destruct err as [e |]; [reflexivity |].
      destruct (series _ batch st1) as [st2 err2]. reflexivity. }
    rewrite E. split; [apply posTaskFunc_judged |].
    intros e He F. subst after. rewrite He.
    apply (onAfterTask_absorbs def e (record (EvPosTask (options def)) ran.1)), F. }
  split.
  { intros s rest st. cbn [series]. destruct (exec s st) as [st1 err]. cbn [fst snd].
    split; [intros -> | intros e ->]; reflexivity. }
  intros fuel o tasks t opts r. unfold run, root_entry.
  destruct (_createTaskDefinition [] _ None ∅) as [def h0]. cbn [fst snd].
  destruct (_batchTask ext fuel tasks def h0) as [[batch h] | msg |]; try discriminate.
  fold (start h o).
  destruct (exec batch (start h o)) as [st' err] eqn:E.
  intros [= <-]. exists batch, h. split; [reflexivity |].
  rewrite E. cbn [snd]. destruct err; reflexivity.
Qed.

(** C2 (amended).  In the post-task phase the pending error comes first:
    when it survives its fatality decision it is the error handed to
    [done], whatever the teardown hook reports; the teardown hook's own
    error, after its fatality decision, is handed on only when no pending
    error is left. *)
Theorem pending_error_precedes_teardown_error
    (def : Def) (teardown : hook) (st : state) :
  task_teardown (task def) = Some teardown ->
  (forall e,
     _isTaskFatal ext def e (heap st) = true ->
     (posTaskFunc ext def (Some e) st).2 = Some e)
  /\ (forall err,
        (_onAfterTask ext def err (record (EvPosTask (options def)) st)).2 = None ->
        let st1 := (_onAfterTask ext def err (record (EvPosTask (options def)) st)).1 in
        let td := call_user ext teardown (options def)
                    (record (EvTeardown (options def)) st1) in
        (posTaskFunc ext def err st).2 = (_onAfterTask ext def td.2 td.1).2).
Proof.
  intros Htd. split.
  - intros e Hf. unfold posTaskFunc.
    pose proof (onAfterTask_fatal def e (record (EvPosTask (options def)) st) Hf) as H1.
    destruct (_onAfterTask ext def (Some e) _) as [st1 err1]. cbn in H1. subst err1.
    rewrite Htd.
    destruct (call_user ext teardown (options def) _) as [st2 tErr].
    destruct (_onAfterTask ext def tErr st2) as [st3 tErr']. reflexivity.
  - intros err H1. cbv zeta. unfold posTaskFunc.
    destruct (_onAfterTask ext def err _) as [st1 err1]. cbn in H1. subst err1.
    rewrite Htd. cbn [fst].
    destruct (call_user ext teardown (options def) _) as [st2 tErr]. cbn [fst snd].
    destruct (_onAfterTask ext def tErr st2) as [st3 tErr']. reflexivity.
Qed.

(** *** Validation *)

Lemma is_undefined_true v : is_undefined v = true <-> v = VUndef.
Proof. destruct v; cbn; split; congruence. Qed.

Lemma is_undefined_false v : is_undefined v = false <-> v <> VUndef.
Proof. destruct v; cbn; split; congruence. Qed.

(** [first_missing] finds the first option of the schema that the options
    object leaves undefined. *)
Lemma first_missing_first schema opts name :
  first_missing schema opts = Some name ->
  exists before d after,
    schema = before ++ (name, d) :: after
    /\ Forall (fun p => get_prop opts p.1 <> VUndef) before
    /\ get_prop opts name = VUndef.
Proof.
  induction schema as [| [k d] rest IH]; cbn; [discriminate |].
  destruct (is_undefined (get_prop opts k)) eqn:E.
  - intros [= <-]. exists [], d, rest. repeat split; [constructor |].
    apply is_undefined_true. exact E.
  - intros H. destruct (IH H) as (before & d' & after & -> & F & U).
    exists ((k, d) :: before), d', after. repeat split; [| exact U].
    constructor; [apply is_undefined_false; exact E | exact F].
Qed.




(** *** Substitution and the parent's options *)





(** *** Values the interpolator leaves alone *)














(** *** Muting *)

Lemma log_muted data type dbg lg :
  Logger._muted (Logger._log (colors ext) data type dbg lg) = Logger._muted lg.
Proof. unfold Logger._log. destruct (_ && _); reflexivity. Qed.

Lemma logln_muted data type dbg lg :
  Logger._muted (Logger._logln (colors ext) data type dbg lg) = Logger._muted lg.
Proof. unfold Logger._logln. destruct (_ && _); reflexivity. Qed.

Lemma call_muted m args lg :
  Logger._muted (Logger.call (colors ext) m args lg) = Logger._muted lg.
Proof.
  destruct (call_cases (colors ext) m args lg) as (data & type & [-> | ->]);
    [apply log_muted | apply logln_muted].
Qed.

Lemma calls_muted (calls : list (Logger.method * list string)) lg :
  Logger._muted (fold_left (fun lg c => Logger.call (colors ext) c.1 c.2 lg) calls lg)
  = Logger._muted lg.
Proof.
  revert lg. induction calls as [| c calls IH]; intros lg; [reflexivity |].
  cbn [fold_left]. rewrite IH. apply call_muted.
Qed.

Lemma writes_muted (chunks : list string) lg :
  Logger._muted (fold_left (fun lg chunk => Logger.write (colors ext) [chunk] lg) chunks lg)
  = Logger._muted lg.
Proof.
  revert lg. induction chunks as [| c chunks IH]; intros lg; [reflexivity |].
  cbn [fold_left]. rewrite IH. apply log_muted.
Qed.

Lemma call_user_log_muted f r st :
  Logger._muted (log (call_user ext f r st).1) = Logger._muted (log st).
Proof. unfold call_user. cbn. apply calls_muted. Qed.

Lemma run_setup_muted def st :
  Logger._muted (log (run_setup ext def st).1) = Logger._muted (log st)
  /\ mutedLogger (run_setup ext def st).1 = mutedLogger st.
Proof.
  unfold run_setup. destruct (task_setup (task def)); [| auto].
  split; [rewrite call_user_log_muted; reflexivity | reflexivity].
Qed.

(** The logger [_onBeforeTask] tests for muting. *)
Lemma onBeforeTask_cases def st :
  (Logger._muted (log st) = false /\ _isTaskMuted ext def (heap st) = true
   /\ Logger._muted (log (_onBeforeTask ext def st)) = true
   /\ mutedLogger (_onBeforeTask ext def st) = {[options def]} ∪ mutedLogger st)
  \/ ((Logger._muted (log st) = true \/ _isTaskMuted ext def (heap st) = false)
      /\ Logger._muted (log (_onBeforeTask ext def st)) = Logger._muted (log st)
      /\ mutedLogger (_onBeforeTask ext def st) = mutedLogger st).
Proof.
  unfold _onBeforeTask.
  set (lg := match report_of def (heap st) with
             | Some desc => _
             | None => _
             end).
  assert (Hlg : Logger._muted lg = Logger._muted (log st)).
  { subst lg. destruct (report_of def (heap st));
      [unfold Logger.infoln; rewrite logln_muted |]; reflexivity. }
  unfold Logger.isMuted. rewrite Hlg.
  destruct (Logger._muted (log st)); cbn.
  - right. rewrite Hlg. auto.
  - destruct (_isTaskMuted ext def (heap st)); cbn.
    + left. auto.
    + right. rewrite Hlg. auto.
Qed.

Lemma onAfterTask_unowned def err st :
  options def ∉ mutedLogger st ->
  Logger._muted (log (_onAfterTask ext def err st).1) = Logger._muted (log st)
  /\ mutedLogger (_onAfterTask ext def err st).1 = mutedLogger st.
Proof.
  intros Hno. unfold _onAfterTask.
  destruct err as [e |]; [destruct (negb _) |]; cbn; case_decide; try contradiction;
    cbn; unfold Logger.debugln; rewrite ?logln_muted; auto.
Qed.

Lemma onAfterTask_owner def err st :
  options def ∈ mutedLogger st ->
  Logger._muted (log (_onAfterTask ext def err st).1) = false
  /\ mutedLogger (_onAfterTask ext def err st).1 = mutedLogger st ∖ {[options def]}.
Proof.
  intros Hin. unfold _onAfterTask.
  destruct err as [e |]; [destruct (negb _) |]; cbn; case_decide; try contradiction;
    cbn; auto.
Qed.

Lemma posTaskFunc_unowned def err st :
  options def ∉ mutedLogger st ->
  Logger._muted (log (posTaskFunc ext def err st).1) = Logger._muted (log st)
  /\ mutedLogger (posTaskFunc ext def err st).1 = mutedLogger st.
Proof.
  intros Hno. unfold posTaskFunc.
  destruct (onAfterTask_unowned def err (record (EvPosTask (options def)) st) Hno)
    as [M1 S1].
  destruct (_onAfterTask ext def err (record (EvPosTask (options def)) st)) as [st1 err1].
  cbn [fst] in M1, S1. cbn in M1, S1.
  destruct (task_teardown (task def)) as [teardown |]; [| cbn; auto].
  pose proof (call_user_log_muted teardown (options def)
                (record (EvTeardown (options def)) st1)) as M2.
  pose proof (call_user_muted teardown (options def)
                (record (EvTeardown (options def)) st1)) as S2.
  destruct (call_user ext teardown (options def) _) as [st2 tErr].
  cbn [fst] in M2, S2. cbn in M2, S2.
  assert (Hno2 : options def ∉ mutedLogger st2) by (rewrite S2, S1; exact Hno).
  destruct (onAfterTask_unowned def tErr st2 Hno2) as [M3 S3].
  destruct (_onAfterTask ext def tErr st2) as [st3 tErr']. cbn [fst] in *.
  split; congruence.
Qed.

Lemma posTaskFunc_owner def err st :
  options def ∈ mutedLogger st ->
  Logger._muted (log (posTaskFunc ext def err st).1) = false
  /\ mutedLogger (posTaskFunc ext def err st).1 = mutedLogger st ∖ {[options def]}.
Proof.
  intros Hin. unfold posTaskFunc.
  destruct (onAfterTask_owner def err (record (EvPosTask (options def)) st) Hin)
    as [M1 S1].
  destruct (_onAfterTask ext def err (record (EvPosTask (options def)) st)) as [st1 err1].
  cbn [fst] in M1, S1. cbn in M1, S1.
  destruct (task_teardown (task def)) as [teardown |]; [| cbn; auto].
  pose proof (call_user_log_muted teardown (options def)
                (record (EvTeardown (options def)) st1)) as M2.
  pose proof (call_user_muted teardown (options def)
                (record (EvTeardown (options def)) st1)) as S2.
  destruct (call_user ext teardown (options def) _) as [st2 tErr].
  cbn [fst] in M2, S2. cbn in M2, S2.
  assert (Hno2 : options def ∉ mutedLogger st2).
  { rewrite S2, S1. intros Hin'. apply elem_of_difference in Hin' as [_ Hn].
    apply Hn, elem_of_singleton. reflexivity. }
  destruct (onAfterTask_unowned def tErr st2 Hno2) as [M3 S3].
  destruct (_onAfterTask ext def tErr st2) as [st3 tErr']. cbn [fst] in *.
  split; congruence.
Qed.

(** What the pre-task phase does to the mute: nothing when the node is
    disabled, what [_onBeforeTask] does otherwise. *)
Lemma preTaskFunc_mute def st :
  let st1 := replace_node_options def (Some skip_unescape) st in
  Logger._muted (log (preTaskFunc ext nesting def st).1)
  = (if _isTaskEnabled ext def (heap st1)
     then Logger._muted (log (_onBeforeTask ext def st1))
     else Logger._muted (log st))
  /\ mutedLogger (preTaskFunc ext nesting def st).1
     = (if _isTaskEnabled ext def (heap st1)
        then mutedLogger (_onBeforeTask ext def st1)
        else mutedLogger st).
Proof.
  cbv zeta. unfold preTaskFunc.
  destruct (_isTaskEnabled ext def _); cbn [negb]; [| auto].
  destruct (run_setup_muted def
              (_onBeforeTask ext def (replace_node_options def (Some skip_unescape) st)))
    as [M S].
  destruct (run_setup ext def _) as [st3 [e |]]; cbn [fst] in *; auto.
Qed.

Lemma unowned_self r st : unowned r st -> r ∉ mutedLogger st.
Proof. intros H. apply H. reflexivity. Qed.

Lemma unowned_child (r : ref) (i : nat) (st st' : state) :
  unowned r st ->
  mutedLogger st' = {[r]} ∪ mutedLogger st \/ mutedLogger st' = mutedLogger st ->
  unowned (r ++ [i]) st'.
Proof.
  intros H Hst' r' Hp.
  assert (Hr : r `prefix_of` r').
  { destruct Hp as [k ->]. exists ([i] ++ k). rewrite <- app_assoc. reflexivity. }
  assert (Hne : r' <> r).
  { destruct Hp as [k ->]. rewrite <- app_assoc. intros E.
    apply (f_equal (@List.length nat)) in E. rewrite length_app in E. cbn in E. lia. }
  specialize (H r' Hr). destruct Hst' as [-> | ->]; [| exact H].
  intros Hin. apply elem_of_union in Hin as [Hin | Hin]; [| exact (H Hin)].
  apply elem_of_singleton in Hin. exact (Hne Hin).
Qed.

(** While the logger is muted by a node above, a batch neither unmutes
    it nor takes the mute over, whatever its own [mute] modifiers say. *)
Lemma exec_while_muted s :
  wf_step s ->
  forall st,
    Logger._muted (log st) = true ->
    unowned (options (def_of s)) st ->
    Logger._muted (log (exec s st).1) = true
    /\ mutedLogger (exec s st).1 = mutedLogger st.
Proof.
  induction s as [d | d | d batch IH] using step_rect'; intros Hwf st Hm Hun;
    cbn [Automaton.exec def_of] in *.
  - unfold _batchGruntTask. destruct (negb _); [cbn; auto |].
    destruct (onBeforeTask_cases d (replace_node_options d None st))
      as [(Hf & _) | (_ & M & S)]; [cbn in Hf; congruence |].
    cbn in M, S.
    destruct (g_error _).
    + edestruct onAfterTask_unowned as [M' S'];
        [| rewrite M', S'; cbn; rewrite writes_muted, M, S; auto].
      cbn. rewrite S. apply unowned_self. exact Hun.
    + cbn. rewrite writes_muted, M, S. auto.
  - inversion Hwf as [| d' Hfn |]; subst.
    unfold _batchFunctionTask. destruct (negb _); [cbn; auto |].
    destruct (onBeforeTask_cases d (replace_node_options d None st))
      as [(Hf & _) | (_ & M & S)]; [cbn in Hf; congruence |].
    cbn in M, S.
    destruct (task d); try discriminate.
    pose proof (call_user_log_muted body (parentOptions d)
                  (record (EvCall (options d))
                     (_onBeforeTask ext d (replace_node_options d None st)))) as M2.
    pose proof (call_user_muted body (parentOptions d)
                  (record (EvCall (options d))
                     (_onBeforeTask ext d (replace_node_options d None st)))) as S2.
    destruct (call_user ext body (parentOptions d) _) as [st3 err].
    cbn [fst] in M2, S2. cbn in M2, S2.
    edestruct onAfterTask_unowned as [M' S']; [| rewrite M', S', M2, S2, M, S; auto].
    rewrite S2, S. apply unowned_self. exact Hun.
  - destruct (wf_batch_refs _ _ Hwf) as [Hrefs Hwfs].
    destruct (preTaskFunc_mute d st) as [M1 S1]. cbv zeta in M1, S1.
    destruct (onBeforeTask_cases d (replace_node_options d (Some skip_unescape) st))
      as [(Hf & _) | (_ & M & S)]; [cbn in Hf; congruence |].
    cbn in M, S. rewrite M, S in *.
    assert (M1' : Logger._muted (log (preTaskFunc ext nesting d st).1) = true)
      by (rewrite M1; destruct (_isTaskEnabled ext d _); exact Hm).
    assert (S1' : mutedLogger (preTaskFunc ext nesting d st).1 = mutedLogger st)
      by (rewrite S1; destruct (_isTaskEnabled ext d _); reflexivity).
    clear M1 S1.
    destruct (preTaskFunc ext nesting d st) as [st1 [err disabled]]. cbn [fst] in *.
    destruct disabled; [auto |].
    assert (Hpost : forall err st2,
               Logger._muted (log st2) = true -> mutedLogger st2 = mutedLogger st ->
               Logger._muted (log (posTaskFunc ext d err st2).1) = true
               /\ mutedLogger (posTaskFunc ext d err st2).1 = mutedLogger st).
    { intros err0 st2 M2 S2.
      edestruct (posTaskFunc_unowned d err0 st2) as [M' S'];
        [rewrite S2; apply unowned_self; exact Hun | rewrite M', S'; auto]. }
    destruct err as [e |]; [apply Hpost; assumption |].
    assert (Hseries : forall st1,
               Logger._muted (log st1) = true -> mutedLogger st1 = mutedLogger st ->
               Logger._muted (log (series exec batch st1).1) = true
               /\ mutedLogger (series exec batch st1).1 = mutedLogger st).
    { clear st1 M1' S1' Hwf.
      induction batch as [| c batch IHb]; intros st1 M2 S2; [cbn; auto |].
      inversion IH as [| ? ? IHc IHrest]; subst.
      inversion Hrefs as [| ? ? [i Hi] Hrefs']; subst.
      inversion Hwfs as [| ? ? Hwc Hwfs']; subst.
      cbn [series].
      destruct (IHc Hwc st1 M2) as [Mc Sc].
      { rewrite Hi. apply (unowned_child _ _ st st1 Hun). right. exact S2. }
      destruct (exec c st1) as [st2 err]. cbn [fst] in Mc, Sc.
      destruct err as [e |]; [cbn; split; congruence |].
      apply IHb; try assumption. congruence. }
    destruct (Hseries st1 M1' S1') as [M2 S2].
    destruct (series exec batch st1) as [st2 err2]. cbn [fst] in M2, S2.
    apply Hpost; assumption.
Qed.

Lemma series_while_muted (batch : list step) (owned : gset ref) :
  Forall wf_step batch ->
  Forall (fun c => forall r', options (def_of c) `prefix_of` r' -> r' ∉ owned) batch ->
  forall st,
    Logger._muted (log st) = true -> mutedLogger st = owned ->
    Logger._muted (log (series exec batch st).1) = true
    /\ mutedLogger (series exec batch st).1 = owned.
Proof.
  induction batch as [| c batch IH]; intros Hwfs Hun st M S; [cbn; auto |].
  inversion Hwfs as [| ? ? Hwc Hwfs']; subst.
  inversion Hun as [| ? ? Hc Hun']; subst.
  cbn [series].
  destruct (exec_while_muted c Hwc st M) as [Mc Sc].
  { intros r' Hp. apply Hc. exact Hp. }
  destruct (exec c st) as [st2 err]. cbn [fst] in Mc, Sc.
  destruct err as [e |]; [cbn; auto |].
  apply IH; assumption.
Qed.

(** A nested task or an inline function whose [mute] modifier comes out
    truthy while the logger is not muted mutes the logger and takes the
    mute as its own ([def.mutedLogger]); when its step is done the logger
    is unmuted again and the mute is given back. *)
Theorem muting_node_unmutes_itself (s : step) (st : state) :
  let st1 := replace_node_options (def_of s) (first_pass s) st in
  wf_step s ->
  kind_of s <> KGrunt ->
  _isTaskEnabled ext (def_of s) (heap st1) = true ->
  Logger._muted (log st) = false ->
  _isTaskMuted ext (def_of s) (heap st1) = true ->
  unowned (options (def_of s)) st ->
  Logger._muted (log (_onBeforeTask ext (def_of s) st1)) = true
  /\ mutedLogger (_onBeforeTask ext (def_of s) st1)
     = {[options (def_of s)]} ∪ mutedLogger st
  /\ Logger._muted (log (exec s st).1) = false
  /\ mutedLogger (exec s st).1 = mutedLogger st.
Proof.
  intros st1 Hwf Hkind Hon Hm Hmute Hun.
  destruct (onBeforeTask_cases (def_of s) st1)
    as [(_ & _ & M & S) | ([Hf | Hf] & _)];
    [| subst st1; cbn in Hf; congruence | congruence].
  assert (S' : mutedLogger (_onBeforeTask ext (def_of s) st1)
               = {[options (def_of s)]} ∪ mutedLogger st) by exact S.
  split; [exact M |]. split; [exact S' |].
  assert (Hback : ({[options (def_of s)]} ∪ mutedLogger st) ∖ {[options (def_of s)]}
                  = mutedLogger st).
  { apply set_eq. intros r. rewrite elem_of_difference, elem_of_union, !elem_of_singleton.
    split; [intros [[-> | H] Hne]; [contradiction | exact H] |].
    intros H. split; [right; exact H |]. intros ->.
    exact (unowned_self _ _ Hun H). }
  destruct s as [d | d | d batch]; cbn [Automaton.exec def_of first_pass kind_of] in *;
    [contradiction | |].
  - inversion Hwf as [| d' Hfn |]; subst.
    unfold _batchFunctionTask. fold st1. rewrite Hon. cbn [negb].
    destruct (task d); try discriminate.
    pose proof (call_user_log_muted body (parentOptions d)
                  (record (EvCall (options d)) (_onBeforeTask ext d st1))) as M2.
    pose proof (call_user_muted body (parentOptions d)
                  (record (EvCall (options d)) (_onBeforeTask ext d st1))) as S2.
    destruct (call_user ext body (parentOptions d) _) as [st3 err].
    cbn [fst] in M2, S2. cbn in M2, S2.
    edestruct (onAfterTask_owner d err st3) as [M3 S3].
    { rewrite S2, S'. apply elem_of_union_l, elem_of_singleton. reflexivity. }
    rewrite M3, S3, S2, S', Hback. auto.
  - destruct (wf_batch_refs _ _ Hwf) as [Hrefs Hwfs].
    destruct (preTaskFunc_mute d st) as [M1 S1]. cbv zeta in M1, S1.
    fold st1 in M1, S1. rewrite Hon, M in M1. rewrite Hon, S' in S1.
    pose proof (preTaskFunc_disabled d st) as Hflag. fold st1 in Hflag.
    rewrite Hon in Hflag. cbn in Hflag.
    destruct (preTaskFunc ext nesting d st) as [st2 [err disabled]].
    cbn [fst snd] in *. subst disabled.
    assert (Hpost : forall err st3,
               mutedLogger st3 = {[options d]} ∪ mutedLogger st ->
               Logger._muted (log (posTaskFunc ext d err st3).1) = false
               /\ mutedLogger (posTaskFunc ext d err st3).1 = mutedLogger st).
    { intros err0 st3 S3.
      edestruct (posTaskFunc_owner d err0 st3) as [M4 S4].
      { rewrite S3. apply elem_of_union_l, elem_of_singleton. reflexivity. }
      rewrite M4, S4, S3, Hback. auto. }
    destruct err as [e |]; [apply Hpost; exact S1 |].
    destruct (series_while_muted batch ({[options d]} ∪ mutedLogger st) Hwfs) with (st := st2)
      as [M3 S3]; [| exact M1 | exact S1 |].
    { eapply Forall_impl; [exact Hrefs |]. intros c [i Hi] r' Hp. rewrite Hi in Hp.
      rewrite <- S1.
      exact (unowned_child _ i st st2 Hun (or_introl S1) r' Hp). }
    destruct (series exec batch st2) as [st3 err2]. cbn [fst] in M3, S3.
    apply Hpost. exact S3.
Qed.

(** A batch that starts while the logger is muted by a node above leaves
    the mute as it is: its nodes neither mute nor unmute, whatever their
    [mute] modifiers say. *)
Theorem muted_batch_leaves_the_mute (s : step) (st : state) :
  wf_step s ->
  Logger._muted (log st) = true ->
  unowned (options (def_of s)) st ->
  Logger._muted (log (exec s st).1) = true
  /\ mutedLogger (exec s st).1 = mutedLogger st.
Proof. intros Hwf. apply exec_while_muted. exact Hwf. Qed.

(** A grunt task whose [mute] modifier comes out truthy while the logger
    is not muted mutes the logger and takes the mute as its own; it gives
    the mute back when the runner reports an error, and keeps it, the
    logger staying muted, when the runner reports the end. *)
Theorem grunt_node_unmutes_only_on_error (def : Def) (st : state) :
  let st1 := replace_node_options def None st in
  let out := gruntRun ext (task def) (deref (heap st1) (options def))
               (if isObject (grunt def) then grunt def else VObj []) in
  _isTaskEnabled ext def (heap st1) = true ->
  Logger._muted (log st) = false ->
  _isTaskMuted ext def (heap st1) = true ->
  unowned (options def) st ->
  (g_error out = None ->
   Logger._muted (log (_batchGruntTask ext nesting def st).1) = true
   /\ mutedLogger (_batchGruntTask ext nesting def st).1 = {[options def]} ∪ mutedLogger st)
  /\ (forall e, g_error out = Some e ->
      Logger._muted (log (_batchGruntTask ext nesting def st).1) = false
      /\ mutedLogger (_batchGruntTask ext nesting def st).1 = mutedLogger st).
Proof.
  intros st1 out Hon Hm Hmute Hun.
  destruct (onBeforeTask_cases def st1)
    as [(_ & _ & M & S) | ([Hf | Hf] & _)];
    [| subst st1; cbn in Hf; congruence | congruence].
  assert (S' : mutedLogger (_onBeforeTask ext def st1) = {[options def]} ∪ mutedLogger st)
    by exact S.
  unfold _batchGruntTask. fold st1. rewrite Hon. cbn [negb].
  assert (Eout : gruntRun ext (task def)
                   (deref (heap (record (EvGrunt (options def)) (_onBeforeTask ext def st1)))
                      (options def))
                   (if isObject (grunt def) then grunt def else VObj []) = out).
  { subst out. cbn [heap record]. rewrite onBeforeTask_heap. reflexivity. }
  rewrite Eout.
  split.
  - intros ->. cbn. rewrite writes_muted. auto.
  - intros e ->.
    edestruct (onAfterTask_owner def (Some e)) as [M3 S3];
      [| rewrite M3, S3; cbn; rewrite S'].
    + cbn. rewrite S'. apply elem_of_union_l, elem_of_singleton. reflexivity.
    + split; [reflexivity |].
      apply set_eq. intros r.
      rewrite elem_of_difference, elem_of_union, !elem_of_singleton.
      split; [intros [[-> | H] Hne]; [contradiction | exact H] |].
      intros H. split; [right; exact H |]. intros ->.
      exact (unowned_self _ _ Hun H).
Qed.


(** *** More fuel for the substitution *)

Lemma fold_cut_short {A B} (f : A * bool -> B -> A * bool) :
  (forall a k, (f (a, false) k).2 = false) ->
  forall l a, (fold_left f l (a, false)).2 = false.
Proof.
  intros Hf. induction l as [| k l IH]; intros a; [reflexivity |].
  cbn [fold_left]. specialize (Hf a k). destruct (f (a, false) k) as [a' w].
  cbn in Hf. subst w. apply IH.
Qed.

Lemma fold_whole_agree {A B} (f g : A * bool -> B -> A * bool) :
  (forall a k, (f (a, false) k).2 = false) ->
  (forall a k r, f (a, true) k = (r, true) -> g (a, true) k = (r, true)) ->
  forall l acc r, fold_left f l acc = (r, true) -> fold_left g l acc = (r, true).
Proof.
  intros Hf Hg. induction l as [| k l IH]; intros [a w] r H; [exact H |].
  cbn [fold_left] in H |- *.
  destruct w.
  - destruct (f (a, true) k) as [a' w'] eqn:E. destruct w'.
    + rewrite (Hg _ _ _ E). apply IH. exact H.
    + pose proof (fold_cut_short f Hf l a') as Hc. rewrite H in Hc. discriminate Hc.
  - pose proof (Hf a k) as Hk. destruct (f (a, false) k) as [a' w']. cbn in Hk. subst w'.
    pose proof (fold_cut_short f Hf l a') as Hc. rewrite H in Hc. discriminate Hc.
Qed.

Lemma replaceOptions_unfold fuel target values o h :
  _replaceOptions ext (S fuel) target values o h
  = match read h target with
    | VObj kvs =>
        let '(h', whole) :=
          fold_left
            (fun (acc : gmap ref value * bool) k =>
               let '(h, whole) := acc in
               if has_prop (read h target) k then
                 let newK := to_string (_replacePlaceholders ext k (deref h values) o) in
                 let '(h1, v, whole1) :=
                   _replaceOptions ext fuel (child target (KProp k)) values o h in
                 let h2 := store h1 (child target (KProp newK)) v in
                 (if String.eqb newK k then h2
                  else store h2 target (delete_prop (read h2 target) k),
                  whole && whole1)
               else (h, whole))
            (List.map fst kvs) (h, true) in
        (h', read h' target, whole)
    | VArr xs =>
        let '(h', whole) :=
          fold_left
            (fun (acc : gmap ref value * bool) k =>
               let '(h, whole) := acc in
               let '(h1, v, whole1) :=
                 _replaceOptions ext fuel (child target (KIdx k)) values o h in
               (store h1 (child target (KIdx k)) v, whole && whole1))
            (rev (seq 0 (List.length xs))) (h, true) in
        (h', read h' target, whole)
    | VStr s => (h, _replacePlaceholders ext s (deref h values) o, true)
    | v => (h, v, true)
    end.
Proof. reflexivity. Qed.

(** A substitution that ran to its end comes out the same with more
    fuel. *)
Lemma replaceOptions_more_fuel fuel :
  forall target values o h h' x,
    _replaceOptions ext fuel target values o h = (h', x, true) ->
    _replaceOptions ext (S fuel) target values o h = (h', x, true).
Proof.
  induction fuel as [| fuel IH]; intros target values o h h' x H; [discriminate |].
  rewrite replaceOptions_unfold in H. rewrite replaceOptions_unfold.
  destruct (read h target) as [| | b | z | s | xs | kvs]; try exact H.
  - match type of H with
    | (let '(_, _) := fold_left ?f ?l ?a in _) = _ =>
        destruct (fold_left f l a) as [h1 w] eqn:E
    end.
    injection H as <- <- ->.
    erewrite fold_whole_agree; [reflexivity | | | exact E].
    + intros a k. cbn beta iota.
      destruct (_replaceOptions ext fuel (child target (KIdx k)) values o a) as [[? ?] ?].
      reflexivity.
    + intros a k r. cbn beta iota.
      destruct (_replaceOptions ext fuel (child target (KIdx k)) values o a)
        as [[a1 v] w1] eqn:E1.
      destruct w1; [| intros [= _ Hw]; discriminate Hw ].
      rewrite (IH _ _ _ _ _ _ E1). exact (fun e => e).
  - match type of H with
    | (let '(_, _) := fold_left ?f ?l ?a in _) = _ =>
        destruct (fold_left f l a) as [h1 w] eqn:E
    end.
    injection H as <- <- ->.
    erewrite fold_whole_agree; [reflexivity | | | exact E].
    + intros a k. cbn beta iota. destruct (has_prop (read a target) k); [| reflexivity].
      destruct (_replaceOptions ext fuel (child target (KProp k)) values o a) as [[? ?] ?].
      reflexivity.
    + intros a k r. cbn beta iota. destruct (has_prop (read a target) k); [| exact (fun e => e)].
      destruct (_replaceOptions ext fuel (child target (KProp k)) values o a)
        as [[a1 v] w1] eqn:E1.
      destruct w1; [| intros [= _ Hw]; discriminate Hw ].
      rewrite (IH _ _ _ _ _ _ E1). exact (fun e => e).
Qed.

End Running.

(* ===================================================================== *)
(** ** The sample project at work *)
(* ===================================================================== *)





(** C4, on the sample project: [build] as a subtask with [on: false]. *)
Lemma disabled_build_is_skipped :
  let s := TaskStep (subtask_node 0 (TaskObj build) (Some (ModVal (VBool false))) None)
             [FunctionStep (subtask_node 0 announce None None)] in
  let st := start {[ [] := VObj []; [0%nat] := VObj [] ]} plain in
  (exec sample 5 s st).2 = None
  /\ Logger._stream (log (exec sample 5 s st).1) = []
  /\ trace (exec sample 5 s st).1 = [].
Proof.
  cbv zeta.
  destruct (disabled_node_is_skipped sample 5
              (TaskStep (subtask_node 0 (TaskObj build) (Some (ModVal (VBool false))) None)
                 [FunctionStep (subtask_node 0 announce None None)])
              (start {[ [] := VObj []; [0%nat] := VObj [] ]} plain)
              eq_refl) as (E & _ & Hs & Ht & _).
  split; [rewrite E; reflexivity |]. split; [exact Hs | exact Ht].
Defined.


(** C1, on the sample project.  The failing inline function is declared
    [fatal: '{{strict}}']: with [strict] false in the parent's options its
    step hands on no error and the failure is written at debug level;
    with [strict] true the step hands the error on.  The failing subtask
    of [tolerant] is declared not fatal: the next subtask runs and the
    run's callback gets no error. *)
Lemma tolerated_failure_is_absorbed :
  let st b := start {[ [] := VObj [("strict", VBool b)]; [0%nat] := VObj [] ]}
                debugging in
  (exec sample 5 (FunctionStep lenient) (st false)).2 = None
  /\ Logger._stream (log (exec sample 5 (FunctionStep lenient) (st false)).1)
     = [line "  > failing";
        line ("  Task " +:+ dquote +:+ "failing" +:+ dquote +:+ " silently failed: boom")]
  /\ (exec sample 5 (FunctionStep lenient) (st true)).2 = Some (Error "boom")
  /\ exists r,
      run sample 5 3 debugging registry (TaskObj tolerant) (VObj [("target", VStr "x")])
      = Returns r
      /\ callback r = None
      /\ trace (final r) = [EvSetup []; EvCall [0%nat]; EvCall [1%nat];
                            EvPosTask []; EvTeardown []].
Proof.
  cbv zeta.
  destruct (nonfatal_error_is_absorbed sample 5) as (_ & _ & H & _).
  destruct (H lenient "failing" 3%nat (fails_with "boom") (inl "failing is not a builder")
              (start {[ [] := VObj [("strict", VBool false)]; [0%nat] := VObj [] ]}
                 debugging) eq_refl eq_refl) as [_ Ha].
  destruct (Ha (Error "boom") eq_refl eq_refl) as [E S].
  destruct (H lenient "failing" 3%nat (fails_with "boom") (inl "failing is not a builder")
              (start {[ [] := VObj [("strict", VBool true)]; [0%nat] := VObj [] ]}
                 debugging) eq_refl eq_refl) as [F _].
  split; [exact E |]. split; [rewrite S; vm_compute; reflexivity |].
  split; [rewrite F; vm_compute; reflexivity |].
  eexists. split; [vm_compute; reflexivity |]. split; reflexivity.
Defined.

(** C2 as stated fails: both hooks of [flaky] fail, both errors are fatal,
    the teardown hook runs, and [done] gets the setup hook's error. *)
Lemma failed_setup_outranks_failed_teardown :
  let s := TaskStep (root_node flaky) [] in
  let st := start {[ [] := VObj [] ]} plain in
  (exec sample 5 s st).2 = Some (Error "setup failed")
  /\ (exec sample 5 s st).2 <> Some (Error "teardown failed")
  /\ trace (exec sample 5 s st).1 = [EvSetup []; EvPosTask []; EvTeardown []]
  /\ _isTaskFatal sample (root_node flaky) (Error "setup failed") ∅ = true
  /\ _isTaskFatal sample (root_node flaky) (Error "teardown failed") ∅ = true.
Proof.
  cbv zeta.
  assert (E : (exec sample 5 (TaskStep (root_node flaky) []) (start {[ [] := VObj [] ]} plain)).2
              = Some (Error "setup failed")) by (vm_compute; reflexivity).
  split; [exact E |]. split; [rewrite E; discriminate |].
  split; [vm_compute; reflexivity |]. split; reflexivity.
Qed.

(** C2 (amended), on the sample project. *)
Lemma flaky_hands_on_the_pending_error :
  (posTaskFunc sample (root_node flaky) (Some (Error "setup failed"))
     (start {[ [] := VObj [] ]} plain)).2
  = Some (Error "setup failed").
Proof.
  exact (proj1 (pending_error_precedes_teardown_error sample (root_node flaky)
                  (fails_with "teardown failed") (start {[ [] := VObj [] ]} plain) eq_refl)
           (Error "setup failed") eq_refl).
Defined.





(** C6, where the code falls short: a grunt subtask with [mute: true]
    mutes the logger and, ending well, never unmutes it; the logger is
    still muted when the run ends, and the lines of the next subtask are
    lost.  An inline function in its place unmutes the logger when it is
    done. *)
Lemma muted_grunt_task_leaves_logger_muted :
  (exists r,
     run sample 5 3 plain registry (TaskObj quiet_lint) (VObj []) = Returns r
     /\ callback r = None
     /\ trace (final r) = [EvGrunt [0%nat]; EvCall [1%nat]; EvPosTask []]
     /\ Logger.isMuted (log (final r)) = true
     /\ mutedLogger (final r) = {[ [0%nat] ]}
     /\ Logger._stream (log (final r)) = [line "> check"])
  /\ (exists r,
        run sample 5 3 plain registry (TaskObj quiet_fn) (VObj []) = Returns r
        /\ callback r = None
        /\ trace (final r) = [EvCall [0%nat]; EvCall [1%nat]; EvPosTask []]
        /\ Logger.isMuted (log (final r)) = false
        /\ mutedLogger (final r) = ∅
        /\ Logger._stream (log (final r))
           = [line "> check"; line "  > announce"; line "  > announce";
              line "  target app"]).
Proof.
  split.
  - eexists. split; [vm_compute; reflexivity |]. repeat split; vm_compute; reflexivity.
  - eexists. split; [vm_compute; reflexivity |]. repeat split; vm_compute; reflexivity.
Qed.

Lemma nothing_owned (r : ref) (o : Logger.Options) : unowned r (start check_heap o).
Proof. intros r' _. apply not_elem_of_empty. Qed.

(** On the sample project: the muted inline function of [quiet_fn] gives
    the mute back. *)
Lemma muted_announce_unmutes_itself :
  Logger._muted
    (log (exec sample 5 (FunctionStep (muted_node 0 announce VUndef))
            (start check_heap plain)).1) = false
  /\ mutedLogger
       (exec sample 5 (FunctionStep (muted_node 0 announce VUndef))
          (start check_heap plain)).1 = ∅.
Proof.
  destruct (muting_node_unmutes_itself sample 5
              (FunctionStep (muted_node 0 announce VUndef)) (start check_heap plain)
              (wf_function (muted_node 0 announce VUndef) eq_refl)
              ltac:(discriminate) eq_refl eq_refl eq_refl
              (nothing_owned [0%nat] plain)) as (_ & _ & M & S).
  split; [exact M | exact S].
Defined.

(** On the sample project: under a muted logger the same step leaves the
    mute with its owner. *)
Lemma muted_announce_under_mute :
  let st := {| heap := check_heap; log := Logger.mute (Logger.new plain);
               mutedLogger := {[ [] ]}; trace := [] |} in
  Logger._muted (log (exec sample 5 (FunctionStep (muted_node 0 announce VUndef)) st).1)
  = true
  /\ mutedLogger (exec sample 5 (FunctionStep (muted_node 0 announce VUndef)) st).1
     = {[ [] ]}.
Proof.
  cbv zeta.
  apply (muted_batch_leaves_the_mute sample 5 (FunctionStep (muted_node 0 announce VUndef))).
  - exact (wf_function (muted_node 0 announce VUndef) eq_refl).
  - reflexivity.
  - intros r' [k ->] Hin. cbn in Hin. apply elem_of_singleton in Hin. discriminate Hin.
Defined.

(** On the sample project: the muted grunt task of [quiet_lint] ends well
    and keeps the mute. *)
Lemma muted_jshint_keeps_the_mute :
  Logger._muted
    (log (_batchGruntTask sample 5 (muted_node 0 (TaskId "jshint") (VBool true))
            (start check_heap plain)).1) = true
  /\ mutedLogger
       (_batchGruntTask sample 5 (muted_node 0 (TaskId "jshint") (VBool true))
          (start check_heap plain)).1 = {[ [0%nat] ]} ∪ ∅.
Proof.
  exact (proj1 (grunt_node_unmutes_only_on_error sample 5
                  (muted_node 0 (TaskId "jshint") (VBool true)) (start check_heap plain)
                  eq_refl eq_refl eq_refl (nothing_owned [0%nat] plain))
           eq_refl).
Defined.

(* ===================================================================== *)
(** ** The Logger: depth, indentation and colors *)
(* ===================================================================== *)

Lemma append_cons (c : ascii) (a b : string) : String c a +:+ b = String c (a +:+ b).
Proof. reflexivity. Qed.

Lemma append_nil_l (b : string) : "" +:+ b = b.
Proof. reflexivity. Qed.

Lemma append_assoc' (a b c : string) : (a +:+ b) +:+ c = a +:+ (b +:+ c).
Proof.
  induction a as [| x a IH]; [reflexivity |].
  rewrite !append_cons. f_equal. exact IH.
Qed.

Lemma append_nil_r' (a : string) : a +:+ "" = a.
Proof.
  induction a as [| x a IH]; [reflexivity |].
  rewrite append_cons. f_equal. exact IH.
Qed.

Lemma length_append' (a b : string) :
  String.length (a +:+ b) = (String.length a + String.length b)%nat.
Proof.
  induction a as [| x a IH]; [reflexivity |].
  rewrite append_cons. simpl. now rewrite IH.
Qed.

Lemma repeat_string_length s n :
  String.length (repeat_string s n) = (n * String.length s)%nat.
Proof.
  induction n as [| n IH]; simpl; [reflexivity |].
  rewrite length_append', IH. lia.
Qed.

Lemma repeat_blanks_no_line_break n : no_line_break (repeat_string "  " n) = true.
Proof. induction n as [| n IH]; [reflexivity | exact IH]. Qed.

Lemma setDepth_facts (d : Z) (lg : Logger.t) :
  Logger._depth (Logger.setDepth d lg) = Z.max 1 d
  /\ Logger._padding (Logger.setDepth d lg)
     = repeat_string "  " (Z.to_nat (Z.max 1 d - 1))
  /\ Logger._stream (Logger.setDepth d lg) = Logger._stream lg
  /\ Logger._muted (Logger.setDepth d lg) = Logger._muted lg
  /\ Logger.verbosity (Logger.setDepth d lg) = Logger.verbosity lg
  /\ Logger.color (Logger.setDepth d lg) = Logger.color lg.
Proof.
  assert (Hd : Logger._depth (Logger.setDepth d lg) = Z.max 1 d).
  { unfold Logger.setDepth; simpl. destruct (Z.ltb_spec d 1); lia. }
  assert (Hp : Logger._padding (Logger.setDepth d lg)
               = repeat_string "  " (Z.to_nat (Z.max 1 d - 1))).
  { unfold Logger.setDepth; simpl.
    destruct (Z.ltb_spec d 1) as [Hlt | Hge].
    - replace (Z.max 1 d) with 1 by lia. reflexivity.
    - destruct (Z.ltb_spec 1 d) as [H1 | H1].
      + replace (Z.max 1 d) with d by lia. reflexivity.
      + replace (Z.max 1 d) with 1 by lia. replace d with 1 by lia. reflexivity. }
  repeat split; try assumption; reflexivity.
Qed.

(** [setDepth] never leaves the depth below [1]; the padding is two
    blanks for each level beyond the first, and holds nothing else; the
    last call wins; the stream, the line flag and the mute are not
    touched. *)
Theorem setDepth_clamps_and_pads (d d' : Z) (lg : Logger.t) :
  Logger._depth (Logger.setDepth d lg) = Z.max 1 d
  /\ Logger._padding (Logger.setDepth d lg)
     = repeat_string "  " (Z.to_nat (Z.max 1 d - 1))
  /\ String.length (Logger._padding (Logger.setDepth d lg))
     = (2 * Z.to_nat (Logger._depth (Logger.setDepth d lg) - 1))%nat
  /\ no_line_break (Logger._padding (Logger.setDepth d lg)) = true
  /\ Logger.setDepth d (Logger.setDepth d' lg) = Logger.setDepth d lg
  /\ Logger._stream (Logger.setDepth d lg) = Logger._stream lg
  /\ Logger._ln (Logger.setDepth d lg) = Logger._ln lg
  /\ Logger._muted (Logger.setDepth d lg) = Logger._muted lg.
Proof.
  destruct (setDepth_facts d lg) as (Hd & Hp & _).
  repeat split; try assumption; try reflexivity.
  - rewrite Hp, Hd, repeat_string_length. simpl. lia.
  - rewrite Hp. apply repeat_blanks_no_line_break.
Qed.

(** *** Indentation *)

Lemma indent_no_break padding x :
  no_line_break x = true ->
  forall y, indent_with padding (x +:+ y) = x +:+ indent_with padding y.
Proof.
  induction x as [| c x IH]; intros Hx y; [reflexivity |].
  simpl in Hx. apply andb_true_iff in Hx as [Hc Hx].
  rewrite append_cons. simpl.
  assert (Hnl : Ascii.eqb c nl = false).
  { unfold is_line_terminator in Hc. apply negb_true_iff, orb_false_iff in Hc. tauto. }
  rewrite Hnl, IH by assumption. reflexivity.
Qed.








(** *** One write or two *)









(** *** Stripping colors *)

Lemma remove_colors_plain text :
  no_escape text = true ->
  forall rest,
    remove_colors_from ScanText (text +:+ rest) = text +:+ remove_colors_from ScanText rest.
Proof.
  induction text as [| c text IH]; intros Ht rest; [reflexivity |].
  simpl in Ht. apply andb_true_iff in Ht as [Hc Ht]. apply negb_true_iff in Hc.
  rewrite !append_cons. cbn [remove_colors_from]. rewrite Hc, IH by assumption.
  reflexivity.
Qed.

Lemma is_digit_not_m : is_digit "m"%char = false.
Proof. reflexivity. Qed.

Lemma remove_colors_digits digits :
  all_digits digits = true ->
  forall held rest,
    remove_colors_from (ScanDigits held) (digits +:+ String "m"%char rest)
    = remove_colors_from ScanText rest.
Proof.
  induction digits as [| d digits IH]; intros Hd held rest.
  - rewrite append_nil_l. cbn [remove_colors_from]. rewrite is_digit_not_m.
    reflexivity.
  - simpl in Hd. apply andb_true_iff in Hd as [Hd1 Hd].
    rewrite append_cons. cbn [remove_colors_from]. rewrite Hd1. apply IH, Hd.
Qed.

Lemma remove_colors_code digits rest :
  piece_ok (Code digits) = true ->
  remove_colors_from ScanText (String esc ("[" +:+ digits +:+ "m") +:+ rest)
  = remove_colors_from ScanText rest.
Proof.
  unfold piece_ok. intros H. apply andb_true_iff in H as [Hne Hd].
  destruct digits as [| d digits]; [discriminate |].
  simpl in Hd. apply andb_true_iff in Hd as [Hd1 Hd].
  rewrite !append_cons, !append_nil_l, !append_cons, append_assoc'.
  cbn [remove_colors_from]. rewrite Ascii.eqb_refl.
  replace (Ascii.eqb "[" "[") with true by reflexivity.
  rewrite Hd1. rewrite append_cons, append_nil_l. apply remove_colors_digits, Hd.
Qed.

Lemma strip_render (ps : list piece) :
  Forall (fun p => piece_ok p = true) ps ->
  remove_colors_from ScanText (render ps) = plain_text ps.
Proof.
  induction 1 as [| p ps Hp Hps IH]; [reflexivity |].
  destruct p as [text | digits]; cbn [render plain_text].
  - rewrite remove_colors_plain, IH by exact Hp. reflexivity.
  - rewrite remove_colors_code, IH by exact Hp. reflexivity.
Qed.

Lemma no_escape_append a b :
  no_escape a = true -> no_escape b = true -> no_escape (a +:+ b) = true.
Proof.
  intros Ha Hb. induction a as [| c a IH]; [exact Hb |].
  simpl in Ha. apply andb_true_iff in Ha as [Hc Ha].
  rewrite append_cons. simpl. rewrite Hc, IH by exact Ha. reflexivity.
Qed.

Lemma plain_text_no_escape (ps : list piece) :
  Forall (fun p => piece_ok p = true) ps -> no_escape (plain_text ps) = true.
Proof.
  induction 1 as [| p ps Hp Hps IH]; [reflexivity |].
  destruct p as [text | digits]; cbn [plain_text]; [| exact IH].
  apply no_escape_append; [exact Hp | exact IH].
Qed.

(** [removeColors] (and [uncolor]) on a text made of plain stretches and
    color codes [ESC [ digits m] gives the plain stretches alone; no
    escape character is left. *)
Theorem removeColors_keeps_the_text (ps : list piece) :
  Forall (fun p => piece_ok p = true) ps ->
  removeColors (render ps) = plain_text ps
  /\ no_escape (removeColors (render ps)) = true
  /\ Logger.uncolor (render ps) = plain_text ps.
Proof.
  intros H. unfold Logger.uncolor, removeColors. rewrite (strip_render ps H).
  split; [reflexivity |]. split; [apply plain_text_no_escape, H | reflexivity].
Qed.

(** With the [color] option off, a line method that passes sends the
    padding, the message without its color codes, and a newline, whatever
    the method's own style. *)
Theorem colors_off_strips_the_codes
    (colors : string -> string -> string) (m : Logger.method)
    (ps : list piece) (lg : Logger.t) :
  is_line m = true ->
  passes m lg ->
  Logger.color lg = false ->
  no_escape (Logger._padding lg) = true ->
  Forall (fun p => piece_ok p = true) ps ->
  no_line_break (render ps) = true ->
  Logger.call colors m [render ps] lg
  = Logger.emit (Logger._padding lg +:+ plain_text ps +:+ newline) true lg.
Proof.
  intros Hm Hp Hc Hpad Hps Hnb.
  apply write_guard_spec in Hp.
  assert (Hln : forall type,
            Logger._logln colors (render ps) type (Logger.is_debug m) lg
            = Logger.emit (Logger._padding lg +:+ plain_text ps +:+ newline) true lg).
  { intros type. unfold Logger._logln. rewrite Hp.
    unfold Logger.paint, Logger.uncolor, Logger._indent. rewrite Hc. cbn [negb].
    rewrite <- (append_nil_r' (render ps)) at 1.
    rewrite (indent_no_break _ _ Hnb). change (indent_with (Logger._padding lg) "") with "".
    rewrite append_nil_r'.
    change (Logger._padding lg +:+ render ps)
      with (render (Plain (Logger._padding lg) :: ps)).
    unfold removeColors. rewrite strip_render by (constructor; assumption).
    cbn [plain_text]. rewrite append_assoc'. reflexivity. }
  destruct m; try discriminate; apply Hln.
Qed.

(* ===================================================================== *)
(** ** The logger during a run *)
(* ===================================================================== *)

(** *** What a run does to the logger *)

Section LoggerRelation.

Variable ext : Collaborators.
Variable nesting : nat.

Local Abbreviation exec := (Automaton.exec ext nesting).

(** A relation between the logger before and after, kept by every
    operation the engine makes on the logger. *)
Variable R : Logger.t -> Logger.t -> Prop.
Hypothesis R_refl : forall lg, R lg lg.
Hypothesis R_trans : forall a b c, R a b -> R b c -> R a c.
Hypothesis R_call : forall m args lg, R lg (Logger.call (colors ext) m args lg).
Hypothesis R_setDepth : forall d lg, R lg (Logger.setDepth d lg).
Hypothesis R_set_muted : forall b lg, R lg (Logger.set_muted b lg).

Lemma calls_rel (calls : list (Logger.method * list string)) lg :
  R lg (fold_left (fun lg c => Logger.call (colors ext) c.1 c.2 lg) calls lg).
Proof.
  revert lg. induction calls as [| c calls IH]; intros lg; simpl; [apply R_refl |].
  eapply R_trans; [apply R_call | apply IH].
Qed.

Lemma writes_rel (chunks : list string) lg :
  R lg (fold_left (fun lg chunk => Logger.write (colors ext) [chunk] lg) chunks lg).
Proof.
  revert lg. induction chunks as [| c chunks IH]; intros lg; simpl; [apply R_refl |].
  eapply R_trans; [apply (R_call Logger.Mwrite) | apply IH].
Qed.

Lemma call_user_rel f r st : R (log st) (log (call_user ext f r st).1).
Proof. unfold call_user; simpl. apply calls_rel. Qed.

Lemma onBeforeTask_rel def st : R (log st) (log (_onBeforeTask ext def st)).
Proof.
  unfold _onBeforeTask.
  set (lg1 := Logger.setDepth (depth def) (log st)).
  set (lg2 := match report_of def (heap st) with Some _ => _ | None => _ end).
  assert (H2 : R (log st) lg2).
  { unfold lg2. destruct (report_of def (heap st)).
    - eapply R_trans; [apply R_setDepth | apply (R_call Logger.Minfoln)].
    - apply R_setDepth. }
  destruct (negb (Logger.isMuted lg2) && _isTaskMuted ext def (heap st)); simpl.
  - eapply R_trans; [exact H2 | apply R_set_muted].
  - exact H2.
Qed.

Lemma onAfterTask_rel def err st : R (log st) (log (_onAfterTask ext def err st).1).
Proof.
  unfold _onAfterTask.
  destruct err as [e |].
  - destruct (negb (_isTaskFatal ext def e (heap st))).
    + case_decide; simpl.
      * eapply R_trans; [apply (R_call Logger.Mdebugln) | apply R_set_muted].
      * apply (R_call Logger.Mdebugln).
    + case_decide; simpl; [apply R_set_muted | apply R_refl].
  - case_decide; simpl; [apply R_set_muted | apply R_refl].
Qed.

Lemma run_setup_rel def st : R (log st) (log (run_setup ext def st).1).
Proof.
  unfold run_setup. destruct (task_setup (task def)); [| apply R_refl].
  apply (call_user_rel _ _ (record _ st)).
Qed.

Lemma preTaskFunc_rel def st : R (log st) (log (preTaskFunc ext nesting def st).1).
Proof.
  unfold preTaskFunc.
  destruct (negb (_isTaskEnabled ext def _)); cbn [fst].
  - rewrite ?replace_node_options_log. apply R_refl.
  - destruct (run_setup ext def _) as [st3 err] eqn:E.
    assert (H3 : R (log st) (log st3)).
    { eapply R_trans; [| eapply R_trans; [apply onBeforeTask_rel |]].
      - rewrite <- (replace_node_options_log ext nesting def (Some skip_unescape) st).
        apply R_refl.
      - pose proof (run_setup_rel def
          (_onBeforeTask ext def
             (Automaton.replace_node_options ext nesting def (Some skip_unescape) st))) as H.
        rewrite E in H. exact H. }
    destruct err; simpl; [exact H3 |].
    rewrite ?replace_node_options_log. exact H3.
Qed.

Lemma posTaskFunc_rel def err st : R (log st) (log (posTaskFunc ext def err st).1).
Proof.
  unfold posTaskFunc.
  destruct (_onAfterTask ext def err (record _ st)) as [st1 err1] eqn:E1.
  assert (H1 : R (log st) (log st1)).
  { pose proof (onAfterTask_rel def err (record (EvPosTask (options def)) st)) as H.
    rewrite E1 in H. exact H. }
  destruct (task_teardown (task def)) as [teardown |]; [| exact H1].
  destruct (call_user ext teardown (options def) _) as [st2 terr] eqn:E2.
  destruct (_onAfterTask ext def terr st2) as [st3 terr'] eqn:E3. simpl.
  eapply R_trans; [exact H1 |].
  eapply R_trans.
  - pose proof (call_user_rel teardown (options def)
                  (record (EvTeardown (options def)) st1)) as H.
    rewrite E2 in H. exact H.
  - pose proof (onAfterTask_rel def terr st2) as H. rewrite E3 in H. exact H.
Qed.

Lemma batchFunctionTask_rel def st :
  R (log st) (log (_batchFunctionTask ext nesting def st).1).
Proof.
  unfold _batchFunctionTask.
  destruct (negb (_isTaskEnabled ext def _)); cbn [fst].
  - rewrite ?replace_node_options_log. apply R_refl.
  - set (st2 := _onBeforeTask ext def _).
    assert (H2 : R (log st) (log st2)).
    { unfold st2. eapply R_trans; [| apply onBeforeTask_rel].
      rewrite ?replace_node_options_log. apply R_refl. }
    destruct (task def); try exact H2.
    match goal with
    | |- context [call_user ext ?f ?r ?s] =>
        pose proof (call_user_rel f r s) as H;
        destruct (call_user ext f r s) as [st3 err]
    end.
    eapply R_trans; [exact H2 |].
    eapply R_trans; [exact H | apply onAfterTask_rel].
Qed.

Lemma batchGruntTask_rel def st :
  R (log st) (log (_batchGruntTask ext nesting def st).1).
Proof.
  unfold _batchGruntTask.
  destruct (negb (_isTaskEnabled ext def _)); cbn [fst].
  - rewrite ?replace_node_options_log. apply R_refl.
  - set (st2 := record _ (_onBeforeTask ext def _)).
    assert (H2 : R (log st) (log st2)).
    { unfold st2. simpl. eapply R_trans; [| apply onBeforeTask_rel].
      rewrite ?replace_node_options_log. apply R_refl. }
    set (out := gruntRun ext _ _ _).
    set (st3 := set_log st2 _).
    assert (H3 : R (log st) (log st3)).
    { eapply R_trans; [exact H2 |]. unfold st3. simpl. apply writes_rel. }
    destruct (g_error out); [| exact H3].
    eapply R_trans; [exact H3 | apply onAfterTask_rel].
Qed.

Lemma series_rel (batch : list step) :
  Forall (fun c => forall st, R (log st) (log (exec c st).1)) batch ->
  forall st, R (log st) (log (series exec batch st).1).
Proof.
  induction 1 as [| c batch Hc Hbatch IH]; intros st; simpl; [apply R_refl |].
  destruct (exec c st) as [st1 err] eqn:E.
  pose proof (Hc st) as H1. rewrite E in H1. simpl in H1.
  destruct err; simpl; [exact H1 |].
  eapply R_trans; [exact H1 | apply IH].
Qed.

Lemma exec_rel s : forall st, R (log st) (log (exec s st).1).
Proof.
  induction s as [d | d | d batch IH] using step_rect'; intros st.
  - apply batchGruntTask_rel.
  - apply batchFunctionTask_rel.
  - cbn [Automaton.exec].
    destruct (preTaskFunc ext nesting d st) as [st1 [err disabled]] eqn:Epre.
    assert (H1 : R (log st) (log st1)).
    { pose proof (preTaskFunc_rel d st) as H. rewrite Epre in H. exact H. }
    destruct disabled; [exact H1 |].
    destruct err as [e |].
    + eapply R_trans; [exact H1 | apply posTaskFunc_rel].
    + destruct (series exec batch st1) as [st2 err2] eqn:Eser.
      eapply R_trans; [exact H1 |].
      eapply R_trans; [| apply posTaskFunc_rel].
      pose proof (series_rel batch IH st1) as H. rewrite Eser in H. exact H.
Qed.

End LoggerRelation.

Lemma call_unfold colors m args lg :
  (Logger.call colors m args lg = lg
   \/ exists chunk ln, Logger.call colors m args lg = Logger.emit chunk ln lg)
  /\ (negb (Logger._muted lg) && Logger._checkLevel (Logger.is_debug m) lg = false ->
      Logger.call colors m args lg = lg).
Proof.
  destruct (call_cases colors m args lg) as (data & type & [-> | ->]);
    unfold Logger._log, Logger._logln;
    destruct (negb (Logger._muted lg) && Logger._checkLevel (Logger.is_debug m) lg);
    split; eauto; discriminate.
Qed.

Lemma grown_refl lg : grown lg lg.
Proof.
  repeat split; try reflexivity; [exists []; now rewrite app_nil_r | tauto].
Qed.

Lemma grown_trans a b c : grown a b -> grown b c -> grown a c.
Proof.
  intros [(V1 & D1 & C1) [[k1 S1] P1]] [(V2 & D2 & C2) [[k2 S2] P2]].
  repeat split; try congruence.
  - exists (k1 ++ k2). rewrite S2, S1, app_assoc. reflexivity.
  - tauto.
Qed.

Lemma grown_call colors m args lg : grown lg (Logger.call colors m args lg).
Proof.
  destruct (call_unfold colors m args lg) as [[-> | (chunk & ln & ->)] _].
  - apply grown_refl.
  - repeat split; simpl; [eexists; reflexivity | tauto].
Qed.

Lemma grown_setDepth d lg : grown lg (Logger.setDepth d lg).
Proof.
  repeat split; simpl.
  - exists []. now rewrite app_nil_r.
  - intros _. destruct (Z.ltb_spec d 1); lia.
Qed.

Lemma grown_set_muted b lg : grown lg (Logger.set_muted b lg).
Proof.
  repeat split; simpl; [exists []; now rewrite app_nil_r | tauto].
Qed.

(** Running a batch never changes the options of the logger, only adds
    chunks at the end of the stream, and keeps the depth at [1] or
    more. *)
Theorem batch_only_appends_to_the_stream
    (ext : Collaborators) (nesting : nat) (s : step) (st : state) :
  Logger.verbosity (log (exec ext nesting s st).1) = Logger.verbosity (log st)
  /\ Logger.debug_on (log (exec ext nesting s st).1) = Logger.debug_on (log st)
  /\ Logger.color (log (exec ext nesting s st).1) = Logger.color (log st)
  /\ (exists chunks,
        Logger._stream (log (exec ext nesting s st).1)
        = Logger._stream (log st) ++ chunks)
  /\ (1 <= Logger._depth (log st) ->
      1 <= Logger._depth (log (exec ext nesting s st).1)).
Proof.
  pose proof (exec_rel ext nesting grown grown_refl grown_trans
                (grown_call (colors ext)) grown_setDepth grown_set_muted s st)
    as [(V & D & C) [S P]].
  auto.
Qed.

Lemma stays_silent_refl lg : stays_silent lg lg.
Proof. intros V D. auto. Qed.

Lemma stays_silent_trans a b c : stays_silent a b -> stays_silent b c -> stays_silent a c.
Proof.
  intros H1 H2 V D. destruct (H1 V D) as (V1 & D1 & S1).
  destruct (H2 V1 D1) as (V2 & D2 & S2). repeat split; congruence.
Qed.

Lemma stays_silent_call colors m args lg : stays_silent lg (Logger.call colors m args lg).
Proof.
  intros V D.
  destruct (call_unfold colors m args lg) as [_ H]. rewrite H; [auto |].
  unfold Logger._checkLevel. rewrite V.
  replace (Logger._depth lg <=? 0) with false by (symmetry; apply Z.leb_gt; lia).
  destruct (Logger.is_debug m && negb (Logger.debug_on lg)), (Logger._muted lg);
    reflexivity.
Qed.

Lemma stays_silent_setDepth d lg : stays_silent lg (Logger.setDepth d lg).
Proof.
  intros V D. simpl. repeat split; [exact V |]. destruct (Z.ltb_spec d 1); lia.
Qed.

Lemma stays_silent_set_muted b lg : stays_silent lg (Logger.set_muted b lg).
Proof. intros V D. simpl. auto. Qed.

(** With verbosity [0] nothing is logged: no batch puts a chunk on the
    stream, and a whole run, the error line of [handle] included, leaves
    the stream empty. *)
Theorem verbosity_zero_logs_nothing (ext : Collaborators) (nesting : nat) :
  (forall s st,
     Logger.verbosity (log st) = 0 -> 1 <= Logger._depth (log st) ->
     Logger._stream (log (exec ext nesting s st).1) = Logger._stream (log st))
  /\ (forall fuel o tasks t opts r,
        Logger.o_verbosity o = Some 0 ->
        run ext nesting fuel o tasks t opts = Returns r ->
        Logger._stream (log (final r)) = []).
Proof.
  assert (Hexec : forall s st, stays_silent (log st) (log (exec ext nesting s st).1)).
  { intros s st.
    apply (exec_rel ext nesting stays_silent stays_silent_refl stays_silent_trans
             (stays_silent_call (colors ext)) stays_silent_setDepth
             stays_silent_set_muted). }
  split.
  - intros s st V D. apply (Hexec s st V D).
  - intros fuel o tasks t opts r Ho Hrun.
    unfold run in Hrun.
    destruct (_createTaskDefinition _ _ _ _) as [def h].
    destruct (_batchTask ext fuel tasks def h) as [[batch h'] | msg |]; try discriminate.
    set (st := {| heap := h'; log := Logger.new o; mutedLogger := ∅; trace := [] |}) in *.
    assert (V : Logger.verbosity (log st) = 0) by (simpl; now rewrite Ho).
    assert (D : 1 <= Logger._depth (log st)) by (simpl; lia).
    destruct (Hexec batch st V D) as (V' & D' & S').
    destruct (exec ext nesting batch st) as [st' err]. simpl in V', D', S'.
    injection Hrun as <-.
    destruct err as [e |]; simpl; [| exact S'].
    destruct (stays_silent_call (colors ext) Logger.Merrorln [message e] (log st') V' D')
      as (_ & _ & S2).
    simpl in S2. rewrite S2. exact S'.
Qed.

(** *** The report line of a node *)

Lemma onBeforeTask_stream (ext : Collaborators) def st :
  Logger._stream (log (_onBeforeTask ext def st))
  = Logger._stream
      (match report_of def (heap st) with
       | Some desc =>
           Logger.infoln (colors ext)
             ["> " +:+ to_string (_replacePlaceholders ext desc
                                    (deref (heap st) (parentOptions def))
                                    (Some with_purge))]
             (Logger.setDepth (depth def) (log st))
       | None => Logger.setDepth (depth def) (log st)
       end).
Proof.
  unfold _onBeforeTask.
  destruct (negb (Logger.isMuted _) && _isTaskMuted ext def (heap st)); reflexivity.
Qed.

(** The line [_onBeforeTask] reports a node with: nothing when the node
    lies deeper than the verbosity; otherwise, colors on, the description
    behind [> ] and two blanks for each level beyond the first, the
    padding inside the [cyan] style, and a newline after it. *)
Theorem node_is_reported_at_its_depth
    (ext : Collaborators) (def : Def) (st : state) (desc : string) :
  report_of def (heap st) = Some desc ->
  Logger._muted (log st) = false ->
  let text :=
    "> " +:+ to_string (castInter ext desc (deref (heap st) (parentOptions def))
                          (Some with_purge)) in
  let d := Z.max 1 (depth def) in
  (Logger.verbosity (log st) <> -1 -> Logger.verbosity (log st) < d ->
   Logger._stream (log (_onBeforeTask ext def st)) = Logger._stream (log st))
  /\ (Logger.verbosity (log st) = -1 \/ d <= Logger.verbosity (log st) ->
      Logger.color (log st) = true ->
      no_line_break text = true ->
      Logger._stream (log (_onBeforeTask ext def st))
      = Logger._stream (log st)
          ++ [colors ext "cyan" (repeat_string "  " (Z.to_nat (d - 1)) +:+ text)
                +:+ newline]).
Proof.
  intros Hrep Hmuted text d.
  rewrite onBeforeTask_stream, Hrep.
  fold (_replacePlaceholders ext desc (deref (heap st) (parentOptions def)) (Some with_purge)).
  unfold _replacePlaceholders. fold text.
  set (lg := Logger.setDepth (depth def) (log st)).
  destruct (setDepth_facts (depth def) (log st)) as (Hd & Hp & Hs & Hm & Hv & Hc).
  fold lg in Hd, Hp, Hs, Hm, Hv, Hc. fold d in Hd, Hp.
  unfold Logger.infoln, Logger._logln. rewrite Hm, Hmuted. cbn [negb andb].
  unfold Logger._checkLevel. cbn [andb]. rewrite Hv, Hd.
  split.
  - intros Hne Hlt.
    replace (Logger.verbosity (log st) =? -1) with false
      by (symmetry; apply Z.eqb_neq; exact Hne).
    replace (d <=? Logger.verbosity (log st)) with false
      by (symmetry; apply Z.leb_gt; exact Hlt).
    exact Hs.
  - intros Hlevel Hcolor Hnb.
    replace ((Logger.verbosity (log st) =? -1) || (d <=? Logger.verbosity (log st)))
      with true
      by (symmetry; apply orb_true_iff; rewrite Z.eqb_eq, Z.leb_le; exact Hlevel).
    unfold Logger.paint. rewrite Hc, Hcolor. cbn [negb].
    unfold Logger._indent, Logger._arr2str.
    change (join_with " " [text]) with text.
    rewrite <- (append_nil_r' text) at 1.
    rewrite (indent_no_break _ _ Hnb).
    change (indent_with (Logger._padding lg) "") with "".
    rewrite append_nil_r', Hp. cbn [Logger.emit Logger._stream]. rewrite Hs.
    reflexivity.
Qed.

(* ===================================================================== *)
(** ** Compiling: defaults, validation, lookup *)
(* ===================================================================== *)

(** *** Defaults *)

Lemma assoc_get_set kvs n d k :
  assoc_get (assoc_set kvs n d) k = if String.eqb n k then d else assoc_get kvs k.
Proof.
  induction kvs as [| [k' v'] kvs IH]; simpl.
  - destruct (String.eqb n k); reflexivity.
  - destruct (String.eqb k' n) eqn:En; simpl.
    + apply String.eqb_eq in En. subst k'.
      destruct (String.eqb n k); reflexivity.
    + destruct (String.eqb k' k) eqn:Ek.
      * apply String.eqb_eq in Ek. subst k'.
        rewrite String.eqb_sym, En. reflexivity.
      * exact IH.
Qed.

Lemma assoc_get_absent (schema : list (string * value)) k :
  ~ In k (List.map fst schema) -> assoc_get schema k = VUndef.
Proof.
  induction schema as [| [n d] schema IH]; simpl; [reflexivity |].
  intros H. destruct (String.eqb n k) eqn:E.
  - apply String.eqb_eq in E. tauto.
  - apply IH. tauto.
Qed.

Lemma fill_defaults_get schema :
  NoDup (List.map fst schema) ->
  forall kvs k,
    get_prop (fill_defaults schema (VObj kvs)) k
    = match assoc_get kvs k with
      | VUndef => assoc_get schema k
      | v => v
      end.
Proof.
  induction schema as [| [n d] schema IH]; intros Hnd kvs k.
  - simpl. destruct (assoc_get kvs k); reflexivity.
  - simpl in Hnd. apply NoDup_cons in Hnd as [Hn Hnd].
    cbn [fill_defaults get_prop].
    destruct (is_undefined (assoc_get kvs n) && negb (is_undefined d)) eqn:Efill.
    + apply andb_true_iff in Efill as [Eu Ed].
      apply is_undefined_true in Eu. apply negb_true_iff, is_undefined_false in Ed.
      cbn [set_prop]. rewrite (IH Hnd), assoc_get_set. cbn [assoc_get].
      destruct (String.eqb n k) eqn:Ek.
      * apply String.eqb_eq in Ek. subst k. rewrite Eu.
        destruct d; congruence.
      * reflexivity.
    + rewrite (IH Hnd). cbn [assoc_get].
      destruct (String.eqb n k) eqn:Ek; [| reflexivity].
      apply String.eqb_eq in Ek. subst k.
      apply andb_false_iff in Efill as [Eu | Ed].
      * apply is_undefined_false in Eu. destruct (assoc_get kvs n); congruence.
      * apply negb_false_iff, is_undefined_true in Ed. subst d.
        rewrite (assoc_get_absent schema n) by (rewrite <- list_elem_of_In; exact Hn).
        destruct (assoc_get kvs n); reflexivity.
Qed.

(** The defaults loop of [_batchTask]: an option that is given keeps its
    value, an option left undefined gets the default its schema declares,
    and nothing else changes; so the check for missing options, made on
    the object as the loop leaves it, can only name an option that has no
    default and was not given. *)
Theorem defaults_fill_only_what_is_missing
    (schema kvs : list (string * value)) :
  NoDup (List.map fst schema) ->
  (forall k,
     get_prop (fill_defaults schema (VObj kvs)) k
     = match assoc_get kvs k with
       | VUndef => assoc_get schema k
       | v => v
       end)
  /\ (forall name,
        first_missing schema (fill_defaults schema (VObj kvs)) = Some name ->
        In name (List.map fst schema)
        /\ assoc_get schema name = VUndef
        /\ assoc_get kvs name = VUndef).
Proof.
  intros Hnd. split; [apply fill_defaults_get, Hnd |].
  intros name Hm.
  apply first_missing_first in Hm as (before & d & after & Hs & _ & Hu).
  rewrite (fill_defaults_get schema Hnd) in Hu.
  split.
  - rewrite Hs, List.map_app, in_app_iff. right. left. reflexivity.
  - destruct (assoc_get kvs name); auto; discriminate.
Qed.

(** *** Validation and lookup at compile time *)

Lemma forEach_subtask_agree
    (bt bt' : Def -> gmap ref value -> outcome (step * gmap ref value)) (def : Def) :
  (forall d h, depth d = 1 + depth def -> bt d h = bt' d h) ->
  forall subtasks i h,
    forEach_subtask bt def subtasks i h = forEach_subtask bt' def subtasks i h.
Proof.
  intros Hbt. induction subtasks as [| e subtasks IH]; intros i h; [reflexivity |].
  cbn [forEach_subtask].
  destruct (_createTaskDefinition (options def ++ [i]) e (Some def) h) as [sd h1] eqn:E.
  assert (Hd : depth sd = 1 + depth def).
  { pose proof (createTaskDefinition_def (options def ++ [i]) e (Some def) h) as H.
    rewrite E in H. simpl in H. rewrite H. reflexivity. }
  destruct (classify sd).
  - rewrite IH. reflexivity.
  - rewrite IH. reflexivity.
  - rewrite (Hbt sd h1 Hd).
    destruct (bt' sd h1) as [[s h2] | |]; [| reflexivity | reflexivity].
    rewrite IH. reflexivity.
Qed.

Lemma resolve_agree (ext ext' : Collaborators) tasks def :
  (forall d, depth def = 1 -> getTaskDefinition (task def) = Returns (TaskObj d) ->
     validate ext d = validate ext' d) ->
  resolve ext tasks def = resolve ext' tasks def.
Proof.
  intros Hv. unfold resolve.
  destruct (task def) as [id | name len body built | d] eqn:Et; [reflexivity | |].
  - cbn [isFunction]. destruct (getTaskDefinition _) as [t' | |] eqn:Eg; try reflexivity.
    destruct (depth def =? 1) eqn:Ed; [| reflexivity].
    apply Z.eqb_eq in Ed.
    destruct t' as [| | d]; try reflexivity.
    rewrite (Hv d Ed eq_refl). reflexivity.
  - cbn [isFunction].
    destruct (depth def =? 1) eqn:Ed; [| reflexivity].
    apply Z.eqb_eq in Ed.
    rewrite (Hv d Ed eq_refl). reflexivity.
Qed.

(** [_batchTask] calls the validator for the root definition only (and
    not when the root is named by an id): the batch of a node below the
    root does not depend on the validator, and the batch of the root only
    on what the validator says of the root's own task object. *)
Theorem only_the_root_task_is_validated
    (ext ext' : Collaborators) (fuel : nat) (tasks : gmap string taskdef)
    (def : Def) (h : gmap ref value) :
  1 <= depth def ->
  (forall d, depth def = 1 -> getTaskDefinition (task def) = Returns (TaskObj d) ->
     validate ext d = validate ext' d) ->
  _batchTask ext fuel tasks def h = _batchTask ext' fuel tasks def h.
Proof.
  revert def h. induction fuel as [| fuel IH]; intros def h Hd Hv; [reflexivity |].
  rewrite !batchTask_unfold, (resolve_agree ext ext' tasks def Hv).
  destruct (resolve ext' tasks def) as [t | |]; try reflexivity.
  cbv zeta. destruct t as [| | d]; try reflexivity.
  rewrite (forEach_subtask_agree (_batchTask ext fuel tasks) (_batchTask ext' fuel tasks)).
  - reflexivity.
  - intros sd h1 Hsd. simpl in Hsd. apply IH; [lia |]. intros d' Hone. lia.
Qed.

Lemma batchTask_unknown_id (ext : Collaborators) fuel tasks def h id :
  task def = TaskId id -> tasks !! id = None ->
  _batchTask ext (S fuel) tasks def h = Throws (not_loaded id).
Proof.
  intros Ht Hnone. rewrite batchTask_unfold. unfold resolve, _assertTaskLoaded, getTask.
  rewrite Ht, Hnone. reflexivity.
Qed.

(** A task id that is not loaded makes [_batchTask], and [run], throw the
    message of [_assertTaskLoaded]; when a subtask that is neither a grunt
    task nor a function names such an id, no batch is made and [run] never
    gets to call anything. *)
Theorem unknown_task_id_throws (ext : Collaborators) (nesting : nat)
    (tasks : gmap string taskdef) (id : string) :
  tasks !! id = None ->
  (forall fuel def h,
     task def = TaskId id ->
     _batchTask ext (S fuel) tasks def h = Throws (not_loaded id))
  /\ (forall fuel o opts,
        run ext nesting (S fuel) o tasks (TaskId id) opts = Throws (not_loaded id))
  /\ (forall fuel def h d e r,
        resolve ext tasks def = Returns (TaskObj d) ->
        In e (t_tasks d) -> truthy (e_grunt e) = false -> e_task e = TaskId id ->
        _batchTask ext fuel tasks def h <> Returns r)
  /\ (forall fuel o d opts e r,
        validate ext d = None ->
        In e (t_tasks d) -> truthy (e_grunt e) = false -> e_task e = TaskId id ->
        run ext nesting fuel o tasks (TaskObj d) opts <> Returns r).
Proof.
  intros Hnone.
  assert (Hdirect : forall fuel def h, task def = TaskId id ->
            _batchTask ext (S fuel) tasks def h = Throws (not_loaded id)).
  { intros. now apply batchTask_unknown_id. }
  assert (Hnested : forall fuel def h d e r,
            resolve ext tasks def = Returns (TaskObj d) ->
            In e (t_tasks d) -> truthy (e_grunt e) = false -> e_task e = TaskId id ->
            _batchTask ext fuel tasks def h <> Returns r).
  { intros fuel def h d e [s h'] Hres Hin Hg He Hret.
    destruct fuel as [| fuel]; [discriminate |].
    pose proof Hret as Hret0.
    rewrite batchTask_unfold, Hres in Hret. cbv zeta in Hret.
    destruct (forEach_subtask _ _ _ _ _) as [[batch hh] | |]; try discriminate.
    injection Hret as <- <-.
    destruct (batchTask_subtasks ext _ _ _ _ _ _ _ Hret0)
      as (d1 & fuel' & Hf & Ht1 & Hlen & Hsub).
    simpl in Ht1. injection Ht1 as <-. injection Hf as <-.
    apply list_elem_of_In, list_elem_of_lookup in Hin as [i Hi].
    destruct (lookup_lt_is_Some_2 batch i) as [c Hc].
    { rewrite Hlen. eapply lookup_lt_Some, Hi. }
    specialize (Hsub i e c Hi Hc).
    assert (Hk : entry_kind e = KTask).
    { unfold entry_kind. rewrite Hg, He. reflexivity. }
    rewrite Hk in Hsub. destruct Hsub as (_ & h1 & h2 & Hsub).
    assert (Htask : task (subtask_def (set_task def (TaskObj d)) i e) = TaskId id).
    { unfold subtask_def. rewrite createTaskDefinition_def. exact He. }
    destruct fuel as [| fuel]; [discriminate |].
    rewrite (Hdirect fuel _ h1 Htask) in Hsub. discriminate. }
  repeat split.
  - exact Hdirect.
  - intros fuel o opts. unfold run.
    destruct (_createTaskDefinition _ _ _ _) as [def h] eqn:E.
    assert (Ht : task def = TaskId id).
    { pose proof (createTaskDefinition_def [] (Entry (TaskId id) opts DescUndef None None None VUndef) None ∅) as H.
      rewrite E in H. simpl in H. rewrite H. reflexivity. }
    rewrite (Hdirect fuel def h Ht). reflexivity.
  - exact Hnested.
  - intros fuel o d opts e r Hv Hin Hg He. unfold run.
    destruct (_createTaskDefinition _ _ _ _) as [def h] eqn:E.
    assert (Hdef : task def = TaskObj d /\ depth def = 1).
    { pose proof (createTaskDefinition_def [] (Entry (TaskObj d) opts DescUndef None None None VUndef) None ∅) as H.
      rewrite E in H. simpl in H. rewrite H. split; reflexivity. }
    destruct Hdef as [Ht Hd].
    assert (Hres : resolve ext tasks def = Returns (TaskObj d)).
    { unfold resolve. rewrite Ht. cbn [isFunction]. rewrite Hd, Hv. reflexivity. }
    destruct (_batchTask ext fuel tasks def h) as [[batch h'] | |] eqn:Eb; try discriminate.
    exfalso. exact (Hnested fuel def h d e (batch, h') Hres Hin Hg He Eb).
Qed.

(* ===================================================================== *)
(** ** Running: what is skipped, what is written *)
(* ===================================================================== *)

(** *** What runs, and what does not *)

Section Order.

Variable ext : Collaborators.
Variable nesting : nat.

Local Abbreviation exec := (Automaton.exec ext nesting).

Lemma series_app_error (batch post : list step) :
  forall st e,
    (series exec batch st).2 = Some e ->
    series exec (batch ++ post) st = series exec batch st.
Proof.
  induction batch as [| c batch IH]; intros st e H; [discriminate |].
  cbn [app series] in *.
  destruct (exec c st) as [st1 [e1 |]]; [reflexivity |].
  eapply IH, H.
Qed.

Lemma series_app_ok (batch post : list step) :
  forall st,
    (series exec batch st).2 = None ->
    series exec (batch ++ post) st = series exec post (series exec batch st).1.
Proof.
  induction batch as [| c batch IH]; intros st H; [reflexivity |].
  cbn [app series] in *.
  destruct (exec c st) as [st1 [e1 |]]; [discriminate |].
  apply IH, H.
Qed.

(** Once the subtasks run so far have handed on an error, the subtasks
    after them are not run: the batch ends as if they were not there. *)
Theorem failed_subtask_stops_the_batch
    (def : Def) (batch post : list step) (st : state) (e : jserror) :
  (series exec batch (preTaskFunc ext nesting def st).1).2 = Some e ->
  series exec (batch ++ post) (preTaskFunc ext nesting def st).1
  = series exec batch (preTaskFunc ext nesting def st).1
  /\ exec (TaskStep def (batch ++ post)) st = exec (TaskStep def batch) st.
Proof.
  intros H. pose proof (series_app_error batch post _ e H) as Happ.
  split; [exact Happ |].
  cbn [Automaton.exec].
  destruct (preTaskFunc ext nesting def st) as [st1 [err disabled]].
  destruct disabled; [reflexivity |].
  destruct err; [reflexivity |].
  cbn [fst] in Happ. rewrite Happ. reflexivity.
Qed.

Lemma preTaskFunc_enabled_trace def st :
  (preTaskFunc ext nesting def st).2.2 = false ->
  trace (preTaskFunc ext nesting def st).1 = trace st ++ setup_events def.
Proof.
  unfold preTaskFunc.
  destruct (negb (_isTaskEnabled ext def _)); [discriminate |]. intros _.
  match goal with
  | |- context [run_setup ext def ?s] =>
      pose proof (run_setup_trace ext def s) as H;
      destruct (run_setup ext def s) as [st3 err]
  end.
  rewrite onBeforeTask_trace, replace_node_options_trace in H. cbn [fst] in H.
  destruct err; cbn [fst]; rewrite ?replace_node_options_trace; exact H.
Qed.

(** When the pre-task phase of an enabled node ends with an error (its
    setup failed, or an option is missing), no subtask runs: the batch
    goes on with the post-task phase at once, and the record holds the
    node's own events only. *)
Theorem failed_pretask_skips_the_subtasks
    (def : Def) (batch : list step) (st : state) (e : jserror) :
  (preTaskFunc ext nesting def st).2 = (Some e, false) ->
  exec (TaskStep def batch) st = exec (TaskStep def []) st
  /\ exec (TaskStep def batch) st
     = posTaskFunc ext def (Some e) (preTaskFunc ext nesting def st).1
  /\ trace (exec (TaskStep def batch) st).1
     = trace st ++ setup_events def ++ EvPosTask (options def) :: teardown_events def.
Proof.
  intros H.
  assert (Hrun : exec (TaskStep def batch) st
                 = posTaskFunc ext def (Some e) (preTaskFunc ext nesting def st).1).
  { cbn [Automaton.exec].
    destruct (preTaskFunc ext nesting def st) as [st1 [err disabled]].
    cbn [snd] in H. injection H as -> ->. reflexivity. }
  assert (Hnone : exec (TaskStep def []) st
                  = posTaskFunc ext def (Some e) (preTaskFunc ext nesting def st).1).
  { cbn [Automaton.exec].
    destruct (preTaskFunc ext nesting def st) as [st1 [err disabled]].
    cbn [snd] in H. injection H as -> ->. reflexivity. }
  repeat split.
  - rewrite Hrun, Hnone. reflexivity.
  - exact Hrun.
  - rewrite Hrun, posTaskFunc_trace, preTaskFunc_enabled_trace.
    + rewrite <- app_assoc. reflexivity.
    + rewrite H. reflexivity.
Qed.

End Order.

(** *** Which options objects a batch writes *)

Section Frame.

Variable ext : Collaborators.
Variable nesting : nat.

Local Abbreviation exec := (Automaton.exec ext nesting).
Local Abbreviation replace_node_options :=
  (Automaton.replace_node_options ext nesting).

Lemma call_user_heap f r0 st :
  heap (call_user ext f r0 st).1
  = <[r0 := eff_options (f (deref (heap st) r0))]> (heap st).
Proof. reflexivity. Qed.

Lemma call_user_frame f r0 st r :
  r <> r0 -> heap (call_user ext f r0 st).1 !! r = heap st !! r.
Proof. intros H. rewrite call_user_heap. apply lookup_insert_ne. congruence. Qed.




Lemma batchFunctionTask_frame def st r :
  r <> options def -> r <> parentOptions def ->
  heap (_batchFunctionTask ext nesting def st).1 !! r = heap st !! r.
Proof.
  intros H Hp. unfold _batchFunctionTask.
  destruct (negb (_isTaskEnabled ext def _)); cbn [fst].
  - apply replace_node_options_frame, H.
  - destruct (task def); cbn [fst];
      try (rewrite onBeforeTask_heap; apply replace_node_options_frame, H).
    match goal with
    | |- context [call_user ext ?f ?r0 ?s] =>
        pose proof (call_user_frame f r0 s r Hp) as H2;
        destruct (call_user ext f r0 s) as [st3 err]
    end.
    cbn [fst] in H2. simpl in H2.
    rewrite onAfterTask_heap, H2, onBeforeTask_heap.
    apply replace_node_options_frame, H.
Qed.






(** An inline function is called with its parent's options object: what
    it leaves there is what the parent has afterwards; its own options
    object is substituted and otherwise left alone, and no other object is
    touched. *)
Theorem inline_function_works_on_the_parent_options
    (def : Def) (name : string) (len : nat) (body : value -> Effect)
    (built : string + taskdef) (st : state) :
  task def = TaskFn name len body built ->
  parentOptions def <> options def ->
  _isTaskEnabled ext def (heap (replace_node_options def None st)) = true ->
  deref (heap (exec (FunctionStep def) st).1) (parentOptions def)
  = eff_options (body (deref (heap st) (parentOptions def)))
  /\ heap (exec (FunctionStep def) st).1 !! options def
     = heap (replace_node_options def None st) !! options def
  /\ (forall r, r <> options def -> r <> parentOptions def ->
        heap (exec (FunctionStep def) st).1 !! r = heap st !! r).
Proof.
  intros Ht Hne Hen.
  split; [| split].
  - cbn [Automaton.exec]. unfold _batchFunctionTask. rewrite Hen, Ht. cbn [negb].
    match goal with
    | |- context [call_user ext ?f ?r0 ?s] =>
        pose proof (call_user_heap f r0 s) as H2;
        destruct (call_user ext f r0 s) as [st3 err]
    end.
    cbn [fst] in H2. rewrite onAfterTask_heap, H2. simpl.
    unfold deref at 1. rewrite lookup_insert_eq. simpl.
    rewrite onBeforeTask_heap.
    unfold deref. rewrite replace_node_options_frame by exact Hne. reflexivity.
  - cbn [Automaton.exec]. unfold _batchFunctionTask. rewrite Hen, Ht. cbn [negb].
    match goal with
    | |- context [call_user ext ?f ?r0 ?s] =>
        pose proof (call_user_frame f r0 s (options def)) as H2;
        destruct (call_user ext f r0 s) as [st3 err]
    end.
    cbn [fst] in H2. rewrite onAfterTask_heap, H2 by congruence. simpl.
    rewrite onBeforeTask_heap. reflexivity.
  - intros r H1 H2. apply batchFunctionTask_frame; assumption.
Qed.

End Frame.

(** *** The depth of the logger *)

Section Depth.

Variable ext : Collaborators.
Variable nesting : nat.

Local Abbreviation exec := (Automaton.exec ext nesting).
Local Abbreviation replace_node_options :=
  (Automaton.replace_node_options ext nesting).

Lemma same_depth_refl lg : same_depth lg lg.
Proof. split; reflexivity. Qed.

Lemma same_depth_trans a b c : same_depth a b -> same_depth b c -> same_depth a c.
Proof. intros [D1 P1] [D2 P2]. split; congruence. Qed.

Lemma same_depth_call colors m args lg : same_depth lg (Logger.call colors m args lg).
Proof.
  destruct (call_unfold colors m args lg) as [[-> | (chunk & ln & ->)] _];
    split; reflexivity.
Qed.

Lemma same_depth_set_muted b lg : same_depth lg (Logger.set_muted b lg).
Proof. split; reflexivity. Qed.

Lemma posTaskFunc_depth def err st :
  same_depth (log st) (log (posTaskFunc ext def err st).1).
Proof.
  apply (posTaskFunc_rel ext same_depth same_depth_refl same_depth_trans
           (same_depth_call (colors ext)) same_depth_set_muted).
Qed.

Lemma onAfterTask_depth def err st :
  same_depth (log st) (log (_onAfterTask ext def err st).1).
Proof.
  apply (onAfterTask_rel ext same_depth same_depth_refl same_depth_trans
           (same_depth_call (colors ext)) same_depth_set_muted).
Qed.

Lemma call_user_depth f r st : same_depth (log st) (log (call_user ext f r st).1).
Proof.
  apply (call_user_rel ext same_depth same_depth_refl same_depth_trans
           (same_depth_call (colors ext))).
Qed.

Lemma onBeforeTask_depth def st :
  Logger._depth (log (_onBeforeTask ext def st)) = Z.max 1 (depth def).
Proof.
  unfold _onBeforeTask.
  set (lg1 := Logger.setDepth (depth def) (log st)).
  assert (H1 : Logger._depth lg1 = Z.max 1 (depth def)).
  { unfold lg1. simpl. destruct (Z.ltb_spec (depth def) 1); lia. }
  set (lg2 := match report_of def (heap st) with Some _ => _ | None => _ end).
  assert (H2 : Logger._depth lg2 = Z.max 1 (depth def)).
  { unfold lg2. destruct (report_of def (heap st)); [| exact H1].
    rewrite <- H1.
    apply (same_depth_call (colors ext) Logger.Minfoln _ lg1). }
  destruct (negb (Logger.isMuted lg2) && _isTaskMuted ext def (heap st)); exact H2.
Qed.

(** An inline function that is enabled leaves the logger at its depth. *)
Lemma batchFunctionTask_depth def st :
  isFunction (task def) = true ->
  trace (_batchFunctionTask ext nesting def st).1 <> trace st ->
  Logger._depth (log (_batchFunctionTask ext nesting def st).1) = Z.max 1 (depth def).
Proof.
  intros Hf. unfold _batchFunctionTask.
  destruct (negb (_isTaskEnabled ext def _)); cbn [fst].
  - rewrite replace_node_options_trace. congruence.
  - intros _. destruct (task def); try discriminate.
    match goal with
    | |- context [call_user ext ?f ?r0 ?s] =>
        pose proof (call_user_depth f r0 s) as [H2 _];
        destruct (call_user ext f r0 s) as [st3 err]
    end.
    cbn [fst] in H2. simpl in H2.
    destruct (onAfterTask_depth def err st3) as [H3 _].
    rewrite H3, H2. apply onBeforeTask_depth.
Qed.

(** The events of a run of subtasks are those of the subtasks. *)
Lemma series_trace_within (r : ref) (batch : list step) :
  forall k,
    (forall j c, batch !! j = Some c ->
       options (def_of c) = r ++ [(k + j)%nat] /\ wf_step c) ->
    forall st, exists evs,
      trace (series exec batch st).1 = trace st ++ evs
      /\ Forall (fun ev => exists j, (k <= j < k + List.length batch)%nat
                                     /\ below (r ++ [j]) ev) evs.
Proof.
  induction batch as [| c batch IH]; intros k Hb st.
  - exists []. simpl. rewrite app_nil_r. split; [reflexivity | constructor].
  - destruct (Hb 0%nat c eq_refl) as [Ho Hwf].
    destruct (exec_trace ext nesting c Hwf st) as (evs1 & E1 & F1).
    cbn [series]. destruct (exec c st) as [st1 err]. cbn [fst] in E1.
    assert (F1' : Forall (fun ev => exists j, (k <= j < k + List.length (c :: batch))%nat
                                              /\ below (r ++ [j]) ev) evs1).
    { eapply Forall_impl; [exact F1 |]. intros ev Hev. exists k. split.
      - simpl. lia.
      - rewrite Ho, Nat.add_0_r in Hev. exact Hev. }
    destruct err as [e |].
    + exists evs1. split; assumption.
    + destruct (IH (S k)) with (st := st1) as (evs2 & E2 & F2).
      { intros j c' Hj. destruct (Hb (S j) c' Hj) as [Ho' Hwf'].
        split; [| exact Hwf']. rewrite Ho'.
        replace (k + S j)%nat with (S k + j)%nat by lia. reflexivity. }
      exists (evs1 ++ evs2). split.
      * rewrite E2, E1, app_assoc. reflexivity.
      * apply Forall_app. split; [exact F1' |].
        eapply Forall_impl; [exact F2 |]. intros ev (j & Hj & Hev).
        exists j. split; [simpl; lia | exact Hev].
Qed.

Lemma below_sibling (r : ref) (i j : nat) (ev : event) :
  below (r ++ [j]) ev -> ev_ref ev = r ++ [i] -> j = i.
Proof.
  unfold below. intros [k Hk] E. rewrite E in Hk.
  apply (f_equal (fun l => l !! List.length r)) in Hk.
  rewrite <- app_assoc in Hk.
  rewrite !lookup_app_r in Hk by lia.
  rewrite Nat.sub_diag in Hk. simpl in Hk. congruence.
Qed.

(** The depth of the logger is set when a node is reported and never set
    back: when the last subtask, an inline function, has run, the logger
    is one level deeper than the task, and stays there through the
    post-task phase of the task, which sets no depth. *)
Theorem depth_stays_at_the_last_subtask
    (d : Def) (pre : list step) (c : Def) (st : state) :
  wf_step (TaskStep d (pre ++ [FunctionStep c])) ->
  ~ In (EvCall (options c)) (trace st) ->
  In (EvCall (options c)) (trace (exec (TaskStep d (pre ++ [FunctionStep c])) st).1) ->
  depth c = depth d + 1
  /\ Logger._depth (log (exec (TaskStep d (pre ++ [FunctionStep c])) st).1)
     = Z.max 1 (depth c)
  /\ forall err st', Logger._depth (log (posTaskFunc ext d err st').1)
                     = Logger._depth (log st').
Proof.
  intros Hwf Hnot Hin.
  inversion Hwf as [| | d' batch' Hlinked]; subst.
  assert (Hlast : linked d (List.length pre) (FunctionStep c) /\ wf_step (FunctionStep c)).
  { apply Hlinked. rewrite lookup_app_r by lia. rewrite Nat.sub_diag. reflexivity. }
  destruct Hlast as [(Ho & Hpo & Hdepth) Hwfc]. cbn [def_of] in Ho, Hpo, Hdepth.
  assert (Hfn : isFunction (task c) = true) by (inversion Hwfc; assumption).
  split; [exact Hdepth |].
  split; [| intros err st'; apply posTaskFunc_depth].
  assert (Hown : forall evs,
            Forall (below (options d)) evs ->
            Forall (fun ev => ev_ref ev = options d) evs ->
            ~ In (EvCall (options c)) evs).
  { intros evs _ Hrefs Hi. rewrite Forall_forall in Hrefs.
    apply list_elem_of_In in Hi. specialize (Hrefs _ Hi). simpl in Hrefs.
    rewrite Ho in Hrefs. apply (f_equal (@List.length nat)) in Hrefs.
    rewrite length_app in Hrefs. simpl in Hrefs. lia. }
  revert Hin. cbn [Automaton.exec].
  destruct (preTaskFunc_trace ext nesting d st) as (evs0 & E0 & H0).
  destruct (preTaskFunc ext nesting d st) as [st1 [err disabled]]. cbn [fst] in E0.
  assert (Hnot1 : ~ In (EvCall (options c)) (trace st1)).
  { rewrite E0, in_app_iff. intros [Hi | Hi]; [exact (Hnot Hi) |].
    destruct H0 as [-> | ->]; [destruct Hi |].
    destruct Hi as [Hi | []]. discriminate. }
  assert (Hpost : forall err st2,
            ~ In (EvCall (options c)) (trace st2) ->
            ~ In (EvCall (options c)) (trace (posTaskFunc ext d err st2).1)).
  { intros err' st2 H2. rewrite posTaskFunc_trace, in_app_iff.
    intros [Hi | Hi]; [exact (H2 Hi) |].
    destruct Hi as [Hi | Hi]; [discriminate |].
    destruct (task_teardown (task d)); [destruct Hi as [Hi | []]; discriminate | destruct Hi]. }
  destruct disabled; [intros Hi; elim (Hnot1 Hi) |].
  destruct err as [e |]; [intros Hi; elim (Hpost _ _ Hnot1 Hi) |].
  (* the subtasks *)
  destruct (series_trace_within (options d) pre 0%nat) with (st := st1)
    as (evsp & Ep & Fp).
  { intros j c' Hj. destruct (Hlinked j c') as [(Ho' & _) Hwf'].
    - rewrite lookup_app_l by (eapply lookup_lt_Some, Hj). exact Hj.
    - split; [exact Ho' | exact Hwf']. }
  assert (Hnotp : ~ In (EvCall (options c)) (trace (series exec pre st1).1)).
  { rewrite Ep, in_app_iff. intros [Hi | Hi]; [exact (Hnot1 Hi) |].
    rewrite Forall_forall in Fp. apply list_elem_of_In in Hi.
    destruct (Fp _ Hi) as (j & Hj & Hb).
    pose proof (below_sibling (options d) (List.length pre) j _ Hb Ho) as Hjj.
    simpl in Hj. lia. }
  destruct (series exec pre st1) as [stp errp] eqn:Eser. cbn [fst] in Hnotp.
  destruct errp as [e |].
  - rewrite (series_app_error ext nesting pre [FunctionStep c] st1 e)
      by (rewrite Eser; reflexivity).
    rewrite Eser. intros Hi. elim (Hpost _ _ Hnotp Hi).
  - rewrite (series_app_ok ext nesting pre [FunctionStep c] st1)
      by (rewrite Eser; reflexivity).
    rewrite Eser. cbn [fst series Automaton.exec].
    pose proof (batchFunctionTask_depth c stp Hfn) as Hd.
    destruct (_batchFunctionTask ext nesting c stp) as [stc errc]. cbn [fst] in Hd.
    destruct errc as [e |]; cbn [fst]; intros Hi;
      match goal with
      | |- context [posTaskFunc ext d ?err2 stc] =>
          destruct (posTaskFunc_depth d err2 stc) as [Hpd _]; rewrite Hpd;
          apply Hd; intros Heq; apply (Hpost err2 stc);
          [rewrite Heq; exact Hnotp | exact Hi]
      end.
Qed.

End Depth.

(** *** A muted batch *)

Section Muted.

Variable ext : Collaborators.
Variable nesting : nat.

Local Abbreviation exec := (Automaton.exec ext nesting).
Local Abbreviation replace_node_options :=
  (Automaton.replace_node_options ext nesting).

Lemma call_on_muted colors m args lg :
  Logger._muted lg = true -> Logger.call colors m args lg = lg.
Proof.
  intros H. apply (proj2 (call_unfold colors m args lg)). rewrite H. reflexivity.
Qed.

Lemma write_on_muted colors chunk lg :
  Logger._muted lg = true -> Logger.write colors [chunk] lg = lg.
Proof. exact (call_on_muted colors Logger.Mwrite [chunk] lg). Qed.

Lemma debugln_on_muted colors args lg :
  Logger._muted lg = true -> Logger.debugln colors args lg = lg.
Proof. exact (call_on_muted colors Logger.Mdebugln args lg). Qed.

Lemma calls_on_muted (calls : list (Logger.method * list string)) lg :
  Logger._muted lg = true ->
  fold_left (fun lg c => Logger.call (colors ext) c.1 c.2 lg) calls lg = lg.
Proof.
  intros H. induction calls as [| c calls IH]; [reflexivity |].
  cbn [fold_left]. rewrite call_on_muted by exact H. exact IH.
Qed.

Lemma writes_on_muted (chunks : list string) lg :
  Logger._muted lg = true ->
  fold_left (fun lg chunk => Logger.write (colors ext) [chunk] lg) chunks lg = lg.
Proof.
  intros H. induction chunks as [| c chunks IH]; [reflexivity |].
  cbn [fold_left]. rewrite write_on_muted by exact H. exact IH.
Qed.

Lemma call_user_on_muted f r st :
  Logger._muted (log st) = true -> log (call_user ext f r st).1 = log st.
Proof. intros H. unfold call_user. cbn. apply calls_on_muted, H. Qed.

Lemma onBeforeTask_on_muted def st :
  Logger._muted (log st) = true ->
  Logger._muted (log (_onBeforeTask ext def st)) = true
  /\ mutedLogger (_onBeforeTask ext def st) = mutedLogger st
  /\ Logger._stream (log (_onBeforeTask ext def st)) = Logger._stream (log st).
Proof.
  intros H. unfold _onBeforeTask.
  set (lg1 := Logger.setDepth (depth def) (log st)).
  assert (H1 : Logger._muted lg1 = true) by exact H.
  set (lg2 := match report_of def (heap st) with Some _ => _ | None => _ end).
  assert (E2 : lg2 = lg1).
  { unfold lg2. destruct (report_of def (heap st)); [| reflexivity].
    apply (call_on_muted (colors ext) Logger.Minfoln _ lg1 H1). }
  rewrite E2. unfold Logger.isMuted. rewrite H1. cbn. auto.
Qed.

Lemma onAfterTask_on_muted def err st :
  Logger._muted (log st) = true ->
  options def ∉ mutedLogger st ->
  log (_onAfterTask ext def err st).1 = log st
  /\ mutedLogger (_onAfterTask ext def err st).1 = mutedLogger st.
Proof.
  intros H Hun. unfold _onAfterTask.
  destruct err as [e |].
  - destruct (negb (_isTaskFatal ext def e (heap st))).
    + case_decide; [contradiction |]. cbn.
      rewrite debugln_on_muted by exact H. auto.
    + case_decide; [contradiction |]. auto.
  - case_decide; [contradiction |]. auto.
Qed.

(** The post-task phase of a node that does not own the mute. *)
Lemma posTaskFunc_on_muted def err st :
  Logger._muted (log st) = true ->
  options def ∉ mutedLogger st ->
  Logger._muted (log (posTaskFunc ext def err st).1) = true
  /\ mutedLogger (posTaskFunc ext def err st).1 = mutedLogger st
  /\ Logger._stream (log (posTaskFunc ext def err st).1) = Logger._stream (log st).
Proof.
  intros H Hun. unfold posTaskFunc.
  match goal with
  | |- context [_onAfterTask ext def err ?s] =>
      destruct (onAfterTask_on_muted def err s H Hun) as [L1 S1];
      destruct (_onAfterTask ext def err s) as [st1 err1]
  end.
  cbn [fst] in L1, S1. cbn in L1, S1.
  destruct (task_teardown (task def)) as [teardown |]; cbn [fst].
  - match goal with
    | |- context [call_user ext teardown ?r0 ?s] =>
        pose proof (call_user_on_muted teardown r0 s) as L2;
        pose proof (call_user_muted ext teardown r0 s) as S2;
        destruct (call_user ext teardown r0 s) as [st2 terr]
    end.
    cbn [fst] in L2, S2. cbn in L2, S2.
    rewrite L1 in L2. specialize (L2 H).
    destruct (onAfterTask_on_muted def terr st2) as [L3 S3].
    { rewrite L2. exact H. }
    { rewrite S2, S1. exact Hun. }
    destruct (_onAfterTask ext def terr st2) as [st3 terr']. cbn [fst] in *.
    rewrite L3, L2, S3, S2, S1. auto.
  - rewrite L1, S1. auto.
Qed.

Lemma preTaskFunc_on_muted def st :
  Logger._muted (log st) = true ->
  Logger._muted (log (preTaskFunc ext nesting def st).1) = true
  /\ mutedLogger (preTaskFunc ext nesting def st).1 = mutedLogger st
  /\ Logger._stream (log (preTaskFunc ext nesting def st).1) = Logger._stream (log st).
Proof.
  intros H. unfold preTaskFunc.
  destruct (negb (_isTaskEnabled ext def _)); cbn [fst].
  - rewrite replace_node_options_log, replace_node_options_muted. auto.
  - destruct (onBeforeTask_on_muted def (replace_node_options def (Some skip_unescape) st))
      as (M2 & S2 & T2).
    { rewrite replace_node_options_log. exact H. }
    rewrite replace_node_options_log in T2. rewrite replace_node_options_muted in S2.
    unfold run_setup.
    destruct (task_setup (task def)) as [setup |].
    + match goal with
      | |- context [call_user ext setup ?r0 ?s] =>
          pose proof (call_user_on_muted setup r0 s) as L3;
          pose proof (call_user_muted ext setup r0 s) as S3;
          destruct (call_user ext setup r0 s) as [st3 err]
      end.
      cbn [fst] in L3, S3. cbn in L3, S3. specialize (L3 M2).
      destruct err; cbn [fst];
        rewrite ?replace_node_options_log, ?replace_node_options_muted, L3, S3;
        auto.
    + cbn [fst].
      rewrite ?replace_node_options_log, ?replace_node_options_muted. auto.
Qed.

Lemma exec_on_muted s :
  wf_step s ->
  forall st,
    Logger._muted (log st) = true ->
    unowned (options (def_of s)) st ->
    Logger._muted (log (exec s st).1) = true
    /\ mutedLogger (exec s st).1 = mutedLogger st
    /\ Logger._stream (log (exec s st).1) = Logger._stream (log st).
Proof.
  induction s as [d | d | d batch IH] using step_rect'; intros Hwf st Hm Hun;
    cbn [Automaton.exec def_of] in *.
  - unfold _batchGruntTask. destruct (negb _); cbn [fst].
    { rewrite replace_node_options_log, replace_node_options_muted. auto. }
    destruct (onBeforeTask_on_muted d (replace_node_options d None st))
      as (M2 & S2 & T2).
    { rewrite replace_node_options_log. exact Hm. }
    rewrite replace_node_options_log in T2. rewrite replace_node_options_muted in S2.
    destruct (g_error _).
    + match goal with
      | |- context [_onAfterTask ext d ?err ?s] =>
          destruct (onAfterTask_on_muted d err s) as [L3 S3]
      end.
      { cbn. rewrite writes_on_muted by exact M2. exact M2. }
      { cbn. rewrite S2. apply unowned_self, Hun. }
      rewrite L3, S3. cbn. rewrite writes_on_muted by exact M2. auto.
    + cbn. rewrite writes_on_muted by exact M2. auto.
  - inversion Hwf as [| d' Hfn |]; subst.
    unfold _batchFunctionTask. destruct (negb _); cbn [fst].
    { rewrite replace_node_options_log, replace_node_options_muted. auto. }
    destruct (onBeforeTask_on_muted d (replace_node_options d None st))
      as (M2 & S2 & T2).
    { rewrite replace_node_options_log. exact Hm. }
    rewrite replace_node_options_log in T2. rewrite replace_node_options_muted in S2.
    destruct (task d); try discriminate.
    match goal with
    | |- context [call_user ext ?f ?r0 ?s] =>
        pose proof (call_user_on_muted f r0 s) as L3;
        pose proof (call_user_muted ext f r0 s) as S3;
        destruct (call_user ext f r0 s) as [st3 err]
    end.
    cbn [fst] in L3, S3. cbn in L3, S3. specialize (L3 M2).
    destruct (onAfterTask_on_muted d err st3) as [L4 S4].
    { rewrite L3. exact M2. }
    { rewrite S3, S2. apply unowned_self, Hun. }
    rewrite L4, S4, L3, S3. auto.
  - destruct (wf_batch_refs _ _ Hwf) as [Hrefs Hwfs].
    destruct (preTaskFunc_on_muted d st Hm) as (M1 & S1 & T1).
    destruct (preTaskFunc ext nesting d st) as [st1 [err disabled]]. cbn [fst] in *.
    destruct disabled; [auto |].
    assert (Hpost : forall err st2,
               Logger._muted (log st2) = true -> mutedLogger st2 = mutedLogger st ->
               Logger._stream (log st2) = Logger._stream (log st) ->
               Logger._muted (log (posTaskFunc ext d err st2).1) = true
               /\ mutedLogger (posTaskFunc ext d err st2).1 = mutedLogger st
               /\ Logger._stream (log (posTaskFunc ext d err st2).1)
                  = Logger._stream (log st)).
    { intros err0 st2 M2 S2 T2.
      destruct (posTaskFunc_on_muted d err0 st2 M2) as (M' & S' & T').
      - rewrite S2. apply unowned_self, Hun.
      - rewrite M', S', T'. auto. }
    destruct err as [e |]; [apply Hpost; assumption |].
    assert (Hseries : forall st1,
               Logger._muted (log st1) = true -> mutedLogger st1 = mutedLogger st ->
               Logger._stream (log st1) = Logger._stream (log st) ->
               Logger._muted (log (series exec batch st1).1) = true
               /\ mutedLogger (series exec batch st1).1 = mutedLogger st
               /\ Logger._stream (log (series exec batch st1).1)
                  = Logger._stream (log st)).
    { clear st1 M1 S1 T1 Hwf.
      induction batch as [| c batch IHb]; intros st1 M2 S2 T2; [cbn; auto |].
      inversion IH as [| ? ? IHc IHrest]; subst.
      inversion Hrefs as [| ? ? [i Hi] Hrefs']; subst.
      inversion Hwfs as [| ? ? Hwc Hwfs']; subst.
      cbn [series].
      destruct (IHc Hwc st1 M2) as (Mc & Sc & Tc).
      { rewrite Hi. apply (unowned_child _ _ st st1 Hun). right. exact S2. }
      destruct (exec c st1) as [st2 err]. cbn [fst] in Mc, Sc, Tc.
      destruct err as [e |]; [cbn; repeat split; congruence |].
      apply IHb; try assumption; congruence. }
    destruct (Hseries st1 M1 S1 T1) as (M2 & S2 & T2).
    destruct (series exec batch st1) as [st2 err2]. cbn [fst] in M2, S2, T2.
    apply Hpost; assumption.
Qed.

(** While the logger is muted by a node above, a batch, with all that
    runs in it (report lines, writes of user code, output of grunt tasks,
    notes of absorbed failures), puts nothing on the stream. *)
Theorem muted_batch_logs_nothing (s : step) (st : state) :
  wf_step s ->
  Logger._muted (log st) = true ->
  unowned (options (def_of s)) st ->
  Logger._stream (log (exec s st).1) = Logger._stream (log st).
Proof.
  intros Hwf Hm Hun. exact (proj2 (proj2 (exec_on_muted s Hwf st Hm Hun))).
Qed.

End Muted.

(** *** The order of the record *)

Section Bracket.

Variable ext : Collaborators.
Variable nesting : nat.

Local Abbreviation exec := (Automaton.exec ext nesting).
Local Abbreviation replace_node_options :=
  (Automaton.replace_node_options ext nesting).

(** The record of an enabled task: its setup first, if it has one, then
    the events of its subtasks and of what lies below them, then its
    post-task phase and its teardown, if it has one; nothing of the task
    itself in between. *)
Theorem hooks_bracket_the_subtasks (def : Def) (batch : list step) (st : state) :
  wf_step (TaskStep def batch) ->
  _isTaskEnabled ext def (heap (replace_node_options def (Some skip_unescape) st)) = true ->
  exists mid,
    trace (exec (TaskStep def batch) st).1
    = trace st ++ setup_events def ++ mid
        ++ EvPosTask (options def) :: teardown_events def
    /\ Forall (fun ev => exists i, below (options def ++ [i]) ev) mid
    /\ Forall (fun ev => ev_ref ev <> options def) mid.
Proof.
  intros Hwf Hen.
  destruct (wf_batch_refs _ _ Hwf) as [Hrefs Hwfs].
  assert (Hev : Forall (fun c => forall st, exists evs,
                            trace (exec c st).1 = trace st ++ evs
                            /\ Forall (below (options (def_of c))) evs) batch).
  { rewrite Forall_forall in Hwfs. apply Forall_forall. intros c Hc.
    apply exec_trace, Hwfs, Hc. }
  pose proof (preTaskFunc_enabled_trace ext nesting def st) as Hpre.
  rewrite preTaskFunc_disabled, Hen in Hpre. specialize (Hpre eq_refl).
  pose proof (preTaskFunc_disabled ext nesting def st) as Hdis. rewrite Hen in Hdis.
  cbn [Automaton.exec].
  destruct (preTaskFunc ext nesting def st) as [st1 [err disabled]].
  cbn [fst snd] in Hpre, Hdis. subst disabled. cbn [negb].
  assert (Hstrict : forall mid,
            Forall (fun ev => exists i, below (options def ++ [i]) ev) mid ->
            Forall (fun ev => ev_ref ev <> options def) mid).
  { intros mid F. eapply Forall_impl; [exact F |]. intros ev [i Hb].
    exact (proj2 (below_child _ _ _ Hb)). }
  destruct err as [e |].
  - exists []. rewrite posTaskFunc_trace, Hpre, <- app_assoc.
    split; [reflexivity | split; constructor].
  - destruct (series_trace ext nesting (options def) batch Hev Hrefs st1)
      as (mid & Emid & Fmid).
    destruct (series exec batch st1) as [st2 err2]. cbn [fst] in Emid.
    exists mid. rewrite posTaskFunc_trace, Emid, Hpre, <- !app_assoc.
    split; [reflexivity |]. split; [exact Fmid | apply Hstrict, Fmid].
Qed.

End Bracket.

(** *** By id or by object *)

Lemma createTaskDefinition_root t opts :
  _createTaskDefinition [] (Entry t opts DescUndef None None None VUndef) None ∅
  = ({| task := t; options := []; parentOptions := []; depth := 1;
        description := DescUndef; on := None; mute := None; fatal := None;
        grunt := VUndef |},
     <[ [] := if truthy opts then deepClone opts else VObj [] ]> ∅).
Proof. reflexivity. Qed.

Lemma batchTask_same_resolution (ext : Collaborators) fuel tasks def def' h t :
  resolve ext tasks def = Returns t ->
  resolve ext tasks def' = Returns t ->
  set_task def t = set_task def' t ->
  _batchTask ext fuel tasks def h = _batchTask ext fuel tasks def' h.
Proof.
  intros R1 R2 Hset. destruct fuel as [| fuel]; [reflexivity |].
  rewrite !batchTask_unfold, R1, R2. cbv zeta. rewrite Hset. reflexivity.
Qed.

(** Running a task by its id is running the task object the registry holds
    for it, when the validator accepts that object; and running a builder
    is running what it builds. *)
Theorem run_by_id_is_run_of_the_object
    (ext : Collaborators) (nesting fuel : nat) (o : Logger.Options)
    (tasks : gmap string taskdef) (opts : value) :
  (forall id d,
     tasks !! id = Some d -> validate ext d = None ->
     run ext nesting fuel o tasks (TaskId id) opts
     = run ext nesting fuel o tasks (TaskObj d) opts)
  /\ (forall name len body d,
        run ext nesting fuel o tasks (TaskFn name len body (inr d)) opts
        = run ext nesting fuel o tasks (TaskObj d) opts).
Proof.
  split.
  - intros id d Hid Hv. unfold run. rewrite !createTaskDefinition_root.
    erewrite (batchTask_same_resolution ext fuel tasks _ _ _ (TaskObj d));
      [reflexivity | | | reflexivity].
    + unfold resolve, _assertTaskLoaded, getTask. cbn [task]. rewrite Hid. reflexivity.
    + unfold resolve. cbn [task isFunction depth]. rewrite Hv. reflexivity.
  - intros name len body d. unfold run. rewrite !createTaskDefinition_root.
    destruct (validate ext d) as [msg |] eqn:Hv.
    + destruct fuel as [| fuel]; [reflexivity |].
      rewrite !batchTask_unfold. unfold resolve.
      cbn [task isFunction depth getTaskDefinition]. rewrite Hv. reflexivity.
    + erewrite (batchTask_same_resolution ext fuel tasks _ _ _ (TaskObj d));
        [reflexivity | | | reflexivity].
      * unfold resolve. cbn [task isFunction depth getTaskDefinition].
        rewrite Hv. reflexivity.
      * unfold resolve. cbn [task isFunction depth]. rewrite Hv. reflexivity.
Qed.

(* ===================================================================== *)
(** ** Adding and loading tasks *)
(* ===================================================================== *)

Section RegistryFacts.

Variable ext : Collaborators.
Variable validate_id : string -> option string.

Local Abbreviation checked := (checked_task ext validate_id).
Local Abbreviation add := (addTask ext validate_id).
Local Abbreviation load := (loadTasks ext validate_id).
Local Abbreviation load1 := (load_file ext validate_id).

Lemma checked_task_id t id d :
  checked t = Returns (id, d) ->
  getTaskDefinition t = Returns (TaskObj d) /\ validate ext d = None
  /\ t_id d = Some id /\ id <> "".
Proof.
  unfold checked_task.
  destruct (getTaskDefinition t) as [[s | n l b bt | d'] | msg |] eqn:Eg;
    try discriminate.
  destruct (validate ext d') as [msg |] eqn:Ev; [discriminate |].
  destruct (t_id d') as [id' |] eqn:Ei; [| discriminate].
  destruct (String.eqb id' "") eqn:E; [discriminate |].
  intros H. injection H as -> ->. apply String.eqb_neq in E. auto.
Qed.

(** [addTask] registers the task object (built, if a builder is given)
    under its id: [getTask] then gives it for this id, and what it gave
    before for any other; [removeTask] takes it out again and leaves the
    others.  A builder that throws, a task the validator refuses and a
    task without an id are thrown back. *)
Theorem added_task_is_retrievable
    (t : taskref) (tasks : gmap string taskdef) :
  (forall tasks',
     add t tasks = Returns tasks' ->
     exists id d,
       getTaskDefinition t = Returns (TaskObj d) /\ validate ext d = None
       /\ t_id d = Some id /\ id <> ""
       /\ getTask tasks' id = Some d
       /\ (forall id', id' <> id -> getTask tasks' id' = getTask tasks id')
       /\ getTask (removeTask id tasks') id = None
       /\ (forall id', id' <> id ->
             getTask (removeTask id tasks') id' = getTask tasks id'))
  /\ (forall msg,
        getTaskDefinition t = Throws msg -> add t tasks = Throws msg)
  /\ (forall d msg,
        getTaskDefinition t = Returns (TaskObj d) -> validate ext d = Some msg ->
        add t tasks = Throws msg)
  /\ (forall d,
        getTaskDefinition t = Returns (TaskObj d) -> validate ext d = None ->
        t_id d = None \/ t_id d = Some "" ->
        add t tasks = Throws no_id).
Proof.
  repeat split.
  - intros tasks'. unfold addTask.
    destruct (checked t) as [[id d] | msg |] eqn:E; try discriminate.
    intros H. injection H as <-.
    destruct (checked_task_id t id d E) as (Hg & Hv & Hi & Hne).
    exists id, d. unfold getTask, removeTask.
    repeat split; try assumption.
    + apply lookup_insert_eq.
    + intros id' Hid. apply lookup_insert_ne. congruence.
    + apply lookup_delete_eq.
    + intros id' Hid. rewrite lookup_delete_ne, lookup_insert_ne by congruence.
      reflexivity.
  - intros msg H. unfold addTask, checked_task. rewrite H. reflexivity.
  - intros d msg H Hv. unfold addTask, checked_task.
    rewrite H, Hv. reflexivity.
  - intros d H Hv Hid. unfold addTask, checked_task.
    rewrite H, Hv. destruct Hid as [-> | ->]; reflexivity.
Qed.

Lemma load_file_errors acc file :
  exists errs,
    (load1 acc file).2 = acc.2 ++ errs
    /\ (List.length errs <= 1)%nat
    /\ load1 (acc.1, []) file = ((load1 acc file).1, errs).
Proof.
  unfold load_file. cbn [fst snd].
  destruct (match file.2 with inl msg => Throws msg | inr t => add t acc.1 end)
    as [tasks' | msg |].
  - exists []. rewrite app_nil_r. simpl. auto.
  - eexists. simpl. split; [reflexivity | split; [simpl; lia | reflexivity]].
  - exists []. rewrite app_nil_r. simpl. destruct acc; auto.
Qed.

Lemma loadTasks_from files :
  forall tasks errs,
    fold_left load1 files (tasks, errs)
    = ((load files tasks).1, errs ++ (load files tasks).2).
Proof.
  unfold loadTasks.
  induction files as [| file files IH]; intros tasks errs.
  - simpl. now rewrite app_nil_r.
  - cbn [fold_left].
    destruct (load_file_errors (tasks, errs) file) as (e1 & H2 & _ & H1).
    cbn [fst snd] in H1, H2.
    rewrite H1.
    destruct (load1 (tasks, errs) file) as [tasks1 errs1]. cbn [fst snd] in *.
    subst errs1. rewrite (IH tasks1 (errs ++ e1)), (IH tasks1 e1). cbn [fst snd].
    rewrite app_assoc. reflexivity.
Qed.

Lemma loadTasks_app fs1 fs2 tasks :
  load (fs1 ++ fs2) tasks
  = ((load fs2 (load fs1 tasks).1).1,
     (load fs1 tasks).2 ++ (load fs2 (load fs1 tasks).1).2).
Proof.
  unfold loadTasks at 1. rewrite fold_left_app.
  fold (load fs1 tasks).
  destruct (load fs1 tasks) as [tasks1 errs1]. cbn [fst snd].
  apply loadTasks_from.
Qed.

Lemma loadTasks_cons file files tasks :
  load (file :: files) tasks
  = ((load files (load1 (tasks, []) file).1).1,
     (load1 (tasks, []) file).2 ++ (load files (load1 (tasks, []) file).1).2).
Proof. apply (loadTasks_app [file] files tasks). Qed.

(** [loadTasks] takes the files one by one: a file that cannot be
    required or added gives one error, naming the file, and leaves the
    registry as it was; a file that can be added replaces what its id
    held; the files after it are loaded all the same; ids no file gives
    are not touched. *)
Theorem loadTasks_judges_each_file_alone :
  (forall fs1 fs2 tasks,
     load (fs1 ++ fs2) tasks
     = ((load fs2 (load fs1 tasks).1).1,
        (load fs1 tasks).2 ++ (load fs2 (load fs1 tasks).1).2))
  /\ (forall file msg tasks,
        load [(file, inl msg)] tasks = (tasks, [unable_to_add file msg]))
  /\ (forall file t msg tasks,
        checked t = Throws msg ->
        load [(file, inr t)] tasks = (tasks, [unable_to_add file msg]))
  /\ (forall file t id d tasks,
        checked t = Returns (id, d) ->
        load [(file, inr t)] tasks = (<[id := d]> tasks, []))
  /\ (forall files tasks,
        (List.length (load files tasks).2 <= List.length files)%nat)
  /\ (forall files tasks id,
        (forall file t d, In (file, inr t) files -> checked t <> Returns (id, d)) ->
        getTask (load files tasks).1 id = getTask tasks id).
Proof.
  split; [exact loadTasks_app |].
  split; [reflexivity |].
  split.
  { intros file t msg tasks H. unfold loadTasks, load_file,
      addTask. simpl. rewrite H. reflexivity. }
  split.
  { intros file t id d tasks H. unfold loadTasks, load_file,
      addTask. simpl. rewrite H. reflexivity. }
  split.
  { induction files as [| file files IH]; intros tasks; [simpl; lia |].
    rewrite loadTasks_cons. cbn [snd]. rewrite length_app.
    destruct (load_file_errors (tasks, []) file) as (e1 & H2 & Hlen & _).
    cbn [snd] in H2. rewrite H2. simpl.
    specialize (IH (load1 (tasks, []) file).1). lia. }
  induction files as [| file files IH]; intros tasks id Hid; [reflexivity |].
  rewrite loadTasks_cons. cbn [fst].
  rewrite IH.
  - unfold load_file. cbn [fst snd].
    destruct file as [name [msg | t]]; cbn [fst snd]; [reflexivity |].
    unfold addTask.
    destruct (checked t) as [[id' d] | msg |] eqn:E; cbn [fst]; try reflexivity.
    unfold getTask. apply lookup_insert_ne. intros ->.
    apply (Hid name t d); [left; reflexivity | exact E].
  - intros f t d Hin. apply (Hid f). right. exact Hin.
Qed.

End RegistryFacts.

(* ===================================================================== *)
(** ** The sample project at work, continued *)
(* ===================================================================== *)



(** A report line in the [cyan] style, stripped. *)
Lemma cyan_report_stripped : removeColors (ansi "cyan" "> build") = "> build".
Proof.
  exact (proj1 (removeColors_keeps_the_text [Code "36"; Plain "> build"; Code "39"]
                  ltac:(repeat constructor))).
Defined.

(** The same report line sent with colors off, two levels deep. *)
Lemma colorless_report_line :
  Logger._stream (Logger.infoln ansi [ansi "cyan" "> build"] colorless)
  = ["  > build" +:+ newline].
Proof.
  change (Logger.infoln ansi [ansi "cyan" "> build"] colorless)
    with (Logger.call ansi Logger.Minfoln
            [render [Code "36"; Plain "> build"; Code "39"]] colorless).
  rewrite (colors_off_strips_the_codes ansi Logger.Minfoln
             [Code "36"; Plain "> build"; Code "39"] colorless eq_refl
             ltac:(repeat split; [left; reflexivity | discriminate])
             eq_refl eq_refl ltac:(repeat constructor) eq_refl).
  reflexivity.
Defined.

(** [release] run with verbosity [0]: the callback gets the error, the
    stream nothing. *)
Lemma silent_release_logs_nothing :
  Logger._stream
    (log (exec sample 5 (TaskStep (root_node release) [failing_step; announce_step])
            (start release_heap silent)).1) = []
  /\ exists r,
      run sample 5 3 silent registry (TaskObj release) (VObj []) = Returns r
      /\ callback r = Some (Error "boom")
      /\ Logger._stream (log (final r)) = [].
Proof.
  split.
  - exact (proj1 (verbosity_zero_logs_nothing sample 5)
             (TaskStep (root_node release) [failing_step; announce_step])
             (start release_heap silent) eq_refl ltac:(vm_compute; discriminate)).
  - assert (H : { r | run sample 5 3 silent registry (TaskObj release) (VObj []) = Returns r })
      by (eexists; vm_compute; reflexivity).
    destruct H as [r Hr]. exists r. split; [exact Hr |]. split.
    + revert Hr. vm_compute. intros Hr. injection Hr as <-. reflexivity.
    + exact (proj2 (verbosity_zero_logs_nothing sample 5) 3%nat silent registry
               (TaskObj release) (VObj []) r eq_refl Hr).
Defined.

(** A schema with two defaults on options that give one of them. *)
Lemma given_level_kept_target_defaulted :
  get_prop (fill_defaults with_defaults (VObj given)) "level" = VNum 3
  /\ get_prop (fill_defaults with_defaults (VObj given)) "target" = VStr "app"
  /\ first_missing with_defaults (fill_defaults with_defaults (VObj given)) = Some "mode"
  /\ assoc_get with_defaults "mode" = VUndef.
Proof.
  destruct (defaults_fill_only_what_is_missing with_defaults given
              ltac:(apply (bool_decide_unpack _); vm_compute; reflexivity))
    as [Hget Hmiss].
  split; [exact (Hget "level") |].
  split; [exact (Hget "target") |].
  split; [reflexivity |].
  exact (proj1 (proj2 (Hmiss "mode" eq_refl))).
Defined.

(** [build] as a subtask compiles under a validator that refuses every
    task; as the root it does not. *)
Lemma inline_build_is_not_validated :
  _batchTask sample 3 registry (subtask_node 0 (TaskObj build) None None) release_heap
  = _batchTask strict 3 registry (subtask_node 0 (TaskObj build) None None) release_heap
  /\ _batchTask strict 3 registry (root_node build) release_heap = Throws "invalid task".
Proof.
  split; [| reflexivity].
  apply (only_the_root_task_is_validated sample strict 3 registry
           (subtask_node 0 (TaskObj build) None None) release_heap).
  - simpl. lia.
  - intros d H. simpl in H. lia.
Defined.

(** [minify] is not in the registry: neither it nor a task that has it as
    a subtask gets to run. *)
Lemma minify_is_not_loaded :
  run sample 5 1 plain registry (TaskId "minify") (VObj [])
  = Throws "Could not find any task handler suitable for 'minify'"
  /\ ~ exists r, run sample 5 3 plain registry (TaskObj dangling) (VObj []) = Returns r.
Proof.
  split.
  - exact (proj1 (proj2 (unknown_task_id_throws sample 5 registry "minify" eq_refl))
             0%nat plain (VObj [])).
  - intros [r Hr].
    refine (proj2 (proj2 (proj2 (unknown_task_id_throws sample 5 registry "minify" eq_refl)))
              3%nat plain dangling (VObj []) (entry_of (TaskId "minify")) r
              eq_refl _ eq_refl eq_refl Hr).
    simpl. auto.
Defined.

(** In [release] the subtask after the failing one is not run. *)
Lemma announce_after_failure_is_not_run :
  exec sample 5 (TaskStep (root_node release) ([failing_step] ++ [announce_step]))
    (start release_heap plain)
  = exec sample 5 (TaskStep (root_node release) [failing_step]) (start release_heap plain).
Proof.
  exact (proj2 (failed_subtask_stops_the_batch sample 5 (root_node release)
                  [failing_step] [announce_step] (start release_heap plain)
                  (Error "boom") ltac:(vm_compute; reflexivity))).
Defined.

(** [build] without its [target]: the subtask is not run. *)
Lemma build_without_target_runs_no_subtask :
  trace (exec sample 5 (TaskStep (root_node build) [announce_step])
           (start release_heap plain)).1
  = [EvPosTask []].
Proof.
  exact (proj2 (proj2 (failed_pretask_skips_the_subtasks sample 5 (root_node build)
                         [announce_step] (start release_heap plain)
                         (Error "Missing option 'target' in 'build' task")
                         ltac:(vm_compute; reflexivity)))).
Defined.

(** [release], at depth [1], leaves the logger at depth [2]. *)
Lemma release_ends_two_levels_deep :
  depth (root_node release) = 1
  /\ Logger._depth
       (log (exec sample 5
               (TaskStep (root_node release) ([tolerated_step] ++ [announce_step]))
               (start release_heap plain)).1) = 2.
Proof.
  split; [reflexivity |].
  refine (proj1 (proj2 (depth_stays_at_the_last_subtask sample 5 (root_node release)
                          [tolerated_step] (subtask_node 1 announce None None)
                          (start release_heap plain) _ _ _))).
  - constructor. intros [| [| i]] c Hc; try discriminate;
      injection Hc as <-; (split; [repeat split | constructor; reflexivity]).
  - intros H. exact H.
  - vm_compute. auto 10.
Defined.

(** The mark of [stamp] is in the parent's options, not in its own. *)
Lemma stamp_lands_in_the_parent_options :
  deref (heap (exec sample 5 (FunctionStep (subtask_node 0 stamp None None))
                 (start check_heap plain)).1) []
  = VObj [("target", VStr "app"); ("stamp", VStr "now")]
  /\ heap (exec sample 5 (FunctionStep (subtask_node 0 stamp None None))
             (start check_heap plain)).1 !! [0%nat] = Some (VObj []).
Proof.
  destruct (inline_function_works_on_the_parent_options sample 5
              (subtask_node 0 stamp None None) _ _ _ _ (start check_heap plain)
              eq_refl ltac:(discriminate) eq_refl) as (Hp & Ho & _).
  split; [exact Hp |]. refine (eq_trans Ho _). vm_compute. reflexivity.
Defined.


(** A builder of [build] is added; a broken builder and a task without an
    id are not. *)
Lemma built_task_is_registered :
  exists tasks',
    addTask sample rejects_strings build_builder ∅ = Returns tasks'
    /\ getTask tasks' "build" = Some build
    /\ getTask (removeTask "build" tasks') "build" = None
  /\ addTask sample rejects_strings broken_builder ∅
     = Throws "Unable to get task from builder: boom"
  /\ addTask sample rejects_strings (TaskObj anonymous) ∅
     = Throws "Can only add tasks with an id".
Proof.
  exists (<["build" := build]> ∅).
  destruct (proj1 (added_task_is_retrievable sample rejects_strings build_builder ∅)
              (<["build" := build]> ∅) eq_refl)
    as (id & d & Hg & _ & Hi & _ & Hget & _ & Hdel & _).
  injection Hg as <-. injection Hi as <-.
  split; [reflexivity |]. split; [exact Hget |]. split; [exact Hdel |].
  split.
  - exact (proj1 (proj2 (added_task_is_retrievable sample rejects_strings
                           broken_builder ∅))
             _ eq_refl).
  - exact (proj2 (proj2 (proj2 (added_task_is_retrievable sample rejects_strings
                                  (TaskObj anonymous) ∅)))
             anonymous eq_refl eq_refl (or_introl eq_refl)).
Defined.

(** A folder with a good file and three bad ones. *)
Lemma folder_loads_what_it_can :
  (loadTasks sample rejects_strings [("builder.js", inr broken_builder)] registry).2
  = [unable_to_add "builder.js" "Unable to get task from builder: boom"]
  /\ (loadTasks sample rejects_strings [("build.js", inr (TaskObj build))] ∅).1
     = {[ "build" := build ]}
  /\ getTask (loadTasks sample rejects_strings folder registry).1 "deploy" = Some deploy.
Proof.
  destruct (loadTasks_judges_each_file_alone sample rejects_strings)
    as (_ & _ & Hbad & Hgood & _ & Hother).
  split.
  - rewrite (Hbad "builder.js" broken_builder _ registry eq_refl). reflexivity.
  - split.
    + rewrite (Hgood "build.js" (TaskObj build) "build" build ∅ eq_refl). reflexivity.
    + rewrite (Hother folder registry "deploy").
      * reflexivity.
      * intros file t d Hin.
        simpl in Hin.
        destruct Hin as [H | [H | [H | [H | []]]]]; try discriminate;
          injection H as <- <-; vm_compute; discriminate.
Defined.

(** [build] as a subtask is reported behind two blanks, and not at all
    when only the first level is logged. *)
Lemma build_is_reported_two_levels_deep :
  Logger._stream
    (log (_onBeforeTask sample (subtask_node 0 (TaskObj build) None None)
            (start check_heap Logger.default_options)))
  = [ansi "cyan" "  > build" +:+ newline]
  /\ Logger._stream
       (log (_onBeforeTask sample (subtask_node 0 (TaskObj build) None None)
               (start check_heap shallow)))
     = [].
Proof.
  split.
  - exact (proj2 (node_is_reported_at_its_depth sample
                    (subtask_node 0 (TaskObj build) None None)
                    (start check_heap Logger.default_options) "build" eq_refl eq_refl)
             (or_introl eq_refl) eq_refl eq_refl).
  - exact (proj1 (node_is_reported_at_its_depth sample
                    (subtask_node 0 (TaskObj build) None None)
                    (start check_heap shallow) "build" eq_refl eq_refl)
             ltac:(vm_compute; discriminate) ltac:(vm_compute; reflexivity)).
Defined.

(** Under the mute of the root, [announce] writes nothing. *)
Lemma announce_under_mute_logs_nothing :
  Logger._stream
    (log (exec sample 5 (FunctionStep (subtask_node 0 announce None None)) muted_start).1)
  = [].
Proof.
  apply (muted_batch_logs_nothing sample 5
           (FunctionStep (subtask_node 0 announce None None)) muted_start).
  - exact (wf_function (subtask_node 0 announce None None) eq_refl).
  - reflexivity.
  - intros r' [k ->] Hin. cbn in Hin. apply elem_of_singleton in Hin. discriminate Hin.
Defined.

(** The record of [release]: setup, the failing subtask, post-task,
    teardown. *)
Lemma release_hooks_bracket_its_subtasks :
  trace (exec sample 5 (TaskStep (root_node release) [failing_step; announce_step])
           (start release_heap plain)).1
  = [EvSetup []; EvCall [0%nat]; EvPosTask []; EvTeardown []]
  /\ exists mid,
      trace (exec sample 5 (TaskStep (root_node release) [failing_step; announce_step])
               (start release_heap plain)).1
      = trace (start release_heap plain) ++ setup_events (root_node release) ++ mid
          ++ EvPosTask (options (root_node release)) :: teardown_events (root_node release)
      /\ Forall (fun ev => exists i, below (options (root_node release) ++ [i]) ev) mid
      /\ Forall (fun ev => ev_ref ev <> options (root_node release)) mid.
Proof.
  split; [vm_compute; reflexivity |].
  apply (hooks_bracket_the_subtasks sample 5 (root_node release)
           [failing_step; announce_step] (start release_heap plain)).
  - constructor. intros [| [| i]] c Hc; try discriminate;
      injection Hc as <-; (split; [repeat split | constructor; reflexivity]).
  - reflexivity.
Defined.

(** [build] run by its id and run as the object the registry holds. *)
Lemma build_by_id_or_by_object :
  run sample 5 3 plain registry (TaskId "build") (VObj [("target", VStr "app")])
  = run sample 5 3 plain registry (TaskObj build) (VObj [("target", VStr "app")]).
Proof.
  exact (proj1 (run_by_id_is_run_of_the_object sample 5 3 plain registry
                  (VObj [("target", VStr "app")]))
           "build" build eq_refl eq_refl).
Defined.
